(** * depfence: dependency-confusion scanner: parsers, rules and result assembly

    A shallow embedding of the TypeScript sources of depfence
    (lockfile-parser.ts, registry-config-parser.ts, rules.ts,
    registry-checker.ts, analyzer.ts, index.ts) together with the properties
    its specification states about them.

    Conventions of the embedding.
    - A JavaScript string is a [string] of bytes; the sources only inspect
      ASCII characters, and whitespace is the ASCII part of what [\s] and
      [trim] accept (tab, LF, VT, FF, CR, space).
    - [undefined] is [None]; a field of type [T | undefined] is an [option T].
    - A JavaScript [Map] keeps its keys in insertion order, and several rules
      iterate over one, so a [Map] is an association list without duplicate
      keys ([JsMap]).
    - Regular expressions are kept as syntax trees and run by a backtracking
      matcher with the priorities of the JavaScript one ([Regex]).  Where a
      comment quotes an expression of the sources, [\x22] stands for the
      double quote and a space keeps a star from a closing parenthesis. *)

From Stdlib Require Import List String Ascii Bool Arith ZArith Lia Sorted Permutation.
From Stdlib Require Import Numbers.DecimalString.
Import ListNotations.

Local Open Scope string_scope.
Local Open Scope nat_scope.
Local Open Scope list_scope.

Set Implicit Arguments.

(* ================================================================= *)
(** ** Characters and strings *)

Module Str.

Definition chars (s : string) : list ascii := list_ascii_of_string s.
Definition of_chars (l : list ascii) : string := string_of_list_ascii l.

Definition dquote : ascii := "034"%char.
Definition squote : ascii := "039"%char.
Definition newline : ascii := "010"%char.
Definition creturn : ascii := "013"%char.

(** The white space of one byte: tab, LF, VT, FF, CR and the space.
    JavaScript's [\s] and [trim] also accept U+00A0, U+1680, U+2000 to
    U+200A, U+2028, U+2029, U+202F, U+205F, U+3000 and U+FEFF, which take two
    or three bytes here and are read as ordinary characters: a file that
    begins with a byte-order mark or pads with these is outside the
    embedding. *)
Definition is_space (c : ascii) : bool :=
  let n := nat_of_ascii c in
  (n =? 9) || (n =? 10) || (n =? 11) || (n =? 12) || (n =? 13) || (n =? 32).

Definition is_digit (c : ascii) : bool :=
  let n := nat_of_ascii c in (48 <=? n) && (n <=? 57).

Definition is_line_end (c : ascii) : bool :=
  Ascii.eqb c newline || Ascii.eqb c creturn.

(** [c] is one of the characters of [set]. *)
Definition one_of (set : string) (c : ascii) : bool :=
  existsb (Ascii.eqb c) (chars set).

Fixpoint drop_spaces (l : list ascii) : list ascii :=
  match l with
  | c :: t => if is_space c then drop_spaces t else l
  | [] => []
  end.

(** [String.prototype.trim]. *)
Definition trim (s : string) : string :=
  of_chars (rev (drop_spaces (rev (drop_spaces (chars s))))).

(** [s.startsWith(p)]. *)
Definition startsWith (s p : string) : bool := String.prefix p s.

Fixpoint strip_prefix (p l : list ascii) : option (list ascii) :=
  match p, l with
  | [], _ => Some l
  | a :: p', b :: l' => if Ascii.eqb a b then strip_prefix p' l' else None
  | _ :: _, [] => None
  end.

Fixpoint includes_chars (p l : list ascii) : bool :=
  match strip_prefix p l with
  | Some _ => true
  | None => match l with
            | [] => false
            | _ :: t => includes_chars p t
            end
  end.

(** [s.includes(p)]. *)
Definition includes (s p : string) : bool := includes_chars (chars p) (chars s).

Fixpoint index_of_char (c : ascii) (l : list ascii) : option nat :=
  match l with
  | [] => None
  | a :: t => if Ascii.eqb a c then Some 0
              else option_map S (index_of_char c t)
  end.

(** [s.indexOf(c)] for a one-character needle; [None] is [-1]. *)
Definition indexOf (s : string) (c : ascii) : option nat :=
  index_of_char c (chars s).

(** [s.slice(0, n)]. *)
Definition slice0 (s : string) (n : nat) : string :=
  of_chars (firstn n (chars s)).

Fixpoint split_chars (sep : ascii) (cur : list ascii) (l : list ascii)
  : list (list ascii) :=
  match l with
  | [] => [rev cur]
  | c :: t => if Ascii.eqb c sep then rev cur :: split_chars sep [] t
              else split_chars sep (c :: cur) t
  end.

(** [s.split(sep)] for a one-character separator. *)
Definition split (s : string) (sep : ascii) : list string :=
  map of_chars (split_chars sep [] (chars s)).

(** [parts.join(sep)]. *)
Fixpoint join (sep : string) (parts : list string) : string :=
  match parts with
  | [] => EmptyString
  | [p] => p
  | p :: rest => (p ++ sep ++ join sep rest)%string
  end.

(** [s.replace(p, r)] for a string pattern: the first occurrence only. *)
Fixpoint replace_first_chars (p r l : list ascii) : list ascii :=
  match strip_prefix p l with
  | Some rest => r ++ rest
  | None => match l with
            | [] => []
            | c :: t => c :: replace_first_chars p r t
            end
  end.

Definition replace_first (s p r : string) : string :=
  of_chars (replace_first_chars (chars p) (chars r) (chars s)).

(** A string is truthy when it is not empty. *)
Definition truthy (s : string) : bool :=
  match s with EmptyString => false | String _ _ => true end.

Definition truthy_opt (o : option string) : bool :=
  match o with Some s => truthy s | None => false end.

(** Decimal rendering of a number inside a template string. *)
Definition of_nat (n : nat) : string := NilEmpty.string_of_uint (Nat.to_uint n).

(** Rendering of [string | undefined] inside a template string. *)
Definition show_opt (o : option string) : string :=
  match o with Some s => s | None => "undefined" end.

Definition q : string := String dquote EmptyString.
Definition sq : string := String squote EmptyString.

(** The text whose lines are [ls]. *)
Definition unlines (ls : list string) : string :=
  join (String newline EmptyString) ls.

End Str.

(* ================================================================= *)
(** ** Regular expressions

    The subset of JavaScript regular expressions the sources use: character
    classes, sequence, alternation, greedy and lazy repetition, capture
    groups, the anchors [^] and [$] with or without the [m] flag, and positive
    lookahead.  The matcher backtracks in the order of the JavaScript one:
    the left alternative first, a greedy repetition longest first, a lazy one
    shortest first.  No group of the sources sits under a repetition, so
    captures are never reset. *)

Module Regex.

Inductive re : Type :=
| Eps
| Cls (p : ascii -> bool)
| Seq (r1 r2 : re)
| Alt (r1 r2 : re)
| Star (greedy : bool) (r : re)
| Grp (n : nat) (r : re)
| Bol (multiline : bool)
| Eol (multiline : bool)
| Ahead (r : re).

(** A position in the subject: the characters before it (nearest first),
    the characters after it, and the groups captured so far. *)
Record mstate : Type := MState {
  pre : list ascii;
  rest : list ascii;
  caps : list (nat * list ascii)
}.

Definition start (l : list ascii) : mstate := MState [] l [].

Definition or_else {A} (a : option A) (b : unit -> option A) : option A :=
  match a with Some x => Some x | None => b tt end.

Definition at_bol (multiline : bool) (s : mstate) : bool :=
  match pre s with
  | [] => true
  | c :: _ => multiline && Str.is_line_end c
  end.

Definition at_eol (multiline : bool) (s : mstate) : bool :=
  match rest s with
  | [] => true
  | c :: _ => multiline && Str.is_line_end c
  end.

(** The text between two positions of one subject, [s] before [s']. *)
Definition between (s s' : mstate) : list ascii :=
  rev (firstn (List.length (pre s') - List.length (pre s)) (pre s')).

Fixpoint run (r : re) (k : mstate -> option mstate) (s : mstate) {struct r}
  : option mstate :=
  match r with
  | Eps => k s
  | Cls p =>
      match rest s with
      | c :: t => if p c then k (MState (c :: pre s) t (caps s)) else None
      | [] => None
      end
  | Seq r1 r2 => run r1 (run r2 k) s
  | Alt r1 r2 => or_else (run r1 k s) (fun _ => run r2 k s)
  | Star greedy r1 =>
      (fix loop (fuel : nat) (s0 : mstate) {struct fuel} : option mstate :=
         match fuel with
         | 0 => k s0
         | S fuel' =>
             let again (_ : unit) :=
               run r1 (fun s1 =>
                         if List.length (rest s1) <? List.length (rest s0)
                         then loop fuel' s1 else None) s0 in
             if greedy then or_else (again tt) (fun _ => k s0)
             else or_else (k s0) again
         end) (List.length (rest s)) s
  | Grp n r1 =>
      run r1 (fun s' => k (MState (pre s') (rest s')
                                  ((n, between s s') :: caps s'))) s
  | Bol m => if at_bol m s then k s else None
  | Eol m => if at_eol m s then k s else None
  | Ahead r1 =>
      match run r1 Some s with
      | Some _ => k s
      | None => None
      end
  end.

(** Derived forms. *)
Definition chr (c : ascii) : re := Cls (Ascii.eqb c).
Definition lit (w : string) : re :=
  fold_right (fun c r => Seq (chr c) r) Eps (Str.chars w).
Definition any_of (set : string) : re := Cls (Str.one_of set).
Definition none_of (set : string) : re := Cls (fun c => negb (Str.one_of set c)).
Definition plus (r : re) : re := Seq r (Star true r).
Definition star (r : re) : re := Star true r.
Definition lazy_star (r : re) : re := Star false r.
Definition opt (r : re) : re := Alt r Eps.
Definition space : re := Cls Str.is_space.
Definition nonspace : re := Cls (fun c => negb (Str.is_space c)).
Definition digit : re := Cls Str.is_digit.
Definition dot : re := Cls (fun c => negb (Str.is_line_end c)).
Fixpoint seqs (l : list re) : re :=
  match l with
  | [] => Eps
  | [r] => r
  | r :: l' => Seq r (seqs l')
  end.

(** The result of a successful match: where it starts, what it spans
    and the groups. *)
Record found : Type := Found {
  index : nat;
  whole : string;
  groups : list (nat * list ascii);
  after : list ascii
}.

Definition group (n : nat) (f : found) : option string :=
  match find (fun p => fst p =? n) (groups f) with
  | Some (_, l) => Some (Str.of_chars l)
  | None => None
  end.

(** A group that takes part in every match of its expression ([m[n]!]). *)
Definition group_ (n : nat) (f : found) : string :=
  match group n f with Some s => s | None => EmptyString end.

Definition match_here (r : re) (s : mstate) : option found :=
  match run r Some s with
  | Some s' => Some (Found (List.length (pre s)) (Str.of_chars (between s s'))
                           (caps s') (rest s'))
  | None => None
  end.

Fixpoint search (r : re) (before after : list ascii) : option found :=
  match match_here r (MState before after []) with
  | Some f => Some f
  | None => match after with
            | [] => None
            | c :: t => search r (c :: before) t
            end
  end.

(** [r.exec(s)] and [s.match(r)] without the [g] flag. *)
Definition exec (r : re) (s : string) : option found :=
  search r [] (Str.chars s).

(** [r.test(s)]. *)
Definition test (r : re) (s : string) : bool :=
  match exec r s with Some _ => true | None => false end.

(** [s.split(r)] for an expression without groups, after
    [RegExp.prototype[Symbol.split]]: [piece] holds the characters since the
    last cut (nearest first), [s] is the position tried next. *)
Fixpoint split_go (fuel : nat) (r : re) (piece : list ascii) (s : mstate)
  : list string :=
  match fuel with
  | 0 => [Str.of_chars (rev piece ++ rest s)]
  | S fuel' =>
      match rest s with
      | [] => [Str.of_chars (rev piece)]
      | c :: t =>
          let step := split_go fuel' r (c :: piece)
                               (MState (c :: pre s) t []) in
          match run r Some s with
          | None => step
          | Some s' =>
              match piece, List.length (rest s') =? List.length (rest s) with
              | [], true => step
              | _, _ => Str.of_chars (rev piece)
                        :: split_go fuel' r [] (MState (pre s') (rest s') [])
              end
          end
      end
  end.

Definition split (s : string) (r : re) : list string :=
  match s with
  | EmptyString =>
      match run r Some (start []) with
      | Some _ => []
      | None => [EmptyString]
      end
  | _ => split_go (2 * String.length s + 2) r [] (start (Str.chars s))
  end.

(** [s.replace(r, '')] for an expression without the [g] flag. *)
Definition remove_first (r : re) (s : string) : string :=
  match exec r s with
  | Some f => Str.of_chars (firstn (index f) (Str.chars s) ++ after f)
  | None => s
  end.

End Regex.


(* ================================================================= *)
(** ** JavaScript maps

    [Map<string, V>]: lookup by key, and iteration in the order in which the
    keys were first inserted; [set] on a key already present replaces the
    value and keeps the key's place. *)

Module JsMap.

Section Ops.
Variable V : Type.

Definition t : Type := list (string * V).

Definition empty : t := [].

Fixpoint get (m : t) (k : string) : option V :=
  match m with
  | [] => None
  | (k', v) :: m' => if String.eqb k' k then Some v else get m' k
  end.

Definition has (m : t) (k : string) : bool :=
  match get m k with Some _ => true | None => false end.

Fixpoint set (m : t) (k : string) (v : V) : t :=
  match m with
  | [] => [(k, v)]
  | (k', v') :: m' =>
      if String.eqb k' k then (k', v) :: m' else (k', v') :: set m' k v
  end.

Definition size (m : t) : nat := List.length m.

(** The keys of a map are pairwise different. *)
Definition uniqueKeys (m : t) : Prop := NoDup (map fst m).

(** A key that may be [undefined] is no key of a map of strings. *)
Definition has_opt (m : t) (k : option string) : bool :=
  match k with Some k' => has m k' | None => false end.

End Ops.

Arguments empty {V}.

End JsMap.

(* ================================================================= *)
(** ** The data model (types.ts)

    Fields of different interfaces that share a name carry the interface as
    a prefix. *)

Inductive Severity : Type := critical | high | medium | low | info.

Inductive PackageManager : Type := npm | yarn | pnpm.

Record PackageDependency : Type := {
  dep_name : string;
  dep_version : string;
  dep_scope : option string;
  dep_isScoped : bool;
  dep_isDev : bool;
  dep_resolvedUrl : option string;
  dep_integrity : option string;
  dep_hasInstallScripts : bool
}.

Record RegistryConfig : Type := {
  defaultRegistry : option string;
  scopeRegistries : JsMap.t string;
  hasConfig : bool
}.

Record PackageJsonData : Type := {
  pkg_name : option string;
  pkg_version : option string;
  isPrivate : bool;
  dependencies : list (string * string);
  devDependencies : list (string * string);
  hasPreinstall : bool;
  hasPostinstall : bool;
  hasInstall : bool
}.

Record LockfileEntry : Type := {
  entry_name : string;
  entry_version : string;
  resolved : option string;
  entry_integrity : option string;
  entry_hasInstallScripts : option bool
}.

Record LockfileData : Type := {
  lock_type : PackageManager;
  packages : JsMap.t LockfileEntry
}.

Record ProjectContext : Type := {
  rootDir : string;
  packageJson : PackageJsonData;
  ctx_dependencies : list PackageDependency;
  registryConfig : RegistryConfig;
  lockfile : option LockfileData
}.

Record Finding : Type := {
  ruleId : string;
  severity : Severity;
  title : string;
  description : string;
  packageName : option string;
  recommendation : string;
  evidence : option string
}.

Record ScanSummary : Type := {
  total : nat;
  sum_critical : nat;
  sum_high : nat;
  sum_medium : nat;
  sum_low : nat;
  sum_info : nat
}.

Record ScanContext : Type := {
  packagesScanned : nat;
  scopedPackages : nat;
  registriesConfigured : nat;
  lockfileDetected : bool
}.

Record ScanResult : Type := {
  findings : list Finding;
  summary : ScanSummary;
  context : ScanContext
}.

Definition Severity_eqb (a b : Severity) : bool :=
  match a, b with
  | critical, critical | high, high | medium, medium
  | low, low | info, info => true
  | _, _ => false
  end.

(* ================================================================= *)
(** ** Parsed JSON

    What [JSON.parse] returns.  An object carries its members in the order of
    [Object.entries], each key once. *)

#[local] Unset Elimination Schemes.

Inductive json : Type :=
| JNull
| JBool (b : bool)
| JNum (text : string)
| JStr (s : string)
| JArr (items : list json)
| JObj (members : list (string * json)).

#[local] Set Elimination Schemes.

Module Js.

(** [v[k]] for a key that no prototype defines; on [null] it throws, which
    the callers check before. *)
Definition prop (v : json) (k : string) : option json :=
  match v with
  | JObj members =>
      match find (fun kv => String.eqb (fst kv) k) members with
      | Some (_, x) => Some x
      | None => None
      end
  | _ => None
  end.

(** [x ?? {}]. *)
Definition or_empty_object (x : option json) : json :=
  match x with
  | None | Some JNull => JObj []
  | Some v => v
  end.

Fixpoint indexed {A} (i : nat) (l : list A) : list (string * A) :=
  match l with
  | [] => []
  | a :: l' => (Str.of_nat i, a) :: indexed (S i) l'
  end.

(** [Object.entries(v)]. *)
Definition entries (v : json) : list (string * json) :=
  match v with
  | JObj members => members
  | JArr items => indexed 0 items
  | JStr s => indexed 0 (map (fun c => JStr (String c EmptyString)) (Str.chars s))
  | _ => []
  end.

(** [typeof x === 'string' ? x : undefined]. *)
Definition as_string (x : option json) : option string :=
  match x with Some (JStr s) => Some s | _ => None end.

(** [x === true]. *)
Definition is_true (x : option json) : bool :=
  match x with Some (JBool true) => true | _ => false end.

End Js.

(* ================================================================= *)
(** ** LockfileParser (parser/lockfile-parser.ts) *)

Import Regex.

(** *** package-lock.json *)

(** [/^node_modules\//] *)
Definition re_node_modules : re := Seq (Bol false) (lit "node_modules/").

(** The entry built from one member of [packages] or [dependencies];
    [None] when reading a property of [null] throws. *)
Definition npmEntry (name : string) (value : json) : option LockfileEntry :=
  match value with
  | JNull => None
  | _ =>
      Some {| entry_name := name;
              entry_version :=
                match Js.as_string (Js.prop value "version") with
                | Some v => v
                | None => EmptyString
                end;
              resolved := Js.as_string (Js.prop value "resolved");
              entry_integrity := Js.as_string (Js.prop value "integrity");
              entry_hasInstallScripts :=
                if Js.is_true (Js.prop value "hasInstallScripts")
                then Some true else None |}
  end.

(** One turn of the loop over [Object.entries(pkgs)]. *)
Definition npmPackagesStep (acc : option (JsMap.t LockfileEntry))
           (kv : string * json) : option (JsMap.t LockfileEntry) :=
  match acc with
  | None => None
  | Some pk =>
      let (key, value) := kv in
      if negb (Str.truthy key) then Some pk
      else
        let name := Regex.remove_first re_node_modules key in
        match npmEntry name value with
        | Some e => Some (JsMap.set pk name e)
        | None => None
        end
  end.

(** One turn of the loop over [Object.entries(deps)]. *)
Definition npmDependenciesStep (acc : option (JsMap.t LockfileEntry))
           (kv : string * json) : option (JsMap.t LockfileEntry) :=
  match acc with
  | None => None
  | Some pk =>
      let (name, value) := kv in
      match npmEntry name value with
      | Some e => Some (JsMap.set pk name e)
      | None => None
      end
  end.

(** [parseNpmLockfile], from the value [raw] that [JSON.parse(content)]
    returned.  [None]: a [TypeError] is thrown. *)
Definition parseNpmLockfile (raw : json) : option LockfileData :=
  match raw with
  | JNull => None
  | _ =>
      let pkgs := Js.or_empty_object (Js.prop raw "packages") in
      match fold_left npmPackagesStep (Js.entries pkgs) (Some JsMap.empty) with
      | None => None
      | Some pk =>
          if JsMap.size pk =? 0 then
            let deps := Js.or_empty_object (Js.prop raw "dependencies") in
            match fold_left npmDependenciesStep (Js.entries deps) (Some pk) with
            | None => None
            | Some pk' => Some {| lock_type := npm; packages := pk' |}
            end
          else Some {| lock_type := npm; packages := pk |}
      end
  end.

(** *** yarn.lock *)

(** [/\n(?=\S)/] *)
Definition re_yarn_block : re := Seq (chr Str.newline) (Ahead nonspace).

(** [/^\x22?(@?[^@\x22]+)@/] *)
Definition re_yarn_header : re :=
  seqs [Bol false; opt (chr Str.dquote);
        Grp 1 (Seq (opt (chr "@")) (plus (none_of ("@" ++ Str.q))));
        chr "@"].

(** [/^version\s+\x22([^\x22]+)\x22/] and [/^resolved\s+\x22([^\x22]+)\x22/] *)
Definition re_yarn_quoted (key : string) : re :=
  seqs [Bol false; lit key; plus space; chr Str.dquote;
        Grp 1 (plus (none_of Str.q)); chr Str.dquote].

(** [/^integrity\s+(\S+)/] *)
Definition re_yarn_integrity : re :=
  seqs [Bol false; lit "integrity"; plus space; Grp 1 (plus nonspace)].

Record YarnFields : Type := {
  y_version : string;
  y_resolved : option string;
  y_integrity : option string
}.

(** One indented line of a block. *)
Definition yarnLine (f : YarnFields) (line : string) : YarnFields :=
  let trimmed := Str.trim line in
  let f1 := match exec (re_yarn_quoted "version") trimmed with
            | Some m => {| y_version := group_ 1 m;
                           y_resolved := y_resolved f;
                           y_integrity := y_integrity f |}
            | None => f
            end in
  let f2 := match exec (re_yarn_quoted "resolved") trimmed with
            | Some m => {| y_version := y_version f1;
                           y_resolved := Some (group_ 1 m);
                           y_integrity := y_integrity f1 |}
            | None => f1
            end in
  match exec re_yarn_integrity trimmed with
  | Some m => {| y_version := y_version f2;
                 y_resolved := y_resolved f2;
                 y_integrity := Some (group_ 1 m) |}
  | None => f2
  end.

(** The name a block is stored under: [None] when the block is skipped. *)
Definition yarnBlockName (block : string) : option string :=
  let lines := Str.split block Str.newline in
  let header := Str.trim (hd EmptyString lines) in
  if negb (Str.truthy header) || Str.startsWith header "#" then None
  else match exec re_yarn_header header with
       | Some m => Some (group_ 1 m)
       | None => None
       end.

(** The entry a block is stored as. *)
Definition yarnBlockEntry (name block : string) : LockfileEntry :=
  let lines := Str.split block Str.newline in
  let f := fold_left yarnLine (tl lines)
                     {| y_version := EmptyString;
                        y_resolved := None; y_integrity := None |} in
  {| entry_name := name;
     entry_version := y_version f;
     resolved := y_resolved f;
     entry_integrity := y_integrity f;
     entry_hasInstallScripts := None |}.

(** One turn of the loop over the blocks. *)
Definition yarnBlock (pk : JsMap.t LockfileEntry) (block : string)
  : JsMap.t LockfileEntry :=
  match yarnBlockName block with
  | Some name => JsMap.set pk name (yarnBlockEntry name block)
  | None => pk
  end.

Definition yarnBlocks (content : string) : list string :=
  Regex.split content re_yarn_block.

Definition parseYarnLockfile (content : string) : LockfileData :=
  {| lock_type := yarn;
     packages := fold_left yarnBlock (yarnBlocks content) JsMap.empty |}.

(** *** pnpm-lock.yaml *)

(** [/^packages:/] *)
Definition re_pnpm_packages : re := Seq (Bol false) (lit "packages:").

(** [/^\S/] *)
Definition re_unindented : re := Seq (Bol false) nonspace.

(** [([\d][^:']* )'?:], the version and the end of a key. *)
Definition re_pnpm_version : re :=
  seqs [Grp 2 (Seq digit (star (none_of (":" ++ Str.sq))));
        opt (chr Str.squote); chr ":"].

(** [/^'?\/?(@[^/]+\/[^/]+)\/([\d][^:']* )'?:/] *)
Definition re_v5Scoped : re :=
  seqs [Bol false; opt (chr Str.squote); opt (chr "/");
        Grp 1 (seqs [chr "@"; plus (none_of "/"); chr "/"; plus (none_of "/")]);
        chr "/"; re_pnpm_version].

(** [/^'?\/([^@/][^/]* )\/([\d][^:']* )'?:/] *)
Definition re_v5Unscoped : re :=
  seqs [Bol false; opt (chr Str.squote); chr "/";
        Grp 1 (Seq (none_of "@/") (star (none_of "/")));
        chr "/"; re_pnpm_version].

(** [/^'?\/?(@[^@]+|[^@/'\s][^@]*?)@([\d][^:']* )'?:/] *)
Definition re_v6 : re :=
  seqs [Bol false; opt (chr Str.squote); opt (chr "/");
        Grp 1 (Alt (Seq (chr "@") (plus (none_of "@")))
                   (Seq (Cls (fun c => negb (Str.one_of ("@/" ++ Str.sq) c
                                             || Str.is_space c)))
                        (lazy_star (none_of "@"))));
        chr "@"; re_pnpm_version].

(** [/integrity:\s*['\x22]?(sha[^}'\x22\s]+)['\x22]?/] *)
Definition re_pnpm_integrity : re :=
  seqs [lit "integrity:"; star space; opt (any_of (Str.sq ++ Str.q));
        Grp 1 (Seq (lit "sha")
                   (plus (Cls (fun c => negb (Str.one_of ("}" ++ Str.sq ++ Str.q) c
                                              || Str.is_space c)))));
        opt (any_of (Str.sq ++ Str.q))].

(** The variables of the loop of [parsePnpmLockfile]. *)
Record PnpmState : Type := {
  inPackagesSection : bool;
  currentName : option string;
  currentVersion : option string;
  currentIntegrity : option string;
  pnpm_packages : JsMap.t LockfileEntry
}.

Definition pnpmInit : PnpmState :=
  {| inPackagesSection := false;
     currentName := None; currentVersion := None; currentIntegrity := None;
     pnpm_packages := JsMap.empty |}.

(** [if (currentName && currentVersion && !packages.has(currentName))
    packages.set(currentName, ...)]: the table after the pending entry
    was flushed. *)
Definition pnpmFlush (st : PnpmState) : JsMap.t LockfileEntry :=
  match currentName st, currentVersion st with
  | Some n, Some v =>
      if Str.truthy n && Str.truthy v && negb (JsMap.has (pnpm_packages st) n)
      then JsMap.set (pnpm_packages st) n
                     {| entry_name := n;
                        entry_version := v;
                        resolved := None;
                        entry_integrity := currentIntegrity st;
                        entry_hasInstallScripts := None |}
      else pnpm_packages st
  | _, _ => pnpm_packages st
  end.

(** [v5Scoped ?? v5Unscoped ?? v6Match] *)
Definition pnpmKey (trimmed : string) : option found :=
  or_else (exec re_v5Scoped trimmed)
          (fun _ => or_else (exec re_v5Unscoped trimmed)
                            (fun _ => exec re_v6 trimmed)).

(** The part of the loop body below [if (!inPackagesSection) continue]. *)
Definition pnpmInSection (st : PnpmState) (trimmed : string) : PnpmState :=
  match pnpmKey trimmed with
  | Some m =>
      {| inPackagesSection := inPackagesSection st;
         currentName := Some (group_ 1 m);
         currentVersion := Some (group_ 2 m);
         currentIntegrity := None;
         pnpm_packages := pnpmFlush st |}
  | None =>
      if Str.truthy_opt (currentName st) then
        match exec re_pnpm_integrity trimmed with
        | Some m =>
            {| inPackagesSection := inPackagesSection st;
               currentName := currentName st;
               currentVersion := currentVersion st;
               currentIntegrity := Some (group_ 1 m);
               pnpm_packages := pnpm_packages st |}
        | None => st
        end
      else st
  end.

(** The body of the loop over the lines. *)
Definition pnpmLine (st : PnpmState) (line : string) : PnpmState :=
  let trimmed := Str.trim line in
  if test re_pnpm_packages trimmed then
    {| inPackagesSection := true;
       currentName := currentName st;
       currentVersion := currentVersion st;
       currentIntegrity := currentIntegrity st;
       pnpm_packages := pnpm_packages st |}
  else if inPackagesSection st && test re_unindented line
          && (0 <? String.length trimmed)
          && (negb (Str.startsWith trimmed "/")
              && negb (Str.startsWith trimmed "@")
              && negb (Str.startsWith trimmed Str.sq)) then
    {| inPackagesSection := false;
       currentName := None; currentVersion := None; currentIntegrity := None;
       pnpm_packages := pnpmFlush st |}
  else if negb (inPackagesSection st) then st
  else pnpmInSection st trimmed.

Definition parsePnpmLockfile (content : string) : LockfileData :=
  let st := fold_left pnpmLine (Str.split content Str.newline) pnpmInit in
  {| lock_type := pnpm; packages := pnpmFlush st |}.

(* ================================================================= *)
(** ** RegistryConfigParser (parser/registry-config-parser.ts) *)

(** [/^registry\s*=\s*(.+)/] *)
Definition re_npmrc_registry : re :=
  seqs [Bol false; lit "registry"; star space; chr "="; star space;
        Grp 1 (plus dot)].

(** [/^(@[^:]+):registry\s*=\s*(.+)/] *)
Definition re_npmrc_scope : re :=
  seqs [Bol false; Grp 1 (Seq (chr "@") (plus (none_of ":")));
        lit ":registry"; star space; chr "="; star space;
        Grp 2 (plus dot)].

(** The body of the loop of [parseNpmrcContent] over the lines; the state is
    [defaultRegistry] and [scopeRegistries]. *)
Definition npmrcLine (st : option string * JsMap.t string) (line : string)
  : option string * JsMap.t string :=
  let trimmed := Str.trim line in
  if negb (Str.truthy trimmed) || Str.startsWith trimmed "#"
     || Str.startsWith trimmed ";" then st
  else
    match exec re_npmrc_registry trimmed with
    | Some m => (Some (Str.trim (group_ 1 m)), snd st)
    | None =>
        match exec re_npmrc_scope trimmed with
        | Some m => (fst st, JsMap.set (snd st) (group_ 1 m) (Str.trim (group_ 2 m)))
        | None => st
        end
    end.

Definition parseNpmrcContent (content : string) : RegistryConfig :=
  let st := fold_left npmrcLine (Str.split content Str.newline)
                      (None, JsMap.empty) in
  {| defaultRegistry := fst st; scopeRegistries := snd st; hasConfig := true |}.

(** [[^\x22\n]+] *)
Definition re_yarnrc_value : re :=
  plus (none_of (Str.q ++ String Str.newline EmptyString)).

(** [/npmRegistryServer:\s*\x22?([^\x22\n]+)\x22?/m] *)
Definition re_yarnrc_server : re :=
  seqs [lit "npmRegistryServer:"; star space; opt (chr Str.dquote);
        Grp 1 re_yarnrc_value; opt (chr Str.dquote)].

(** [/^npmScopes:\s*$/m] *)
Definition re_yarnrc_scopes : re :=
  seqs [Bol true; lit "npmScopes:"; star space; Eol true].

(** [/^\s{2}[\x22']?(@[^\x22'\s:]+)[\x22']?\s*:/] *)
Definition re_yarnrc_scope : re :=
  seqs [Bol false; space; space; opt (any_of (Str.q ++ Str.sq));
        Grp 1 (Seq (chr "@")
                   (plus (Cls (fun c => negb (Str.one_of (Str.q ++ Str.sq ++ ":") c
                                              || Str.is_space c)))));
        opt (any_of (Str.q ++ Str.sq)); star space; chr ":"].

(** [/^\s{4,}npmRegistryServer:\s*\x22?([^\x22\n]+)\x22?/] *)
Definition re_yarnrc_scoped_server : re :=
  seqs [Bol false; space; space; space; space; star space;
        lit "npmRegistryServer:"; star space; opt (chr Str.dquote);
        Grp 1 re_yarnrc_value; opt (chr Str.dquote)].

(** The loop of [parseYarnrcContent] over the lines that follow
    [npmScopes:]; it ends at the first line that is not indented. *)
Fixpoint yarnrcScopes (lines : list string) (currentScope : option string)
         (m : JsMap.t string) : JsMap.t string :=
  match lines with
  | [] => m
  | line :: lines' =>
      if test re_unindented line && Str.truthy (Str.trim line) then m
      else
        match exec re_yarnrc_scope line with
        | Some f => yarnrcScopes lines' (Some (group_ 1 f)) m
        | None =>
            match currentScope with
            | Some sc =>
                if Str.truthy sc then
                  match exec re_yarnrc_scoped_server line with
                  | Some f =>
                      yarnrcScopes lines' currentScope
                                   (JsMap.set m sc (Str.trim (group_ 1 f)))
                  | None => yarnrcScopes lines' currentScope m
                  end
                else yarnrcScopes lines' currentScope m
            | None => yarnrcScopes lines' currentScope m
            end
        end
  end.

Definition parseYarnrcContent (content : string) : RegistryConfig :=
  {| defaultRegistry :=
       match exec re_yarnrc_server content with
       | Some m => Some (Str.trim (group_ 1 m))
       | None => None
       end;
     scopeRegistries :=
       match exec re_yarnrc_scopes content with
       | Some m =>
           yarnrcScopes (Str.split (Str.of_chars (after m)) Str.newline)
                        None JsMap.empty
       | None => JsMap.empty
       end;
     hasConfig := true |}.

(** The file system of the scan, read only: the content of the file at a
    path, [None] when [existsSync] is false. *)
Definition FileSystem : Type := string -> option string.

(** [resolve(rootDir, file)] for the absolute, normalised [rootDir] that
    [buildConfig] produces and a bare file name. *)
Definition resolve (rootDir file : string) : string :=
  if String.eqb rootDir "/" then (rootDir ++ file)%string
  else (rootDir ++ "/" ++ file)%string.

Definition noConfig : RegistryConfig :=
  {| defaultRegistry := None; scopeRegistries := JsMap.empty; hasConfig := false |}.

Definition parseNpmrc (fs : FileSystem) (rootDir : string) : RegistryConfig :=
  match fs (resolve rootDir ".npmrc") with
  | None => noConfig
  | Some content => parseNpmrcContent content
  end.

Definition parseYarnrc (fs : FileSystem) (rootDir : string) : RegistryConfig :=
  match fs (resolve rootDir ".yarnrc.yml") with
  | None => noConfig
  | Some content => parseYarnrcContent content
  end.

(** [for (const [scope, registry] of from) into.set(scope, registry)] *)
Definition setAll (into from : JsMap.t string) : JsMap.t string :=
  fold_left (fun m kv => JsMap.set m (fst kv) (snd kv)) from into.

Definition parseRegistryConfig (fs : FileSystem) (rootDir : string)
  : RegistryConfig :=
  let npmrcConfig := parseNpmrc fs rootDir in
  let yarnrcConfig := parseYarnrc fs rootDir in
  let scopeRegistries :=
    setAll (setAll JsMap.empty (scopeRegistries yarnrcConfig))
           (scopeRegistries npmrcConfig) in
  {| defaultRegistry :=
       match defaultRegistry npmrcConfig with
       | Some r => Some r
       | None => defaultRegistry yarnrcConfig
       end;
     scopeRegistries := scopeRegistries;
     hasConfig := hasConfig npmrcConfig || hasConfig yarnrcConfig |}.

(* ================================================================= *)
(** ** ProjectContext builder (index.ts) *)

(** [name.split('/')[0]] *)
Definition scopeOfName (name : string) : string :=
  hd EmptyString (Str.split name "/").

(** The body of [addDeps]. *)
Definition addDep (lockfile : option LockfileData) (isDev : bool)
           (nv : string * string) : PackageDependency :=
  let (name, version) := nv in
  let isScoped := Str.startsWith name "@" in
  let lockEntry := match lockfile with
                   | Some lf => JsMap.get (packages lf) name
                   | None => None
                   end in
  {| dep_name := name;
     dep_version := version;
     dep_scope := if isScoped then Some (scopeOfName name) else None;
     dep_isScoped := isScoped;
     dep_isDev := isDev;
     dep_resolvedUrl := match lockEntry with Some e => resolved e | None => None end;
     dep_integrity := match lockEntry with
                      | Some e => entry_integrity e
                      | None => None
                      end;
     dep_hasInstallScripts :=
       match lockEntry with
       | Some e => match entry_hasInstallScripts e with
                   | Some b => b
                   | None => false
                   end
       | None => false
       end |}.

Definition buildDependencies (packageJson : PackageJsonData)
           (lockfile : option LockfileData) : list PackageDependency :=
  map (addDep lockfile false) (dependencies packageJson)
  ++ map (addDep lockfile true) (devDependencies packageJson).

(* ================================================================= *)
(** ** RuleEngine (analyzer/rules.ts) *)

Record Rule : Type := {
  rule_id : string;
  rule_severity : Severity;
  rule_title : string;
  run : ProjectContext -> list Finding
}.

Definition isPublicRegistry (url : option string) : bool :=
  match url with
  | None => true
  | Some u =>
      if negb (Str.truthy u) then true
      else Str.includes u "registry.npmjs.org"
           || Str.includes u "registry.yarnpkg.com"
  end.

(** [/^\d+\.\d+\.\d+/] *)
Definition re_exact_version : re :=
  seqs [Bol false; plus digit; chr "."; plus digit; chr "."; plus digit].

Definition isVersionPinned (version : string) : bool :=
  test re_exact_version version
  && negb (Str.startsWith version "^") && negb (Str.startsWith version "~")
  && negb (Str.includes version ">=") && negb (Str.includes version "<=")
  && negb (Str.includes version ">") && negb (Str.includes version "<")
  && negb (String.eqb version "*") && negb (Str.includes version "||").

Definition getScopedDependencies (context : ProjectContext)
  : list PackageDependency :=
  filter dep_isScoped (ctx_dependencies context).

(** [context.lockfile.packages.get(name)] *)
Definition lockEntryOf (lf : LockfileData) (name : string) : option LockfileEntry :=
  JsMap.get (packages lf) name.

(** *** DC-001 *)

Definition noRegistryConfig_run (id : string) (sev : Severity) (ttl : string)
           (context : ProjectContext) : list Finding :=
  let scoped := getScopedDependencies context in
  if negb (hasConfig (registryConfig context)) && (0 <? List.length scoped) then
    [ {| ruleId := id; severity := sev; title := ttl;
         description :=
           "No .npmrc or .yarnrc.yml found, but project uses "
           ++ Str.of_nat (List.length scoped)
           ++ " scoped package(s). All packages resolve from the public npm registry by default.";
         packageName := None;
         recommendation :=
           "Create an .npmrc file with scope-specific registry mappings for your private scopes.";
         evidence :=
           Some ("Scoped packages: " ++ Str.join ", " (map dep_name scoped)) |} ]%string
  else [].

Definition noRegistryConfig : Rule :=
  let id := "DC-001" in
  let sev := high in
  let ttl := "No registry configuration found" in
  {| rule_id := id; rule_severity := sev; rule_title := ttl;
     run := noRegistryConfig_run id sev ttl |}.

(** *** DC-002 *)

(** [defaultRegistry && !isPublicRegistry(defaultRegistry)] *)
Definition defaultIsPrivate (rc : RegistryConfig) : bool :=
  Str.truthy_opt (defaultRegistry rc) && negb (isPublicRegistry (defaultRegistry rc)).

Definition scopeWithoutRegistry_finding (id : string) (sev : Severity)
           (ttl : string) (dep : PackageDependency) : Finding :=
  let scope := Str.show_opt (dep_scope dep) in
  {| ruleId := id; severity := sev; title := ttl;
     description :=
       "Package " ++ Str.q ++ dep_name dep ++ Str.q ++ " uses scope " ++ Str.q
       ++ scope ++ Str.q
       ++ " but no registry mapping exists for this scope. It will be fetched from the public npm registry.";
     packageName := Some (dep_name dep);
     recommendation :=
       "Add '" ++ scope
       ++ ":registry=https://your-private-registry.example.com/' to .npmrc";
     evidence := Some ("Scope: " ++ scope ++ ", Version: " ++ dep_version dep) |}%string.

(** The body of the loop over the scoped dependencies. *)
Definition scopeWithoutRegistry_dep (id : string) (sev : Severity) (ttl : string)
           (rc : RegistryConfig) (dep : PackageDependency) : list Finding :=
  let hasMapping := JsMap.has_opt (scopeRegistries rc) (dep_scope dep) in
  if negb hasMapping && negb (defaultIsPrivate rc)
  then [scopeWithoutRegistry_finding id sev ttl dep]
  else [].

Definition scopeWithoutRegistry_run (id : string) (sev : Severity) (ttl : string)
           (context : ProjectContext) : list Finding :=
  if negb (hasConfig (registryConfig context)) then []
  else flat_map (scopeWithoutRegistry_dep id sev ttl (registryConfig context))
                (getScopedDependencies context).

Definition scopeWithoutRegistry : Rule :=
  let id := "DC-002" in
  let sev := critical in
  let ttl := "Scoped package without registry mapping" in
  {| rule_id := id; rule_severity := sev; rule_title := ttl;
     run := scopeWithoutRegistry_run id sev ttl |}.

(** *** DC-003 *)

Definition lockfilePublicResolution_finding (id : string) (sev : Severity)
           (ttl : string) (dep : PackageDependency) (url : string) : Finding :=
  {| ruleId := id; severity := sev; title := ttl;
     description :=
       "Package " ++ Str.q ++ dep_name dep ++ Str.q
       ++ " has a private registry configured for scope " ++ Str.q
       ++ Str.show_opt (dep_scope dep) ++ Str.q
       ++ ", but the lockfile shows it resolved from the public npm registry.";
     packageName := Some (dep_name dep);
     recommendation :=
       "Delete the lockfile and node_modules, then run a fresh install to resolve from the correct registry.";
     evidence := Some ("Resolved URL: " ++ url) |}%string.

(** The body of the loop over the scoped dependencies. *)
Definition lockfilePublicResolution_dep (id : string) (sev : Severity)
           (ttl : string) (rc : RegistryConfig) (lf : LockfileData)
           (dep : PackageDependency) : list Finding :=
  let hasScopeRegistry := JsMap.has_opt (scopeRegistries rc) (dep_scope dep) in
  if negb hasScopeRegistry then []
  else
    match lockEntryOf lf (dep_name dep) with
    | Some lockEntry =>
        match resolved lockEntry with
        | Some url =>
            if Str.truthy url && isPublicRegistry (Some url)
            then [lockfilePublicResolution_finding id sev ttl dep url]
            else []
        | None => []
        end
    | None => []
    end.

Definition lockfilePublicResolution_run (id : string) (sev : Severity)
           (ttl : string) (context : ProjectContext) : list Finding :=
  match lockfile context with
  | None => []
  | Some lf =>
      flat_map (lockfilePublicResolution_dep id sev ttl (registryConfig context) lf)
               (getScopedDependencies context)
  end.

Definition lockfilePublicResolution : Rule :=
  let id := "DC-003" in
  let sev := critical in
  let ttl := "Scoped package resolved from public registry" in
  {| rule_id := id; rule_severity := sev; rule_title := ttl;
     run := lockfilePublicResolution_run id sev ttl |}.

(** *** DC-004 *)

Definition missingLockfile_run (id : string) (sev : Severity) (ttl : string)
           (context : ProjectContext) : list Finding :=
  match lockfile context with
  | Some _ => []
  | None =>
      [ {| ruleId := id; severity := sev; title := ttl;
           description :=
             "No package-lock.json, yarn.lock, or pnpm-lock.yaml found. Package resolution is non-deterministic.";
           packageName := None;
           recommendation :=
             "Run npm install (or yarn/pnpm install) and commit the lockfile to version control.";
           evidence := None |} ]
  end.

Definition missingLockfile : Rule :=
  let id := "DC-004" in
  let sev := high in
  let ttl := "No lockfile found" in
  {| rule_id := id; rule_severity := sev; rule_title := ttl;
     run := missingLockfile_run id sev ttl |}.

(** *** DC-005 *)

Definition noIntegrityHash_dep (id : string) (sev : Severity) (ttl : string)
           (lf : LockfileData) (dep : PackageDependency) : list Finding :=
  match lockEntryOf lf (dep_name dep) with
  | Some lockEntry =>
      if negb (Str.truthy_opt (entry_integrity lockEntry)) then
        [ {| ruleId := id; severity := sev; title := ttl;
             description :=
               "Package " ++ Str.q ++ dep_name dep ++ Str.q
               ++ " has no integrity hash in the lockfile. Package contents cannot be verified.";
             packageName := Some (dep_name dep);
             recommendation :=
               "Regenerate the lockfile with a recent version of npm/yarn/pnpm that includes integrity hashes.";
             evidence := None |} ]%string
      else []
  | None => []
  end.

Definition noIntegrityHash_run (id : string) (sev : Severity) (ttl : string)
           (context : ProjectContext) : list Finding :=
  match lockfile context with
  | None => []
  | Some lf => flat_map (noIntegrityHash_dep id sev ttl lf) (ctx_dependencies context)
  end.

Definition noIntegrityHash : Rule :=
  let id := "DC-005" in
  let sev := medium in
  let ttl := "Missing integrity hash in lockfile" in
  {| rule_id := id; rule_severity := sev; rule_title := ttl;
     run := noIntegrityHash_run id sev ttl |}.

(** *** DC-006 *)

(** [[a && 'preinstall', b && 'install', c && 'postinstall'].filter(Boolean)] *)
Definition installScriptNames (pj : PackageJsonData) : list string :=
  (if hasPreinstall pj then ["preinstall"] else [])
  ++ (if hasInstall pj then ["install"] else [])
  ++ (if hasPostinstall pj then ["postinstall"] else []).

Definition installScriptsRisk_project (id : string) (sev : Severity)
           (ttl : string) (pj : PackageJsonData) : list Finding :=
  if hasPreinstall pj || hasPostinstall pj || hasInstall pj then
    [ {| ruleId := id; severity := sev; title := ttl;
         description :=
           "This project's package.json contains install lifecycle scripts that execute during npm install.";
         packageName := pkg_name pj;
         recommendation :=
           "Review install scripts for unexpected behavior. Consider using --ignore-scripts for CI.";
         evidence := Some (Str.join ", " (installScriptNames pj)) |} ]
  else [].

Definition installScriptsRisk_dep (id : string) (dep : PackageDependency)
  : list Finding :=
  if dep_hasInstallScripts dep && dep_isScoped dep then
    [ {| ruleId := id; severity := high;
         title := "Scoped dependency has install scripts";
         description :=
           "Scoped package " ++ Str.q ++ dep_name dep ++ Str.q
           ++ " has install lifecycle scripts that execute during npm install. Combined with dependency confusion, this is a code execution vector.";
         packageName := Some (dep_name dep);
         recommendation :=
           "Verify " ++ Str.q ++ dep_name dep ++ Str.q
           ++ " is from your private registry. Consider using --ignore-scripts or npm audit signatures.";
         evidence := Some "hasInstallScripts: true in lockfile" |} ]%string
  else [].

Definition installScriptsRisk_run (id : string) (sev : Severity) (ttl : string)
           (context : ProjectContext) : list Finding :=
  installScriptsRisk_project id sev ttl (packageJson context)
  ++ flat_map (installScriptsRisk_dep id) (ctx_dependencies context).

Definition installScriptsRisk : Rule :=
  let id := "DC-006" in
  let sev := medium in
  let ttl := "Install scripts detected" in
  {| rule_id := id; rule_severity := sev; rule_title := ttl;
     run := installScriptsRisk_run id sev ttl |}.

(** *** DC-007 *)

(** [/^[\^~]/] *)
Definition re_range_prefix : re := Seq (Bol false) (any_of "^~").

Definition unpinnedScopedVersion_dep (id : string) (sev : Severity)
           (ttl : string) (dep : PackageDependency) : list Finding :=
  if negb (isVersionPinned (dep_version dep)) then
    [ {| ruleId := id; severity := sev; title := ttl;
         description :=
           "Scoped package " ++ Str.q ++ dep_name dep ++ Str.q
           ++ " uses version range " ++ Str.q ++ dep_version dep ++ Str.q
           ++ ". A higher version from the public registry could be pulled.";
         packageName := Some (dep_name dep);
         recommendation :=
           "Pin to an exact version: " ++ Str.q ++ dep_name dep ++ Str.q ++ ": "
           ++ Str.q ++ Regex.remove_first re_range_prefix (dep_version dep) ++ Str.q;
         evidence := Some ("Version: " ++ dep_version dep) |} ]%string
  else [].

Definition unpinnedScopedVersion_run (id : string) (sev : Severity)
           (ttl : string) (context : ProjectContext) : list Finding :=
  flat_map (unpinnedScopedVersion_dep id sev ttl) (getScopedDependencies context).

Definition unpinnedScopedVersion : Rule :=
  let id := "DC-007" in
  let sev := medium in
  let ttl := "Unpinned version on scoped package" in
  {| rule_id := id; rule_severity := sev; rule_title := ttl;
     run := unpinnedScopedVersion_run id sev ttl |}.

(** *** DC-009 and DC-010

    [extractRegistryHost] is [new URL(url).hostname], [None] when the
    constructor throws; the URL parser of the platform is a parameter. *)

Section Rules.

Variable extractRegistryHost : string -> option string.

(** A [Set<string>] in insertion order. *)
Definition setAdd (set : list string) (x : string) : list string :=
  if existsb (String.eqb x) set then set else set ++ [x].

(** The pair of [scopeRegistryMap] and [scopePackages], which always have
    the same keys: per scope, the hosts seen and the packages seen. *)
Definition ScopeGroups : Type := JsMap.t (list string * list string).

(** The body of the first loop of DC-009. *)
Definition mixedScopeRegistries_dep (lf : LockfileData) (groups : ScopeGroups)
           (dep : PackageDependency) : ScopeGroups :=
  match dep_scope dep with
  | Some scope =>
      if negb (dep_isScoped dep) || negb (Str.truthy scope) then groups
      else
        match lockEntryOf lf (dep_name dep) with
        | Some lockEntry =>
            match resolved lockEntry with
            | Some url =>
                if negb (Str.truthy url) then groups
                else
                  match extractRegistryHost url with
                  | Some registryHost =>
                      if negb (Str.truthy registryHost) then groups
                      else
                        let (hosts, names) :=
                          match JsMap.get groups scope with
                          | Some g => g
                          | None => ([], [])
                          end in
                        JsMap.set groups scope
                                  (setAdd hosts registryHost,
                                   names ++ [dep_name dep])
                  | None => groups
                  end
            | None => groups
            end
        | None => groups
        end
  | None => groups
  end.

(** The body of the second loop of DC-009. *)
Definition mixedScopeRegistries_scope (id : string) (sev : Severity)
           (ttl : string) (g : string * (list string * list string))
  : list Finding :=
  let '(scope, (registries, names)) := g in
  if 1 <? List.length registries then
    [ {| ruleId := id; severity := sev; title := ttl;
         description :=
           "Packages in scope " ++ Str.q ++ scope ++ Str.q ++ " resolve from "
           ++ Str.of_nat (List.length registries)
           ++ " different registries. This could indicate a partial compromise.";
         packageName := None;
         recommendation :=
           "Ensure all packages in scope " ++ Str.q ++ scope ++ Str.q
           ++ " resolve from the same private registry.";
         evidence :=
           Some ("Registries: " ++ Str.join ", " registries
                 ++ "; Packages: " ++ Str.join ", " names) |} ]%string
  else [].

Definition mixedScopeRegistries_run (id : string) (sev : Severity)
           (ttl : string) (context : ProjectContext) : list Finding :=
  match lockfile context with
  | None => []
  | Some lf =>
      flat_map (mixedScopeRegistries_scope id sev ttl)
               (fold_left (mixedScopeRegistries_dep lf)
                          (ctx_dependencies context) JsMap.empty)
  end.

Definition mixedScopeRegistries : Rule :=
  let id := "DC-009" in
  let sev := high in
  let ttl := "Mixed registries for same scope" in
  {| rule_id := id; rule_severity := sev; rule_title := ttl;
     run := mixedScopeRegistries_run id sev ttl |}.

Definition privateRegistryConfigured_default (id : string) (sev : Severity)
           (ttl : string) (rc : RegistryConfig) : list Finding :=
  if defaultIsPrivate rc then
    let url := Str.show_opt (defaultRegistry rc) in
    [ {| ruleId := id; severity := sev; title := ttl;
         description :=
           "Default registry is set to a private registry: " ++ url;
         packageName := None;
         recommendation :=
           "This is a good practice. Ensure scope-specific mappings are also configured for completeness.";
         evidence := Some ("Registry: " ++ url) |} ]%string
  else [].

Definition privateRegistryConfigured_scope (id : string) (sev : Severity)
           (sr : string * string) : list Finding :=
  let (scope, registry) := sr in
  if negb (isPublicRegistry (Some registry)) then
    [ {| ruleId := id; severity := sev;
         title := "Private registry configured for " ++ scope;
         description :=
           "Scope " ++ Str.q ++ scope ++ Str.q
           ++ " is mapped to private registry: " ++ registry;
         packageName := None;
         recommendation :=
           "Good configuration. Verify it matches your organization's private registry.";
         evidence := Some ("Scope: " ++ scope ++ ", Registry: " ++ registry) |} ]%string
  else [].

Definition privateRegistryConfigured_run (id : string) (sev : Severity)
           (ttl : string) (context : ProjectContext) : list Finding :=
  privateRegistryConfigured_default id sev ttl (registryConfig context)
  ++ flat_map (privateRegistryConfigured_scope id sev)
              (scopeRegistries (registryConfig context)).

Definition privateRegistryConfigured : Rule :=
  let id := "DC-010" in
  let sev := info in
  let ttl := "Private registry configured" in
  {| rule_id := id; rule_severity := sev; rule_title := ttl;
     run := privateRegistryConfigured_run id sev ttl |}.

Definition ALL_RULES : list Rule :=
  [ noRegistryConfig; scopeWithoutRegistry; lockfilePublicResolution;
    missingLockfile; noIntegrityHash; installScriptsRisk;
    unpinnedScopedVersion; mixedScopeRegistries; privateRegistryConfigured ].

End Rules.

(* ================================================================= *)
(** ** OnlineRegistryChecker (analyzer/registry-checker.ts) *)

Definition NPM_REGISTRY : string := "https://registry.npmjs.org".

Inductive RegistryCheckResult : Type := pkg_exists | pkg_not_found | pkg_error.

(** How a [fetch] ends: with a response and its status, or rejected (network
    failure, or the abort of the 5 second timeout). *)
Inductive FetchOutcome : Type :=
| Response (status : nat)
| Rejected.

(** The network, as the scan sees it: the outcome of its [n]-th request,
    sent to [url]. *)
Definition Network : Type := nat -> string -> FetchOutcome.

Definition hex_digit (n : nat) : ascii :=
  ascii_of_nat (if n <? 10 then 48 + n else 55 + n).

Definition uri_unreserved (c : ascii) : bool :=
  let n := nat_of_ascii c in
  ((65 <=? n) && (n <=? 90)) || ((97 <=? n) && (n <=? 122))
  || Str.is_digit c || Str.one_of ("-_.!~*()" ++ Str.sq) c.

(** [encodeURIComponent], on the UTF-8 bytes of the string. *)
Definition encodeURIComponent (s : string) : string :=
  Str.of_chars
    (flat_map (fun c => if uri_unreserved c then [c]
                        else let n := nat_of_ascii c in
                             ["%"%char; hex_digit (n / 16); hex_digit (n mod 16)])
              (Str.chars s)).

(** The URL of the probe for a package. *)
Definition probeUrl (packageName : string) : string :=
  let encodedName := Str.replace_first (encodeURIComponent packageName) "%40" "@" in
  (NPM_REGISTRY ++ "/" ++ encodedName)%string.

Definition classifyOutcome (o : FetchOutcome) : RegistryCheckResult :=
  match o with
  | Response status =>
      if status =? 200 then pkg_exists
      else if status =? 404 then pkg_not_found
      else pkg_error
  | Rejected => pkg_error
  end.

(** [packageExistsOnPublicNpm]; [sent] lists the URLs requested so far, and
    the request is added to it. *)
Definition packageExistsOnPublicNpm (net : Network) (packageName : string)
           (sent : list string) : RegistryCheckResult * list string :=
  let url := probeUrl packageName in
  (classifyOutcome (net (List.length sent) url), sent ++ [url]).

(** [Promise.allSettled(batch.map(...))]: the requests of a batch start in
    the order of the batch, and the results come back in that order.  No
    promise of the batch rejects, since [packageExistsOnPublicNpm] catches
    every error. *)
Definition probeBatch (net : Network) (batch : list PackageDependency)
           (sent : list string)
  : list (PackageDependency * RegistryCheckResult) * list string :=
  fold_left (fun acc dep =>
               let (checkResult, sent') :=
                 packageExistsOnPublicNpm net (dep_name dep) (snd acc) in
               (fst acc ++ [(dep, checkResult)], sent'))
            batch ([], sent).

(** The findings pushed for one settled result. *)
Definition onlineFinding (r : PackageDependency * RegistryCheckResult)
  : list Finding :=
  let (dep, checkResult) := r in
  match checkResult with
  | pkg_exists =>
      [ {| ruleId := "DC-008"; severity := high;
           title := "Scoped package exists on public npm";
           description :=
             "Package " ++ Str.q ++ dep_name dep ++ Str.q
             ++ " exists on the public npm registry. This is a direct dependency confusion attack vector if you expect this to be a private package.";
           packageName := Some (dep_name dep);
           recommendation :=
             "Verify that the public " ++ Str.q ++ dep_name dep ++ Str.q
             ++ " package is the intended one, not a malicious squatter. Configure scope-specific registry in .npmrc.";
           evidence :=
             Some ("Public npm URL: " ++ NPM_REGISTRY ++ "/" ++ dep_name dep) |} ]%string
  | pkg_error =>
      [ {| ruleId := "DC-008"; severity := low;
           title := "Unable to check public registry";
           description :=
             "Could not verify whether " ++ Str.q ++ dep_name dep ++ Str.q
             ++ " exists on the public npm registry. Network error or timeout occurred.";
           packageName := Some (dep_name dep);
           recommendation :=
             "Re-run with network access to complete the dependency confusion check.";
           evidence := Some "Network check failed" |} ]%string
  | pkg_not_found => []
  end.

(** The loop [for (let i = 0; i < scoped.length; i += concurrency)].  Every
    turn with [concurrency >= 1] moves [i] forward, so [scoped.length] turns
    are enough ([checkBatches_fuel]); with [concurrency = 0] the loop of the
    source does not end. *)
Fixpoint checkBatches (net : Network) (fuel : nat)
         (scoped : list PackageDependency) (concurrency i : nat)
         (found : list Finding) (sent : list string)
  : list Finding * list string :=
  match fuel with
  | 0 => (found, sent)
  | S fuel' =>
      if i <? List.length scoped then
        let batch := firstn concurrency (skipn i scoped) in
        let (results, sent') := probeBatch net batch sent in
        checkBatches net fuel' scoped concurrency (i + concurrency)
                     (found ++ flat_map onlineFinding results) sent'
      else (found, sent)
  end.

(** [checkPublicRegistry]: the findings, and the URLs requested, in order. *)
Definition checkPublicRegistry (net : Network)
           (deps : list PackageDependency) (concurrency : nat)
  : list Finding * list string :=
  let scoped := filter dep_isScoped deps in
  checkBatches net (List.length scoped) scoped concurrency 0 [] [].

(* ================================================================= *)
(** ** ResultAssembler (analyzer/analyzer.ts) *)

Definition SEVERITY_ORDER (s : Severity) : nat :=
  match s with
  | critical => 0
  | high => 1
  | medium => 2
  | low => 3
  | info => 4
  end.

Record AnalyzeOptions : Type := {
  offline : bool;
  severityThreshold : Severity;
  scopes : option (list string);
  ignorePackages : option (list string)
}.

Definition extractScope (packageName : string) : option string :=
  if Str.startsWith packageName "@" then
    match Str.indexOf packageName "/" with
    | Some slashIndex =>
        if 0 <? slashIndex then Some (Str.slice0 packageName slashIndex) else None
    | None => None
    end
  else None.

(** [new Set(list).has(x)] *)
Definition setHas (list : list string) (x : string) : bool :=
  existsb (String.eqb x) list.

(** The predicate of the scope filter. *)
Definition scopeKeeps (scopeSet : list string) (f : Finding) : bool :=
  if negb (Str.truthy_opt (packageName f)) then true
  else
    match extractScope (Str.show_opt (packageName f)) with
    | Some scope => if Str.truthy scope then setHas scopeSet scope else true
    | None => true
    end.

(** The predicate of the ignore filter. *)
Definition ignoreKeeps (ignoredSet : list string) (f : Finding) : bool :=
  negb (Str.truthy_opt (packageName f))
  || negb (setHas ignoredSet (Str.show_opt (packageName f))).

Definition filterByScope (scopes : option (list string)) (l : list Finding)
  : list Finding :=
  match scopes with
  | Some sc => if 0 <? List.length sc then filter (scopeKeeps sc) l else l
  | None => l
  end.

Definition filterByIgnored (ignorePackages : option (list string))
           (l : list Finding) : list Finding :=
  match ignorePackages with
  | Some ig => if 0 <? List.length ig then filter (ignoreKeeps ig) l else l
  | None => l
  end.

Definition filterBySeverity (threshold : Severity) (l : list Finding)
  : list Finding :=
  let thresholdOrder := SEVERITY_ORDER threshold in
  filter (fun f => SEVERITY_ORDER (severity f) <=? thresholdOrder) l.

(** [(a, b) => SEVERITY_ORDER[a.severity] - SEVERITY_ORDER[b.severity]] *)
Definition bySeverity (a b : Finding) : Z :=
  (Z.of_nat (SEVERITY_ORDER (severity a)) - Z.of_nat (SEVERITY_ORDER (severity b)))%Z.

(** [Array.prototype.sort] is a stable sort by the comparator.  For a
    comparator that is a total preorder, as [bySeverity] is, the result of a
    stable sort is determined by its input; it is computed here by
    insertion, each element going before the first one that must follow it. *)
Section Sort.
Variable A : Type.
Variable compareFn : A -> A -> Z.

Fixpoint insertSorted (x : A) (l : list A) : list A :=
  match l with
  | [] => [x]
  | y :: l' => if (compareFn x y <=? 0)%Z then x :: l
               else y :: insertSorted x l'
  end.

Fixpoint sort (l : list A) : list A :=
  match l with
  | [] => []
  | x :: l' => insertSorted x (sort l')
  end.
End Sort.

Definition countSeverity (s : Severity) (l : list Finding) : nat :=
  List.length (filter (fun f => Severity_eqb (severity f) s) l).

Definition buildSummary (l : list Finding) : ScanSummary :=
  {| total := List.length l;
     sum_critical := countSeverity critical l;
     sum_high := countSeverity high l;
     sum_medium := countSeverity medium l;
     sum_low := countSeverity low l;
     sum_info := countSeverity info l |}.

Definition buildContext (context : ProjectContext) : ScanContext :=
  let scoped := filter dep_isScoped (ctx_dependencies context) in
  {| packagesScanned := List.length (ctx_dependencies context);
     scopedPackages := List.length scoped;
     registriesConfigured :=
       JsMap.size (scopeRegistries (registryConfig context))
       + (if Str.truthy_opt (defaultRegistry (registryConfig context)) then 1 else 0);
     lockfileDetected :=
       match lockfile context with Some _ => true | None => false end |}.

Section Analyze.

Variable extractRegistryHost : string -> option string.
Variable net : Network.

(** The loop over [ALL_RULES]. *)
Definition ruleFindings (context : ProjectContext) : list Finding :=
  flat_map (fun rule => run rule context) (ALL_RULES extractRegistryHost).

(** The online check DC-008: the findings to add and the requests sent. *)
Definition onlineFindings (context : ProjectContext) (offline : bool)
  : list Finding * list string :=
  if negb offline then checkPublicRegistry net (ctx_dependencies context) 5
  else ([], []).

(** [analyze]: the scan result, and the URLs requested from the public
    registry on the way. *)
Definition analyze (context : ProjectContext) (options : AnalyzeOptions)
  : ScanResult * list string :=
  let (online, sent) := onlineFindings context (offline options) in
  let findings0 := ruleFindings context ++ online in
  let findings1 := filterByScope (scopes options) findings0 in
  let findings2 := filterByIgnored (ignorePackages options) findings1 in
  let findings3 := filterBySeverity (severityThreshold options) findings2 in
  let findings4 := sort bySeverity findings3 in
  ({| findings := findings4;
      summary := buildSummary findings4;
      context := buildContext context |}, sent).

End Analyze.

(* ================================================================= *)
(** ** Notions used by the properties *)

(** [a] is at least as severe as [b]. *)
Definition le_severity (a b : Finding) : Prop :=
  SEVERITY_ORDER (severity a) <= SEVERITY_ORDER (severity b).

Definition hasSeverity (s : Severity) (f : Finding) : bool :=
  Severity_eqb (severity f) s.

(** The last element of [l] that satisfies [p]. *)
Fixpoint lastWith {A} (p : A -> bool) (l : list A) : option A :=
  match l with
  | [] => None
  | a :: l' =>
      match lastWith p l' with
      | Some b => Some b
      | None => if p a then Some a else None
      end
  end.

(** The block [b] of a yarn.lock is stored under the name [n]. *)
Definition yarnNamed (n : string) (b : string) : bool :=
  match yarnBlockName b with
  | Some n' => String.eqb n' n
  | None => false
  end.

(** The members of [packages] that [parseNpmLockfile] stores, in order, each
    with the name it is stored under. *)
Definition npmPackagesVisited (raw : json) : list (string * json) :=
  map (fun kv => (Regex.remove_first re_node_modules (fst kv), snd kv))
      (filter (fun kv => Str.truthy (fst kv))
              (Js.entries (Js.or_empty_object (Js.prop raw "packages")))).

(** All that [parseNpmLockfile] stores: the members of [packages], or those
    of [dependencies] when [packages] gave nothing. *)
Definition npmVisited (raw : json) : list (string * json) :=
  match npmPackagesVisited raw with
  | [] => Js.entries (Js.or_empty_object (Js.prop raw "dependencies"))
  | visited => visited
  end.

(** First occurrence wins, said of yarn.lock: the table holds, for a name,
    the entry of the first block stored under that name. *)
Definition yarnFirstOccurrenceWins : Prop :=
  forall content before b later n,
    yarnBlocks content = before ++ b :: later ->
    Forall (fun b' => yarnNamed n b' = false) before ->
    yarnBlockName b = Some n ->
    JsMap.get (packages (parseYarnLockfile content)) n
    = Some (yarnBlockEntry n b).

(** *** The blocks of a pnpm-lock.yaml

    [parsePnpmLockfile] builds no list of blocks.  It holds the block it is
    reading in [currentName], [currentVersion] and [currentIntegrity], and
    hands it to the guarded [packages.set] at three places: where it finds
    the key of the next block, where it leaves the [packages:] section, and
    below the loop. *)

(** The entry a guarded [packages.set] is offered:
    [currentName && currentVersion], before [!packages.has(currentName)] is
    asked. *)
Definition pnpmPending (st : PnpmState) : option LockfileEntry :=
  match currentName st, currentVersion st with
  | Some n, Some v =>
      if Str.truthy n && Str.truthy v
      then Some {| entry_name := n;
                   entry_version := v;
                   resolved := None;
                   entry_integrity := currentIntegrity st;
                   entry_hasInstallScripts := None |}
      else None
  | _, _ => None
  end.

(** Whether the loop body, run on [line], comes to a guarded [packages.set]:
    not on a [packages:] line, always where the section is left, never
    outside the section, and inside it on the key of a block. *)
Definition pnpmFlushes (st : PnpmState) (line : string) : bool :=
  let trimmed := Str.trim line in
  if test re_pnpm_packages trimmed then false
  else if inPackagesSection st && test re_unindented line
          && (0 <? String.length trimmed)
          && (negb (Str.startsWith trimmed "/")
              && negb (Str.startsWith trimmed "@")
              && negb (Str.startsWith trimmed Str.sq)) then true
  else if negb (inPackagesSection st) then false
  else match pnpmKey trimmed with Some _ => true | None => false end.

(** The blocks offered to the table, in the order of the file, when the loop
    runs on [lines] from the state [st]; the last one is the block that is
    pending below the loop. *)
Fixpoint pnpmBlocksFrom (st : PnpmState) (lines : list string)
  : list LockfileEntry :=
  match lines with
  | [] => match pnpmPending st with Some e => [e] | None => [] end
  | line :: lines' =>
      match pnpmPending st with
      | Some e => if pnpmFlushes st line then [e] else []
      | None => []
      end ++ pnpmBlocksFrom (pnpmLine st line) lines'
  end.

Definition pnpmBlocks (content : string) : list LockfileEntry :=
  pnpmBlocksFrom pnpmInit (Str.split content Str.newline).

Definition pnpmNamed (n : string) (e : LockfileEntry) : bool :=
  String.eqb (entry_name e) n.

(** First occurrence wins, said of pnpm-lock.yaml: the table holds, for a
    name, the first block offered under that name. *)
Definition pnpmFirstOccurrenceWins : Prop :=
  forall content before b later n,
    pnpmBlocks content = before ++ b :: later ->
    Forall (fun b' => pnpmNamed n b' = false) before ->
    entry_name b = n ->
    JsMap.get (packages (parsePnpmLockfile content)) n = Some b.

(** What the probes of the scoped dependencies [scoped] settle to when the
    first of them is the [i]-th request of the scan: one result for each, the
    request going to the URL of its name. *)
Fixpoint settledResults (net : Network) (i : nat)
         (scoped : list PackageDependency)
  : list (PackageDependency * RegistryCheckResult) :=
  match scoped with
  | [] => []
  | dep :: scoped' =>
      (dep, classifyOutcome (net i (probeUrl (dep_name dep))))
        :: settledResults net (S i) scoped'
  end.

(** The findings of each severity in turn, most severe first, each group
    in the order of [l]: the one list that is sorted by severity and keeps
    the order of [l] among equals. *)
Definition bucketsBySeverity (l : list Finding) : list Finding :=
  filter (hasSeverity critical) l ++ filter (hasSeverity high) l
  ++ filter (hasSeverity medium) l ++ filter (hasSeverity low) l
  ++ filter (hasSeverity info) l.

(** A finding that does not carry the identifier of the online check. *)
Definition staticRule (f : Finding) : Prop := ruleId f <> "DC-008".

(** The stages of [analyze], named: the findings of the rules and of the
    online check together, what the scope and ignore filters keep of them,
    and what the threshold filter keeps of that (the list that is sorted). *)
Section Stages.
Variable extractRegistryHost : string -> option string.
Variable net : Network.

Definition collectedFindings (context : ProjectContext)
           (options : AnalyzeOptions) : list Finding :=
  ruleFindings extractRegistryHost context
  ++ fst (onlineFindings net context (offline options)).

Definition keptFindings (context : ProjectContext)
           (options : AnalyzeOptions) : list Finding :=
  filterByIgnored (ignorePackages options)
                  (filterByScope (scopes options)
                                 (collectedFindings context options)).

Definition unsortedFindings (context : ProjectContext)
           (options : AnalyzeOptions) : list Finding :=
  filterBySeverity (severityThreshold options) (keptFindings context options).
End Stages.

(* ================================================================= *)
(** ** Sample projects

    Inputs on which the properties below are evaluated. *)

(** The context that [scanForConfusion] builds for the project at [/repo],
    from its parsed manifest, its parsed lockfile and its config files. *)
Definition projectContext (fs : FileSystem) (lock : option LockfileData)
           (manifest : PackageJsonData) : ProjectContext :=
  {| rootDir := "/repo";
     packageJson := manifest;
     ctx_dependencies := buildDependencies manifest lock;
     registryConfig := parseRegistryConfig fs "/repo";
     lockfile := lock |}.

(** A manifest with the given [dependencies] and nothing else. *)
Definition manifestOf (deps : list (string * string)) : PackageJsonData :=
  {| pkg_name := Some "app"; pkg_version := Some "1.0.0"; isPrivate := true;
     dependencies := deps; devDependencies := [];
     hasPreinstall := false; hasPostinstall := false; hasInstall := false |}.

(** A project directory that holds the given [.npmrc] and [.yarnrc.yml]. *)
Definition configFiles (npmrc yarnrc : option string) : FileSystem :=
  fun path =>
    if String.eqb path "/repo/.npmrc" then npmrc
    else if String.eqb path "/repo/.yarnrc.yml" then yarnrc
    else None.

(** No URL parser is needed where no lockfile entry has a resolved URL. *)
Definition noHost : string -> option string := fun _ => None.

(** A scoped dependency declared as [=1.2.3], no lockfile, no config. *)
Definition ctx_eq_version : ProjectContext :=
  projectContext (configFiles None None) None
                 (manifestOf [("@acme/lib", "=1.2.3")]).

(** [@acme] is mapped, in [.npmrc], to the public registry, and the
    lockfile resolves [@acme/lib] from there. *)
Definition yarn_public_lock : string :=
  Str.unlines
    [ "# yarn lockfile v1";
      EmptyString;
      (Str.q ++ "@acme/lib@1.0.0" ++ Str.q ++ ":")%string;
      ("  version " ++ Str.q ++ "1.0.0" ++ Str.q)%string;
      ("  resolved " ++ Str.q
       ++ "https://registry.npmjs.org/@acme/lib/-/lib-1.0.0.tgz#0a1b"
       ++ Str.q)%string;
      "  integrity sha512-0a1b2c3d";
      EmptyString ].

Definition ctx_public_mapping : ProjectContext :=
  projectContext
    (configFiles (Some "@acme:registry=https://registry.npmjs.org/") None)
    (Some (parseYarnLockfile yarn_public_lock))
    (manifestOf [("@acme/lib", "1.0.0")]).

(** Config files for the three cases of DC-002. *)
Definition ctx_no_config : ProjectContext :=
  projectContext (configFiles None None) None
                 (manifestOf [("@acme/lib", "1.0.0"); ("lodash", "4.17.21")]).

Definition ctx_private_default : ProjectContext :=
  projectContext (configFiles (Some "registry=https://npm.acme.example/") None)
                 None
                 (manifestOf [("@acme/lib", "1.0.0"); ("lodash", "4.17.21")]).

Definition ctx_unmapped_scope : ProjectContext :=
  projectContext
    (configFiles (Some (Str.unlines ["registry=https://registry.npmjs.org/";
                                     "@corp:registry=https://npm.corp.example/"]))
                 None)
    None
    (manifestOf [("@acme/lib", "1.0.0"); ("@corp/ui", "2.0.0");
                 ("lodash", "4.17.21")]).

(** Both config files map [@acme], and both set a default. *)
Definition both_configs : FileSystem :=
  configFiles
    (Some (Str.unlines ["registry=https://npm.acme.example/";
                        "@acme:registry=https://npm.acme.example/acme/"]))
    (Some (Str.unlines
             [ ("npmRegistryServer: " ++ Str.q ++ "https://yarn.acme.example/"
                ++ Str.q)%string;
               "npmScopes:";
               ("  " ++ Str.q ++ "@acme" ++ Str.q ++ ":")%string;
               "    npmRegistryServer: https://yarn.acme.example/acme/";
               "  @tools:";
               "    npmRegistryServer: https://yarn.acme.example/tools/" ])).

(** A yarn.lock with two blocks for [@acme/lib], resolved from different
    registries. *)
Definition yarn_two_versions : string :=
  Str.unlines
    [ (Str.q ++ "@acme/lib@^1.0.0" ++ Str.q ++ ":")%string;
      ("  version " ++ Str.q ++ "1.4.0" ++ Str.q)%string;
      ("  resolved " ++ Str.q
       ++ "https://npm.acme.example/@acme/lib/-/lib-1.4.0.tgz" ++ Str.q)%string;
      EmptyString;
      (Str.q ++ "@acme/lib@^2.0.0" ++ Str.q ++ ":")%string;
      ("  version " ++ Str.q ++ "2.1.0" ++ Str.q)%string;
      ("  resolved " ++ Str.q
       ++ "https://registry.yarnpkg.com/@acme/lib/-/lib-2.1.0.tgz" ++ Str.q)%string;
      EmptyString ].

(** A pnpm-lock.yaml with two blocks for [@acme/lib]. *)
Definition pnpm_two_versions : string :=
  Str.unlines
    [ "lockfileVersion: '6.0'";
      EmptyString;
      "packages:";
      EmptyString;
      "  /@acme/lib@1.4.0:";
      "    resolution: {integrity: sha512-first}";
      EmptyString;
      "  /@acme/lib@2.1.0:";
      "    resolution: {integrity: sha512-second}";
      EmptyString;
      "  /lodash@4.17.21:";
      "    resolution: {integrity: sha512-third}";
      EmptyString ].

(** A pnpm-lock.yaml with the blocks [a], [b], [c] and a second [b]. *)
Definition pnpm_second_b : string :=
  Str.unlines
    [ "lockfileVersion: '6.0'";
      EmptyString;
      "packages:";
      EmptyString;
      "  /a@1.0.0:";
      "    resolution: {integrity: sha512-a}";
      EmptyString;
      "  /b@1.0.0:";
      "    resolution: {integrity: sha512-b1}";
      EmptyString;
      "  /c@1.0.0:";
      "    resolution: {integrity: sha512-c}";
      EmptyString;
      "  /b@2.0.0:";
      "    resolution: {integrity: sha512-b2}";
      EmptyString ].

(** A package-lock.json of a project whose workspace [lib] is linked into
    [node_modules]: the members [lib] and [node_modules/lib] are both stored
    under the name [lib]. *)
Definition npm_workspace_lock : json :=
  JObj [ ("lockfileVersion", JNum "3");
         ("packages",
          JObj [ (EmptyString, JObj [("name", JStr "app")]);
                 ("lib", JObj [("version", JStr "1.0.0")]);
                 ("node_modules/lib",
                  JObj [("resolved", JStr "lib"); ("link", JBool true)]) ]) ].

(** Four dependencies, three of them scoped, and a network that answers the
    three probes with 200, 404 and a failure. *)
Definition ctx_online : ProjectContext :=
  projectContext (configFiles None None) None
                 (manifestOf [("@acme/lib", "1.0.0"); ("lodash", "4.17.21");
                              ("@acme/ui", "2.0.0"); ("@corp/core", "3.0.0")]).

Definition net_mixed : Network :=
  fun n _ => match n with
             | 0 => Response 200
             | 1 => Response 404
             | _ => Rejected
             end.

Definition options_online : AnalyzeOptions :=
  {| offline := false; severityThreshold := info;
     scopes := None; ignorePackages := None |}.

Definition options_offline : AnalyzeOptions :=
  {| offline := true; severityThreshold := info;
     scopes := None; ignorePackages := None |}.

(** Two scoped dependencies with version ranges and one unscoped one, no
    lockfile, no config; a scan of the scope [@acme] that ignores
    [@acme/legacy]. *)
Definition ctx_filters : ProjectContext :=
  projectContext (configFiles None None) None
                 (manifestOf [("@acme/lib", "^1.0.0"); ("@corp/ui", "^2.0.0");
                              ("@acme/legacy", "~0.9.0"); ("lodash", "4.17.21")]).

Definition options_filters : AnalyzeOptions :=
  {| offline := true; severityThreshold := info;
     scopes := Some ["@acme"]; ignorePackages := Some ["@acme/legacy"] |}.

(* ================================================================= *)
(** ** Further notions used by the properties *)

(** A scope mapping whose registry is not a public one. *)
Definition privateMapping (sr : string * string) : bool :=
  negb (isPublicRegistry (Some (snd sr))).

(** A context whose lockfile is [lf] and whose dependencies are built from
    its manifest and [lf], as [scanForConfusion] builds them. *)
Definition builtFrom (context : ProjectContext) (lf : LockfileData) : Prop :=
  lockfile context = Some lf
  /\ ctx_dependencies context
     = buildDependencies (packageJson context) (Some lf).

(** The options of [analyze], field by field. *)
Definition optionsOf (off : bool) (threshold : Severity)
           (sc ig : option (list string)) : AnalyzeOptions :=
  {| offline := off; severityThreshold := threshold;
     scopes := sc; ignorePackages := ig |}.

(** The encoded package name at the end of a probe URL. *)
Definition encodedName (packageName : string) : string :=
  Str.replace_first (encodeURIComponent packageName) "%40" "@".

(** A pnpm-lock.yaml without a [packages:] line. *)
Definition pnpm_no_section : string :=
  Str.unlines
    [ "lockfileVersion: '6.0'";
      EmptyString;
      "importers:";
      "  /@acme/lib@1.4.0:";
      "    resolution: {integrity: sha512-first}";
      EmptyString ].

(* ================================================================= *)
(** ** ManifestParser (parser/package-json-parser.ts) *)

(** How a call ends: it returns, or it throws; [Untyped] stands for an input
    outside the types the source declares for it (a dependency whose version
    is no string), about which the embedding says nothing. *)
Inductive Outcome (A : Type) : Type :=
| Returns (a : A)
| Throws
| Untyped.

Arguments Throws {A}.
Arguments Untyped {A}.

(** [k in v]: [None] when [v] is a primitive and the operator throws. *)
Definition hasKey (k : string) (v : json) : option bool :=
  match v with
  | JObj members => Some (existsb (fun kv => String.eqb (fst kv) k) members)
  | JArr _ => Some false
  | _ => None
  end.

(** The entries of a [Record<string, string>]. *)
Fixpoint stringEntries (l : list (string * json)) : option (list (string * string)) :=
  match l with
  | [] => Some []
  | (k, JStr s) :: l' =>
      match stringEntries l' with
      | Some r => Some ((k, s) :: r)
      | None => None
      end
  | _ :: _ => None
  end.

(** The object that [parsePackageJson] and [parsePackageJsonContent] build
    from the parsed manifest [raw]. *)
Definition manifestData (raw : json) : Outcome PackageJsonData :=
  match raw with
  | JNull => Throws
  | _ =>
      let scripts := Js.or_empty_object (Js.prop raw "scripts") in
      match hasKey "preinstall" scripts, hasKey "postinstall" scripts,
            hasKey "install" scripts with
      | Some pre, Some post, Some inst =>
          match stringEntries
                  (Js.entries (Js.or_empty_object (Js.prop raw "dependencies"))),
                stringEntries
                  (Js.entries (Js.or_empty_object (Js.prop raw "devDependencies")))
          with
          | Some deps, Some devDeps =>
              Returns {| pkg_name := Js.as_string (Js.prop raw "name");
                         pkg_version := Js.as_string (Js.prop raw "version");
                         isPrivate := Js.is_true (Js.prop raw "private");
                         dependencies := deps;
                         devDependencies := devDeps;
                         hasPreinstall := pre;
                         hasPostinstall := post;
                         hasInstall := inst |}
          | _, _ => Untyped
          end
      | _, _, _ => Throws
      end
  end.

(** [JSON.parse], the parser of the platform: [None] when it throws. *)
Definition JsonParser : Type := string -> option json.

Definition parsePackageJsonContent (JSON_parse : JsonParser) (content : string)
  : Outcome PackageJsonData :=
  match JSON_parse content with
  | Some raw => manifestData raw
  | None => Throws
  end.

Definition parsePackageJson (JSON_parse : JsonParser) (fs : FileSystem)
           (rootDir : string) : Outcome PackageJsonData :=
  match fs (resolve rootDir "package.json") with
  | None => Throws
  | Some content => parsePackageJsonContent JSON_parse content
  end.

(** ** parseLockfile (parser/lockfile-parser.ts) *)

Definition parseLockfile (JSON_parse : JsonParser) (fs : FileSystem)
           (rootDir : string) : Outcome (option LockfileData) :=
  match fs (resolve rootDir "package-lock.json") with
  | Some content =>
      match JSON_parse content with
      | Some raw =>
          match parseNpmLockfile raw with
          | Some lf => Returns (Some lf)
          | None => Throws
          end
      | None => Throws
      end
  | None =>
      match fs (resolve rootDir "yarn.lock") with
      | Some content => Returns (Some (parseYarnLockfile content))
      | None =>
          match fs (resolve rootDir "pnpm-lock.yaml") with
          | Some content => Returns (Some (parsePnpmLockfile content))
          | None => Returns None
          end
      end
  end.

(* ================================================================= *)
(** ** Configuration (config.ts) *)

Inductive OutputFormat : Type := fmt_terminal | fmt_json | fmt_markdown.

Record ScanConfig : Type := {
  cfg_rootDir : string;
  cfg_offline : bool;
  cfg_severityThreshold : Severity;
  cfg_format : OutputFormat;
  cfg_scopes : option (list string);
  cfg_ignorePackages : option (list string)
}.

(** [Partial<ScanConfig>] *)
Record ScanOverrides : Type := {
  ov_rootDir : option string;
  ov_offline : option bool;
  ov_severityThreshold : option Severity;
  ov_format : option OutputFormat;
  ov_scopes : option (list string);
  ov_ignorePackages : option (list string)
}.

(** [x ?? d] *)
Definition orDefault {A} (x : option A) (d : A) : A :=
  match x with Some a => a | None => d end.

(** The process: its working directory, and [path.resolve] of one path. *)
Record Process : Type := {
  cwd : string;
  resolvePath : string -> string
}.

Definition buildConfig (proc : Process) (overrides : ScanOverrides) : ScanConfig :=
  {| cfg_rootDir := resolvePath proc (orDefault (ov_rootDir overrides) (cwd proc));
     cfg_offline := orDefault (ov_offline overrides) true;
     cfg_severityThreshold := orDefault (ov_severityThreshold overrides) info;
     cfg_format := orDefault (ov_format overrides) fmt_terminal;
     cfg_scopes := ov_scopes overrides;
     cfg_ignorePackages := ov_ignorePackages overrides |}.

(** [{ ...overrides, rootDir }] *)
Definition withRootDir (overrides : ScanOverrides) (rootDir : string)
  : ScanOverrides :=
  {| ov_rootDir := Some rootDir;
     ov_offline := ov_offline overrides;
     ov_severityThreshold := ov_severityThreshold overrides;
     ov_format := ov_format overrides;
     ov_scopes := ov_scopes overrides;
     ov_ignorePackages := ov_ignorePackages overrides |}.

(* ================================================================= *)
(** ** The scan of one project (index.ts) *)

Section Scan.

Variable JSON_parse : JsonParser.
Variable fs : FileSystem.
Variable extractRegistryHost : string -> option string.
Variable proc : Process.

(** The context of the project at [rootDir], once its manifest and lockfile
    are parsed. *)
Definition contextOf (rootDir : string) (pj : PackageJsonData)
           (lf : option LockfileData) : ProjectContext :=
  {| rootDir := rootDir;
     packageJson := pj;
     ctx_dependencies := buildDependencies pj lf;
     registryConfig := parseRegistryConfig fs rootDir;
     lockfile := lf |}.

(** [scanForConfusion]: the scan result and the URLs requested. *)
Definition scanForConfusion (net : Network) (overrides : ScanOverrides)
  : Outcome (ScanResult * list string) :=
  let config := buildConfig proc overrides in
  match parsePackageJson JSON_parse fs (cfg_rootDir config) with
  | Throws => Throws
  | packageJson =>
      match parseLockfile JSON_parse fs (cfg_rootDir config) with
      | Throws => Throws
      | Untyped => Untyped
      | Returns lockfile =>
          match packageJson with
          | Returns pj =>
              Returns (analyze extractRegistryHost net
                         (contextOf (cfg_rootDir config) pj lockfile)
                         {| offline := cfg_offline config;
                            severityThreshold := cfg_severityThreshold config;
                            scopes := cfg_scopes config;
                            ignorePackages := cfg_ignorePackages config |})
          | _ => Untyped
          end
      end
  end.

End Scan.

(* ================================================================= *)
(** ** Workspace detection (parser/workspace-parser.ts) *)

Record WorkspacePackage : Type := {
  wp_name : string;
  wp_path : string;
  wp_relativePath : string
}.

Record WorkspaceInfo : Type := {
  ws_type : PackageManager;
  ws_rootDir : string;
  ws_packages : list WorkspacePackage
}.

(** [JNum text] carries the number that [JSON.parse] returned, written in
    decimal: it is zero when its mantissa holds no digit from 1 to 9. *)
Fixpoint mantissaIsZero (l : list ascii) : bool :=
  match l with
  | [] => true
  | c :: l' =>
      if Str.one_of "eE" c then true
      else if Str.one_of "123456789" c then false
      else mantissaIsZero l'
  end.

(** The truthiness of a parsed JSON value. *)
Definition jsonTruthy (v : json) : bool :=
  match v with
  | JNull => false
  | JBool b => b
  | JNum text => negb (mantissaIsZero (Str.chars text))
  | JStr s => Str.truthy s
  | JArr _ | JObj _ => true
  end.

(** [items.filter(p => typeof p === 'string')] *)
Fixpoint stringItems (items : list json) : list string :=
  match items with
  | [] => []
  | JStr s :: items' => s :: stringItems items'
  | _ :: items' => stringItems items'
  end.

Definition extractWorkspacePatterns (workspaces : json) : list string :=
  match workspaces with
  | JArr items => stringItems items
  | JObj _ =>
      match Js.prop workspaces "packages" with
      | Some (JArr items) => stringItems items
      | _ => []
      end
  | _ => []
  end.

(** [/^-\s+['\x22]?([^'\x22]+)['\x22]?$/] *)
Definition re_workspace_item : re :=
  seqs [Bol false; chr "-"; plus space; opt (any_of (Str.sq ++ Str.q));
        Grp 1 (plus (none_of (Str.sq ++ Str.q)));
        opt (any_of (Str.sq ++ Str.q)); Eol false].

(** The loop of [parsePnpmWorkspaceYaml] over the lines; it ends at the
    first line after [packages:] that is not indented. *)
Fixpoint workspaceYamlLines (lines : list string) (inPackages : bool)
         (patterns : list string) : list string :=
  match lines with
  | [] => patterns
  | line :: lines' =>
      let trimmed := Str.trim line in
      if String.eqb trimmed "packages:" then
        workspaceYamlLines lines' true patterns
      else if inPackages then
        if test re_unindented line && negb (String.eqb trimmed EmptyString)
        then patterns
        else
          match exec re_workspace_item trimmed with
          | Some m => workspaceYamlLines lines' inPackages
                                         (patterns ++ [group_ 1 m])
          | None => workspaceYamlLines lines' inPackages patterns
          end
      else workspaceYamlLines lines' inPackages patterns
  end.

Definition parsePnpmWorkspaceYaml (content : string) : list string :=
  workspaceYamlLines (Str.split content Str.newline) false [].

(** [resolveWorkspacePatterns] walks the directories of the project; it is
    a parameter, from the root directory and the patterns to the packages
    found. *)
Definition PatternResolver : Type :=
  string -> list string -> list WorkspacePackage.

Definition detectWorkspace (JSON_parse : JsonParser) (fs : FileSystem)
           (resolveWorkspacePatterns : PatternResolver) (rootDir : string)
  : Outcome (option WorkspaceInfo) :=
  match fs (resolve rootDir "package.json") with
  | None => Returns None
  | Some manifest =>
      match JSON_parse manifest with
      | None | Some JNull => Throws
      | Some raw =>
          let fromManifest :=
            match Js.prop raw "workspaces" with
            | Some workspaces =>
                if jsonTruthy workspaces
                then extractWorkspacePatterns workspaces else []
            | None => []
            end in
          if 0 <? List.length fromManifest then
            Returns (Some {| ws_type :=
                               match fs (resolve rootDir "yarn.lock") with
                               | Some _ => yarn
                               | None => npm
                               end;
                             ws_rootDir := rootDir;
                             ws_packages :=
                               resolveWorkspacePatterns rootDir fromManifest |})
          else
            match fs (resolve rootDir "pnpm-workspace.yaml") with
            | Some content =>
                let patterns := parsePnpmWorkspaceYaml content in
                if 0 <? List.length patterns then
                  Returns (Some {| ws_type := pnpm;
                                   ws_rootDir := rootDir;
                                   ws_packages :=
                                     resolveWorkspacePatterns rootDir patterns |})
                else Returns None
            | None => Returns None
            end
      end
  end.

(* ================================================================= *)
(** ** The scan of a workspace (index.ts) *)

Record WorkspacePackageResult : Type := {
  wpr_packageName : string;
  wpr_packagePath : string;
  wpr_result : ScanResult
}.

Record WorkspaceScanResult : Type := {
  isWorkspace : bool;
  wsr_rootDir : string;
  packageResults : list WorkspacePackageResult;
  combinedSummary : ScanSummary
}.

Section ScanWorkspace.

Variable JSON_parse : JsonParser.
Variable fs : FileSystem.
Variable extractRegistryHost : string -> option string.
Variable proc : Process.
Variable resolveWorkspacePatterns : PatternResolver.

(** The network during each scan of the run: [nets k] during the [k]-th
    call of [scanForConfusion]. *)
Variable nets : nat -> Network.

(** One [try { ... } catch { }] around the scan of a package: the package
    results so far, with the result of this scan when it returns. *)
Definition scanPackage (overrides : ScanOverrides) (k : nat)
           (name path : string)
           (acc : Outcome (list WorkspacePackageResult))
  : Outcome (list WorkspacePackageResult) :=
  match acc with
  | Returns results =>
      match scanForConfusion JSON_parse fs extractRegistryHost proc (nets k)
                             (withRootDir overrides path) with
      | Returns r =>
          Returns (results ++ [ {| wpr_packageName := name;
                                   wpr_packagePath := path;
                                   wpr_result := fst r |} ])
      | Throws => Returns results
      | Untyped => Untyped
      end
  | other => other
  end.

(** The loop over [workspace.packages]; the [k]-th scan is that of the
    first package of the list. *)
Fixpoint scanPackages (overrides : ScanOverrides) (k : nat)
         (pkgs : list WorkspacePackage)
         (acc : Outcome (list WorkspacePackageResult))
  : Outcome (list WorkspacePackageResult) :=
  match pkgs with
  | [] => acc
  | pkg :: pkgs' =>
      scanPackages overrides (S k) pkgs'
                   (scanPackage overrides k (wp_name pkg) (wp_path pkg) acc)
  end.

Definition scanWorkspace (overrides : ScanOverrides)
  : Outcome WorkspaceScanResult :=
  let config := buildConfig proc overrides in
  match detectWorkspace JSON_parse fs resolveWorkspacePatterns
                        (cfg_rootDir config) with
  | Throws => Throws
  | Untyped => Untyped
  | Returns None =>
      match scanForConfusion JSON_parse fs extractRegistryHost proc (nets 0)
                             overrides with
      | Returns r =>
          Returns {| isWorkspace := false;
                     wsr_rootDir := cfg_rootDir config;
                     packageResults :=
                       [ {| wpr_packageName := "root";
                            wpr_packagePath := cfg_rootDir config;
                            wpr_result := fst r |} ];
                     combinedSummary := summary (fst r) |}
      | Throws => Throws
      | Untyped => Untyped
      end
  | Returns (Some workspace) =>
      let afterRoot :=
        scanPackage overrides 0 "root" (cfg_rootDir config) (Returns []) in
      match scanPackages overrides 1 (ws_packages workspace) afterRoot with
      | Returns results =>
          let allFindings := flat_map (fun pr => findings (wpr_result pr))
                                      results in
          Returns {| isWorkspace := true;
                     wsr_rootDir := cfg_rootDir config;
                     packageResults := results;
                     combinedSummary := buildSummary allFindings |}
      | Throws => Throws
      | Untyped => Untyped
      end
  end.

End ScanWorkspace.

(* ================================================================= *)
(** ** The exit code of the command line (cli.ts) *)

(** [if (summary.critical > 0) process.exit(3); if (summary.high > 0)
    process.exit(2); if (summary.medium > 0) process.exit(1);
    process.exit(0)] *)
Definition exitCode (s : ScanSummary) : nat :=
  if 0 <? sum_critical s then 3
  else if 0 <? sum_high s then 2
  else if 0 <? sum_medium s then 1
  else 0.

(* ================================================================= *)
(** ** Grouping for the terminal report (reporter/terminal-reporter.ts) *)

(** One turn of the loop of [groupBySeverity]: a [Map<Severity, Finding[]>]
    in insertion order. *)
Fixpoint groupAdd (groups : list (Severity * list Finding)) (f : Finding)
  : list (Severity * list Finding) :=
  match groups with
  | [] => [(severity f, [f])]
  | (s, fs) :: groups' =>
      if Severity_eqb s (severity f) then (s, fs ++ [f]) :: groups'
      else (s, fs) :: groupAdd groups' f
  end.

Definition groupBySeverity (l : list Finding) : list (Severity * list Finding) :=
  fold_left groupAdd l [].

(** [groups.get(s)] *)
Fixpoint groupGet (groups : list (Severity * list Finding)) (s : Severity)
  : option (list Finding) :=
  match groups with
  | [] => None
  | (s', fs) :: groups' => if Severity_eqb s' s then Some fs else groupGet groups' s
  end.

(* ================================================================= *)
(** ** Notions used by the properties of the scans *)

(** The sum of two summaries, count by count. *)
Definition addSummary (a b : ScanSummary) : ScanSummary :=
  {| total := total a + total b;
     sum_critical := sum_critical a + sum_critical b;
     sum_high := sum_high a + sum_high b;
     sum_medium := sum_medium a + sum_medium b;
     sum_low := sum_low a + sum_low b;
     sum_info := sum_info a + sum_info b |}.

Definition emptySummary : ScanSummary := buildSummary [].

(** [l1] is [l2] with some elements left out. *)
Inductive Subsequence {A : Type} : list A -> list A -> Prop :=
| Subsequence_nil : Subsequence [] []
| Subsequence_skip x l1 l2 : Subsequence l1 l2 -> Subsequence l1 (x :: l2)
| Subsequence_keep x l1 l2 : Subsequence l1 l2 -> Subsequence (x :: l1) (x :: l2).

(** The severities in the order in which the terminal report lists them. *)
Definition reportOrder : list Severity := [critical; high; medium; low; info].

(** A finding that the exit code ignores. *)
Definition minorFinding (f : Finding) : Prop :=
  severity f = low \/ severity f = info.

(* ================================================================= *)
(** ** Sample projects for the scans *)

(** A [JSON.parse] that knows the manifests of the samples by their text. *)
Definition sampleJson : JsonParser :=
  fun content =>
    if String.eqb content "manifest: app" then
      Some (JObj [ ("name", JStr "app"); ("version", JStr "1.0.0");
                   ("private", JBool true);
                   ("dependencies", JObj [("@acme/lib", JStr "^1.0.0")]) ])
    else if String.eqb content "manifest: workspace root" then
      Some (JObj [ ("name", JStr "mono");
                   ("workspaces", JArr [JStr "packages/*"]) ])
    else if String.eqb content "manifest: ui" then
      Some (JObj [ ("name", JStr "@acme/ui");
                   ("dependencies", JObj [("@acme/lib", JStr "1.0.0")]) ])
    else None.

(** A project with a manifest and a yarn.lock, and no config file. *)
Definition fs_app : FileSystem :=
  fun path =>
    if String.eqb path "/repo/package.json" then Some "manifest: app"
    else if String.eqb path "/repo/yarn.lock" then Some yarn_two_versions
    else None.

(** A workspace with two package directories, one of which has a manifest
    that does not parse. *)
Definition fs_workspace : FileSystem :=
  fun path =>
    if String.eqb path "/ws/package.json" then Some "manifest: workspace root"
    else if String.eqb path "/ws/packages/ui/package.json" then Some "manifest: ui"
    else if String.eqb path "/ws/packages/broken/package.json" then Some "{"
    else None.

Definition resolver_workspace : PatternResolver :=
  fun _ _ =>
    [ {| wp_name := "broken"; wp_path := "/ws/packages/broken";
         wp_relativePath := "packages/broken" |};
      {| wp_name := "@acme/ui"; wp_path := "/ws/packages/ui";
         wp_relativePath := "packages/ui" |} ].

Definition processAt (dir : string) : Process :=
  {| cwd := dir; resolvePath := fun p => p |}.

Definition noOverrides : ScanOverrides :=
  {| ov_rootDir := None; ov_offline := None; ov_severityThreshold := None;
     ov_format := None; ov_scopes := None; ov_ignorePackages := None |}.

Definition offlineNet : nat -> Network := fun _ _ _ => Rejected.

(** A project with a pnpm-lock.yaml whose scope [@acme] is mapped. *)
Definition ctx_pnpm : ProjectContext :=
  projectContext
    (configFiles (Some "@acme:registry=https://npm.acme.example/") None)
    (Some (parsePnpmLockfile pnpm_two_versions))
    (manifestOf [("@acme/lib", "1.4.0")]).

(** The name and the path under which a package result is reported. *)
Definition resultKey (pr : WorkspacePackageResult) : string * string :=
  (wpr_packageName pr, wpr_packagePath pr).

Definition packageKey (p : WorkspacePackage) : string * string :=
  (wp_name p, wp_path p).

(** The result of a scan carries the summary of its own findings. *)
Definition summarised (pr : WorkspacePackageResult) : Prop :=
  summary (wpr_result pr) = buildSummary (findings (wpr_result pr)).

(** A pnpm-workspace.yaml without a [packages:] line. *)
Definition workspace_yaml_no_packages : string :=
  Str.unlines [ "catalog:"; "  - 'packages/*'"; EmptyString ].

(** What the accumulated results of a workspace scan look like: each
    carries the summary of its findings, and their keys are, in order, among
    [keys]. *)
Definition resultsWithin (keys : list (string * string))
           (results : list WorkspacePackageResult) : Prop :=
  Forall summarised results /\ Subsequence (map resultKey results) keys.

(* ================================================================= *)
(** ** What the matcher accepts

    [Matches r s w s']: the expression [r] can take the matcher from the
    position [s] to the position [s'], reading the characters [w] and
    recording the groups it passes. *)

Inductive Matches : re -> mstate -> list ascii -> mstate -> Prop :=
| M_Eps s : Matches Eps s [] s
| M_Cls p s c t :
    rest s = c :: t -> p c = true ->
    Matches (Cls p) s [c] (MState (c :: pre s) t (caps s))
| M_Seq r1 r2 s w1 s1 w2 s2 :
    Matches r1 s w1 s1 -> Matches r2 s1 w2 s2 ->
    Matches (Seq r1 r2) s (w1 ++ w2) s2
| M_AltL r1 r2 s w s' : Matches r1 s w s' -> Matches (Alt r1 r2) s w s'
| M_AltR r1 r2 s w s' : Matches r2 s w s' -> Matches (Alt r1 r2) s w s'
| M_StarNil g r s : Matches (Star g r) s [] s
| M_StarCons g r s w1 s1 w2 s2 :
    Matches r s w1 s1 -> Matches (Star g r) s1 w2 s2 ->
    Matches (Star g r) s (w1 ++ w2) s2
| M_Grp n r s w s' :
    Matches r s w s' ->
    Matches (Grp n r) s w (MState (pre s') (rest s') ((n, w) :: caps s'))
| M_Bol m s : at_bol m s = true -> Matches (Bol m) s [] s
| M_Eol m s : at_eol m s = true -> Matches (Eol m) s [] s
| M_Ahead r s w s' : Matches r s w s' -> Matches (Ahead r) s [] s.

(** An expression without groups. *)
Fixpoint groupFree (r : re) : bool :=
  match r with
  | Eps | Cls _ | Bol _ | Eol _ => true
  | Seq r1 r2 | Alt r1 r2 => groupFree r1 && groupFree r2
  | Star _ r1 | Ahead r1 => groupFree r1
  | Grp _ _ => false
  end.

(** A non-empty run of decimal digits. *)
Definition digits (w : list ascii) : Prop :=
  w <> [] /\ Forall (fun c => Str.is_digit c = true) w.

(** Every repetition is of a single character class. *)
Fixpoint starsOverClasses (r : re) : bool :=
  match r with
  | Eps | Cls _ | Bol _ | Eol _ => true
  | Seq r1 r2 | Alt r1 r2 => starsOverClasses r1 && starsOverClasses r2
  | Star _ (Cls _) => true
  | Star _ _ => false
  | Grp _ r1 | Ahead r1 => starsOverClasses r1
  end.

(** What [/^\d+\.\d+\.\d+/] asks of a version: it begins with three runs
    of digits separated by dots. *)
Definition startsWithVersion (v : string) : Prop :=
  exists major minor patch tail,
    Str.chars v = major ++ "."%char :: minor ++ "."%char :: patch ++ tail
    /\ digits major /\ digits minor /\ digits patch.

(** A key of the scope-registry table that is a scope: [@], then at least
    one character, none of them a colon. *)
Definition scopeKey (k : string) : Prop :=
  exists x, k = String "@" x /\ x <> EmptyString
            /\ ~ In ":"%char (Str.chars x).

(** A package name as a yarn.lock header gives it: an optional [@], then
    at least one character, none of them [@] or a double quote. *)
Definition yarnName (n : string) : Prop :=
  exists x, (n = x \/ n = String "@" x) /\ x <> EmptyString
            /\ ~ In "@"%char (Str.chars x)
            /\ ~ In Str.dquote (Str.chars x).

(** A pnpm-workspace.yaml with two patterns. *)
Definition workspace_yaml_packages : string :=
  Str.unlines [ "packages:"; "  - 'packages/*'"; "  - apps/*"; EmptyString ].

(* ================================================================= *)
(** * Properties *)

(** ** Maps *)

Module JsMapFacts.
Import JsMap.

Section Facts.
Variable V : Type.
Implicit Types (m : t V) (k : string) (v : V).

Lemma get_set_same m k v : get (set m k v) k = Some v.
Proof.
  induction m as [|[k' v'] m IH]; simpl.
  - now rewrite String.eqb_refl.
  - destruct (String.eqb k' k) eqn:E; simpl; rewrite E; auto.
Qed.

Lemma get_set_other m k k' v : k <> k' -> get (set m k v) k' = get m k'.
Proof.
  intros Hne.
  induction m as [|[k0 v0] m IH]; simpl.
  - destruct (String.eqb k k') eqn:E; auto.
    apply String.eqb_eq in E. contradiction.
  - destruct (String.eqb k0 k) eqn:E; simpl.
    + apply String.eqb_eq in E. subst k0.
      destruct (String.eqb k k') eqn:E'; auto.
      apply String.eqb_eq in E'. contradiction.
    + rewrite IH. reflexivity.
Qed.

Lemma get_set m k k' v :
  get (set m k v) k' = if String.eqb k k' then Some v else get m k'.
Proof.
  destruct (String.eqb k k') eqn:E.
  - apply String.eqb_eq in E. subst. apply get_set_same.
  - apply get_set_other. intros ->. rewrite String.eqb_refl in E. discriminate.
Qed.

Lemma has_get m k : has m k = true <-> exists v, get m k = Some v.
Proof.
  unfold has. destruct (get m k); split; intros H; eauto; try discriminate.
  destruct H as [? H]. discriminate.
Qed.

Lemma get_absent m k : ~ In k (map fst m) -> get m k = None.
Proof.
  induction m as [|[k' v'] m IH]; simpl; intros H; auto.
  destruct (String.eqb k' k) eqn:E.
  - apply String.eqb_eq in E. tauto.
  - apply IH. tauto.
Qed.

Lemma get_none_absent m k : get m k = None -> ~ In k (map fst m).
Proof.
  induction m as [|[k' v'] m IH]; simpl; [tauto|].
  destruct (String.eqb k' k) eqn:E; [discriminate|].
  intros G [Hk|Hin].
  - subst. rewrite String.eqb_refl in E. discriminate.
  - now apply IH.
Qed.

Lemma get_present m k v : get m k = Some v -> In k (map fst m).
Proof.
  induction m as [|[k' v'] m IH]; simpl; intros H; [discriminate|].
  destruct (String.eqb k' k) eqn:E.
  - apply String.eqb_eq in E. auto.
  - auto.
Qed.

Lemma set_keys m k v :
  map fst (set m k v) = if has m k then map fst m else map fst m ++ [k].
Proof.
  unfold has.
  induction m as [|[k' v'] m IH]; simpl; auto.
  destruct (String.eqb k' k) eqn:E; simpl; auto.
  rewrite IH. destruct (get m k); reflexivity.
Qed.

Lemma set_unique m k v : uniqueKeys m -> uniqueKeys (set m k v).
Proof.
  unfold uniqueKeys. intros H. rewrite set_keys.
  destruct (has m k) eqn:E; auto.
  apply NoDup_app; auto.
  - repeat constructor. simpl. tauto.
  - intros x Hx [Hk|[]]. subst x.
    unfold has in E. destruct (get m k) eqn:G; [discriminate|].
    now apply (get_none_absent m k).
Qed.

Lemma set_not_empty m k v : 0 < size (set m k v).
Proof. destruct m as [|[k' v'] m]; simpl; [|destruct (String.eqb k' k)]; simpl; lia. Qed.

End Facts.
End JsMapFacts.

(** ** The sort of the assembler *)

Lemma Severity_eqb_eq a b : Severity_eqb a b = true <-> a = b.
Proof. destruct a, b; simpl; split; intros H; congruence. Qed.

Lemma SEVERITY_ORDER_inj a b : SEVERITY_ORDER a = SEVERITY_ORDER b -> a = b.
Proof. destruct a, b; simpl; intros H; congruence. Qed.

Lemma bySeverity_le a b : (bySeverity a b <=? 0)%Z = true <-> le_severity a b.
Proof. unfold bySeverity, le_severity. rewrite Z.leb_le. lia. Qed.

Section SortFacts.
Variable A : Type.
Variable cmp : A -> A -> Z.

Lemma insertSorted_perm x l : Permutation (insertSorted cmp x l) (x :: l).
Proof.
  induction l as [|y l IH]; simpl; auto.
  destruct (cmp x y <=? 0)%Z; auto.
  rewrite IH. apply perm_swap.
Qed.

Lemma sort_perm l : Permutation (sort cmp l) l.
Proof.
  induction l as [|x l IH]; simpl; auto.
  rewrite insertSorted_perm. now constructor.
Qed.

Lemma sort_Forall (P : A -> Prop) l : Forall P l -> Forall P (sort cmp l).
Proof.
  intros H. rewrite Forall_forall in *. intros x Hx.
  apply H. eapply Permutation_in; [apply sort_perm | exact Hx].
Qed.

Lemma sort_In x l : In x (sort cmp l) <-> In x l.
Proof.
  split; apply Permutation_in; [|symmetry]; apply sort_perm.
Qed.
End SortFacts.

Lemma insertSorted_sorted x l :
  StronglySorted le_severity l ->
  StronglySorted le_severity (insertSorted bySeverity x l).
Proof.
  induction 1 as [|y l Hs IH Hall]; simpl.
  - constructor; constructor.
  - destruct (bySeverity x y <=? 0)%Z eqn:E.
    + apply bySeverity_le in E.
      constructor; [constructor; assumption|].
      constructor; [assumption|].
      eapply Forall_impl; [|exact Hall].
      unfold le_severity in *. intros; lia.
    + constructor; [assumption|].
      assert (Hyx : le_severity y x).
      { destruct (bySeverity_le x y) as [_ H1]. unfold le_severity in *.
        destruct (le_lt_dec (SEVERITY_ORDER (severity x))
                            (SEVERITY_ORDER (severity y))) as [Hle|Hlt];
          [rewrite (H1 Hle) in E; discriminate | lia]. }
      rewrite Forall_forall in *. intros z Hz.
      apply (Permutation_in _ (insertSorted_perm bySeverity x l)) in Hz.
      destruct Hz as [<-|Hz]; auto.
Qed.

Lemma sort_sorted l : StronglySorted le_severity (sort bySeverity l).
Proof.
  induction l; simpl; [constructor | now apply insertSorted_sorted].
Qed.

Lemma insertSorted_filter s x l :
  filter (hasSeverity s) (insertSorted bySeverity x l)
  = filter (hasSeverity s) (x :: l).
Proof.
  induction l as [|y l IH]; simpl; auto.
  destruct (bySeverity x y <=? 0)%Z eqn:E; simpl; auto.
  simpl in IH. rewrite IH.
  destruct (hasSeverity s x) eqn:Hx, (hasSeverity s y) eqn:Hy; auto.
  unfold hasSeverity in *.
  apply Severity_eqb_eq in Hx, Hy.
  assert (le_severity x y) by (unfold le_severity; rewrite Hx, Hy; lia).
  apply bySeverity_le in H. congruence.
Qed.

Lemma sort_stable s l :
  filter (hasSeverity s) (sort bySeverity l) = filter (hasSeverity s) l.
Proof.
  induction l as [|x l IH]; simpl; auto.
  rewrite insertSorted_filter. simpl. now rewrite IH.
Qed.

Lemma filter_more_severe x l s :
  Forall (le_severity x) l ->
  SEVERITY_ORDER s < SEVERITY_ORDER (severity x) ->
  filter (hasSeverity s) l = [].
Proof.
  intros Hall Hlt. induction Hall as [|y l Hy _ IH]; simpl; auto.
  destruct (hasSeverity s y) eqn:E; auto.
  unfold hasSeverity in E. apply Severity_eqb_eq in E.
  unfold le_severity in Hy. rewrite E in Hy. lia.
Qed.

Lemma filter_cons_severity s x l :
  filter (hasSeverity s) (x :: l)
  = if Severity_eqb (severity x) s then x :: filter (hasSeverity s) l
    else filter (hasSeverity s) l.
Proof. reflexivity. Qed.

Lemma sorted_buckets l :
  StronglySorted le_severity l -> bucketsBySeverity l = l.
Proof.
  unfold bucketsBySeverity.
  induction 1 as [|x l Hs IH Hall]; auto.
  pose proof (filter_more_severe critical Hall) as Hc.
  pose proof (filter_more_severe high Hall) as Hh.
  pose proof (filter_more_severe medium Hall) as Hm.
  pose proof (filter_more_severe low Hall) as Hl.
  rewrite !filter_cons_severity.
  destruct (severity x) eqn:Ex; cbn [Severity_eqb];
    cbn [SEVERITY_ORDER] in Hc, Hh, Hm, Hl;
    rewrite ?Hc, ?Hh, ?Hm, ?Hl in * by lia;
    cbn [app] in *; now rewrite IH.
Qed.

(** The sort is the stable one: its result is [bucketsBySeverity]. *)
Lemma sort_buckets l : sort bySeverity l = bucketsBySeverity l.
Proof.
  rewrite <- (sorted_buckets (sort_sorted l)).
  unfold bucketsBySeverity. now rewrite !sort_stable.
Qed.

(** ** The summary *)

Lemma count_total l :
  List.length l
  = countSeverity critical l + countSeverity high l + countSeverity medium l
    + countSeverity low l + countSeverity info l.
Proof.
  unfold countSeverity.
  induction l as [|f l IH]; simpl; auto.
  destruct (severity f); simpl; lia.
Qed.

(** ** The result of [analyze] *)

Section AnalyzeFacts.
Variable extractRegistryHost : string -> option string.
Variable net : Network.

Lemma analyze_findings context options :
  findings (fst (analyze extractRegistryHost net context options))
  = sort bySeverity (unsortedFindings extractRegistryHost net context options).
Proof.
  unfold analyze, unsortedFindings, keptFindings,
    collectedFindings.
  destruct (onlineFindings net context (offline options)); reflexivity.
Qed.

Lemma analyze_summary context options :
  summary (fst (analyze extractRegistryHost net context options))
  = buildSummary (findings (fst (analyze extractRegistryHost net context options))).
Proof.
  unfold analyze.
  destruct (onlineFindings net context (offline options)); reflexivity.
Qed.

Lemma analyze_requests context options :
  snd (analyze extractRegistryHost net context options)
  = snd (onlineFindings net context (offline options)).
Proof.
  unfold analyze.
  destruct (onlineFindings net context (offline options)); reflexivity.
Qed.

(** C5. Whatever the context and the options, every finding that [analyze]
    returns has a severity ordinal at most that of the threshold. *)
Theorem threshold_respected context options :
  Forall (fun f => SEVERITY_ORDER (severity f)
                   <= SEVERITY_ORDER (severityThreshold options))
         (findings (fst (analyze extractRegistryHost net context options))).
Proof.
  rewrite analyze_findings. apply sort_Forall.
  unfold unsortedFindings, filterBySeverity.
  apply Forall_forall. intros f Hf.
  apply filter_In in Hf. destruct Hf as [_ Hf].
  now apply Nat.leb_le in Hf.
Qed.

(** C6. The findings that [analyze] returns are in non-decreasing order of
    severity ordinal, and the findings of any one severity are in the order
    they had in the list that was sorted; so they are that list, regrouped by
    severity. *)
Theorem findings_sorted_stably context options :
  let result := findings (fst (analyze extractRegistryHost net context options)) in
  let unsorted := unsortedFindings extractRegistryHost net context options in
  StronglySorted le_severity result
  /\ (forall s, filter (hasSeverity s) result = filter (hasSeverity s) unsorted)
  /\ result = bucketsBySeverity unsorted.
Proof.
  cbv zeta. rewrite analyze_findings. split; [|split].
  - apply sort_sorted.
  - intros s. apply sort_stable.
  - apply sort_buckets.
Qed.

(** C10. The summary of a scan result counts the findings of that result:
    its total is their number, and the five counts by severity add up to
    the total. *)
Theorem summary_consistent context options :
  let r := fst (analyze extractRegistryHost net context options) in
  total (summary r) = List.length (findings r)
  /\ total (summary r)
     = sum_critical (summary r) + sum_high (summary r)
       + sum_medium (summary r) + sum_low (summary r) + sum_info (summary r)
  /\ summary r = buildSummary (findings r).
Proof.
  cbv zeta. rewrite analyze_summary. simpl.
  split; [reflexivity|]. split; [apply count_total | reflexivity].
Qed.

End AnalyzeFacts.

(** ** The rules *)

Lemma flat_map_if A B (p : A -> bool) (g : A -> B) l :
  flat_map (fun x => if p x then [g x] else []) l = map g (filter p l).
Proof.
  induction l as [|x l IH]; simpl; auto.
  destruct (p x); simpl; now rewrite IH.
Qed.

Lemma flat_map_nil A B (g : A -> list B) l :
  (forall x, In x l -> g x = []) -> flat_map g l = [].
Proof.
  induction l as [|x l IH]; simpl; intros H; auto.
  rewrite (H x), IH; auto.
Qed.

(** C2. DC-002 reports nothing when no config file exists; with a config
    file it reports nothing when the default registry is private; otherwise
    it reports, in the order of the dependencies, one critical finding for
    each scoped dependency whose scope is no key of the scope-registry
    table. *)
Theorem scopeWithoutRegistry_spec context :
  let rc := registryConfig context in
  let out := run scopeWithoutRegistry context in
  let finding :=
    scopeWithoutRegistry_finding "DC-002" critical
                                 "Scoped package without registry mapping" in
  (hasConfig rc = false -> out = [])
  /\ (hasConfig rc = true -> defaultIsPrivate rc = true -> out = [])
  /\ (hasConfig rc = true -> defaultIsPrivate rc = false ->
      out = map finding
                (filter (fun dep => negb (JsMap.has_opt (scopeRegistries rc)
                                                        (dep_scope dep)))
                        (getScopedDependencies context)))
  /\ (forall dep, ruleId (finding dep) = "DC-002"
                  /\ severity (finding dep) = critical
                  /\ packageName (finding dep) = Some (dep_name dep)).
Proof.
  cbv zeta. simpl. unfold scopeWithoutRegistry_run.
  repeat split.
  - intros ->. reflexivity.
  - intros -> Hp. simpl. apply flat_map_nil. intros dep _.
    unfold scopeWithoutRegistry_dep. rewrite Hp.
    now rewrite andb_false_r.
  - intros -> Hp. simpl. rewrite <- flat_map_if.
    apply flat_map_ext. intros dep.
    unfold scopeWithoutRegistry_dep. rewrite Hp.
    now rewrite andb_true_r.
Qed.

Lemma scopeWithoutRegistry_spec_witness :
  run scopeWithoutRegistry ctx_no_config = []
  /\ run scopeWithoutRegistry ctx_private_default = []
  /\ map packageName (run scopeWithoutRegistry ctx_unmapped_scope)
     = [Some "@acme/lib"].
Proof.
  split; [|split].
  - destruct (scopeWithoutRegistry_spec ctx_no_config) as (H & _).
    apply H. reflexivity.
  - destruct (scopeWithoutRegistry_spec ctx_private_default) as (_ & H & _).
    apply H; reflexivity.
  - destruct (scopeWithoutRegistry_spec ctx_unmapped_scope) as (_ & _ & H & _).
    rewrite H; reflexivity.
Defined.

(** DC-003 reports nothing for a dependency whose scope is no key of the
    scope-registry table. *)
Lemma lockfilePublicResolution_unmapped rc lf dep :
  JsMap.has_opt (scopeRegistries rc) (dep_scope dep) = false ->
  lockfilePublicResolution_dep "DC-003" critical
    "Scoped package resolved from public registry" rc lf dep = [].
Proof.
  intros H. unfold lockfilePublicResolution_dep. now rewrite H.
Qed.

(** C3, at an input where it fails.  [.npmrc] maps [@acme] to the public
    registry, so the scope has a mapping that is not private, and the
    lockfile resolves [@acme/lib] from the public registry: DC-003 reports a
    finding, whose text says that a private registry is configured. *)
Theorem lockfilePublicResolution_public_mapping :
  let rc := registryConfig ctx_public_mapping in
  JsMap.get (scopeRegistries rc) "@acme" = Some "https://registry.npmjs.org/"
  /\ isPublicRegistry (JsMap.get (scopeRegistries rc) "@acme") = true
  /\ map (fun f => (ruleId f, severity f, packageName f))
         (run lockfilePublicResolution ctx_public_mapping)
     = [("DC-003", critical, Some "@acme/lib")].
Proof. vm_compute. repeat split. Qed.

(** C4, at an input where it fails.  [isVersionPinned] rejects [=1.2.3],
    which the comment above it lists as an exact version, and DC-007 reports
    the scoped dependency declared so. *)
Theorem isVersionPinned_eq_prefix :
  isVersionPinned "=1.2.3" = false
  /\ isVersionPinned "1.2.3" = true
  /\ map (fun f => (ruleId f, severity f, packageName f, evidence f))
         (run unpinnedScopedVersion ctx_eq_version)
     = [("DC-007", medium, Some "@acme/lib", Some "Version: =1.2.3")].
Proof. vm_compute. repeat split. Qed.

(** ** The registry configuration *)

Section ConfigFacts.
Import JsMap JsMapFacts.

Lemma setAll_unique (into from : JsMap.t string) :
  uniqueKeys into -> uniqueKeys (setAll into from).
Proof.
  unfold setAll. revert into.
  induction from as [|[k v] from IH]; simpl; intros into H; auto.
  apply IH. now apply set_unique.
Qed.

(** Overlaying [from] on [into]: the keys of [from] take its values, the
    others keep theirs. *)
Lemma setAll_get (into from : JsMap.t string) k :
  uniqueKeys from ->
  get (setAll into from) k
  = match get from k with Some v => Some v | None => get into k end.
Proof.
  unfold setAll, uniqueKeys. revert into.
  induction from as [|[k0 v0] from IH]; simpl; intros into H; auto.
  inversion H as [|? ? Hnot Hrest]; subst.
  rewrite IH by assumption.
  destruct (String.eqb k0 k) eqn:E.
  - apply String.eqb_eq in E. subst k0.
    rewrite (get_absent _ _ Hnot). apply get_set_same.
  - destruct (get from k); auto.
    apply get_set_other. intros ->. rewrite String.eqb_refl in E. discriminate.
Qed.

Lemma npmrcLine_unique st line :
  uniqueKeys (snd st) -> uniqueKeys (snd (npmrcLine st line)).
Proof.
  intros H. unfold npmrcLine.
  destruct (negb (Str.truthy (Str.trim line)) || _ || _); auto.
  destruct (exec re_npmrc_registry _); simpl; auto.
  destruct (exec re_npmrc_scope _); simpl; auto.
  now apply set_unique.
Qed.

Lemma parseNpmrcContent_unique content :
  uniqueKeys (scopeRegistries (parseNpmrcContent content)).
Proof.
  unfold parseNpmrcContent. simpl.
  assert (G : forall lines st, uniqueKeys (snd st) ->
                               uniqueKeys (snd (fold_left npmrcLine lines st))).
  { induction lines as [|l lines IH]; simpl; intros st H; auto.
    apply IH. now apply npmrcLine_unique. }
  apply G. constructor.
Qed.

Lemma yarnrcScopes_unique lines cur m :
  uniqueKeys m -> uniqueKeys (yarnrcScopes lines cur m).
Proof.
  revert cur m.
  induction lines as [|l lines IH]; simpl; intros cur m H; auto.
  destruct (test re_unindented l && _); auto.
  destruct (exec re_yarnrc_scope l); auto.
  destruct cur as [sc|]; auto.
  destruct (Str.truthy sc); auto.
  destruct (exec re_yarnrc_scoped_server l); auto.
  apply IH. now apply set_unique.
Qed.

Lemma parseYarnrcContent_unique content :
  uniqueKeys (scopeRegistries (parseYarnrcContent content)).
Proof.
  unfold parseYarnrcContent. simpl.
  destruct (exec re_yarnrc_scopes content).
  - apply yarnrcScopes_unique. constructor.
  - constructor.
Qed.

Lemma parseNpmrc_unique fs rootDir :
  uniqueKeys (scopeRegistries (parseNpmrc fs rootDir)).
Proof.
  unfold parseNpmrc. destruct (fs _).
  - apply parseNpmrcContent_unique.
  - constructor.
Qed.

Lemma parseYarnrc_unique fs rootDir :
  uniqueKeys (scopeRegistries (parseYarnrc fs rootDir)).
Proof.
  unfold parseYarnrc. destruct (fs _).
  - apply parseYarnrcContent_unique.
  - constructor.
Qed.

(** The merged table, by lookup: what [.npmrc] maps, else what
    [.yarnrc.yml] maps. *)
Lemma parseRegistryConfig_scope fs rootDir scope :
  get (scopeRegistries (parseRegistryConfig fs rootDir)) scope
  = match get (scopeRegistries (parseNpmrc fs rootDir)) scope with
    | Some r => Some r
    | None => get (scopeRegistries (parseYarnrc fs rootDir)) scope
    end.
Proof.
  unfold parseRegistryConfig. simpl.
  rewrite setAll_get by apply parseNpmrc_unique.
  destruct (get (scopeRegistries (parseNpmrc fs rootDir)) scope); auto.
  rewrite setAll_get by apply parseYarnrc_unique.
  destruct (get (scopeRegistries (parseYarnrc fs rootDir)) scope); auto.
Qed.

Lemma parseNpmrc_hasConfig fs rootDir :
  hasConfig (parseNpmrc fs rootDir) = true <-> fs (resolve rootDir ".npmrc") <> None.
Proof.
  unfold parseNpmrc. destruct (fs _); simpl; split; congruence.
Qed.

Lemma parseYarnrc_hasConfig fs rootDir :
  hasConfig (parseYarnrc fs rootDir) = true
  <-> fs (resolve rootDir ".yarnrc.yml") <> None.
Proof.
  unfold parseYarnrc. destruct (fs _); simpl; split; congruence.
Qed.

(** C8. In the merged configuration a scope that both [.npmrc] and
    [.yarnrc.yml] map has the registry of [.npmrc]; the default registry is
    that of [.npmrc] when it sets one and that of [.yarnrc.yml] otherwise;
    and [hasConfig] holds exactly when one of the two files exists. *)
Theorem parseRegistryConfig_merge fs rootDir :
  let A := parseNpmrc fs rootDir in
  let B := parseYarnrc fs rootDir in
  let M := parseRegistryConfig fs rootDir in
  (forall scope a b,
      get (scopeRegistries A) scope = Some a ->
      get (scopeRegistries B) scope = Some b ->
      get (scopeRegistries M) scope = Some a)
  /\ (forall r, defaultRegistry A = Some r -> defaultRegistry M = Some r)
  /\ (defaultRegistry A = None -> defaultRegistry M = defaultRegistry B)
  /\ (hasConfig M = true
      <-> fs (resolve rootDir ".npmrc") <> None
          \/ fs (resolve rootDir ".yarnrc.yml") <> None).
Proof.
  cbv zeta. repeat split.
  - intros scope a b Ha _. rewrite parseRegistryConfig_scope. now rewrite Ha.
  - intros r Hr. unfold parseRegistryConfig. simpl. now rewrite Hr.
  - intros Hr. unfold parseRegistryConfig. simpl. now rewrite Hr.
  - unfold parseRegistryConfig. simpl. intros H.
    apply orb_true_iff in H. destruct H as [H|H].
    + left. now apply parseNpmrc_hasConfig.
    + right. now apply parseYarnrc_hasConfig.
  - unfold parseRegistryConfig. simpl. intros [H|H]; apply orb_true_iff.
    + left. now apply parseNpmrc_hasConfig.
    + right. now apply parseYarnrc_hasConfig.
Qed.

Lemma parseRegistryConfig_merge_witness :
  let M := parseRegistryConfig both_configs "/repo" in
  get (scopeRegistries M) "@acme" = Some "https://npm.acme.example/acme/"
  /\ defaultRegistry M = Some "https://npm.acme.example/"
  /\ hasConfig M = true
  /\ defaultRegistry (parseRegistryConfig (configFiles None None) "/repo")
     = defaultRegistry (parseYarnrc (configFiles None None) "/repo").
Proof.
  cbv zeta.
  destruct (parseRegistryConfig_merge both_configs "/repo")
    as (Hscope & Hdef & _ & Hcfg).
  destruct (parseRegistryConfig_merge (configFiles None None) "/repo")
    as (_ & _ & Hnone & _).
  split; [|split; [|split]].
  - apply (Hscope "@acme" _ "https://yarn.acme.example/acme/"); reflexivity.
  - apply Hdef. reflexivity.
  - apply Hcfg. left. discriminate.
  - apply Hnone. reflexivity.
Defined.

End ConfigFacts.

(** ** The lockfile tables *)

Section LockfileFacts.
Import JsMap JsMapFacts.

(** *** pnpm-lock.yaml: an entry, once stored, stays *)

Lemma pnpmFlush_keeps st n e :
  get (pnpm_packages st) n = Some e -> get (pnpmFlush st) n = Some e.
Proof.
  intros H. unfold pnpmFlush.
  destruct (currentName st) as [cn|]; auto.
  destruct (currentVersion st) as [cv|]; auto.
  destruct (Str.truthy cn && Str.truthy cv && negb (has (pnpm_packages st) cn))
           eqn:E; auto.
  rewrite get_set_other; auto.
  intros ->. unfold has in E. rewrite H in E.
  now rewrite andb_false_r in E.
Qed.

Lemma pnpmFlush_stores st n v :
  currentName st = Some n -> currentVersion st = Some v ->
  Str.truthy n = true -> Str.truthy v = true ->
  has (pnpm_packages st) n = false ->
  get (pnpmFlush st) n
  = Some {| entry_name := n; entry_version := v; resolved := None;
            entry_integrity := currentIntegrity st;
            entry_hasInstallScripts := None |}.
Proof.
  intros Hn Hv Tn Tv Hh. unfold pnpmFlush.
  rewrite Hn, Hv, Tn, Tv, Hh. simpl. apply get_set_same.
Qed.

Lemma pnpmFlush_duplicate st n :
  currentName st = Some n -> has (pnpm_packages st) n = true ->
  pnpmFlush st = pnpm_packages st.
Proof.
  intros Hn Hh. unfold pnpmFlush. rewrite Hn, Hh.
  destruct (currentVersion st); auto.
  now rewrite andb_false_r.
Qed.

Lemma pnpmLine_keeps st line n e :
  get (pnpm_packages st) n = Some e ->
  get (pnpm_packages (pnpmLine st line)) n = Some e.
Proof.
  intros H. unfold pnpmLine.
  destruct (test re_pnpm_packages _); simpl; auto.
  destruct (inPackagesSection st && _ && _ && _); simpl.
  { now apply pnpmFlush_keeps. }
  destruct (negb (inPackagesSection st)); auto.
  unfold pnpmInSection.
  destruct (pnpmKey _); simpl.
  { now apply pnpmFlush_keeps. }
  destruct (Str.truthy_opt _); auto.
  destruct (exec re_pnpm_integrity _); auto.
Qed.

Lemma pnpmLines_keep lines st n e :
  get (pnpm_packages st) n = Some e ->
  get (pnpm_packages (fold_left pnpmLine lines st)) n = Some e.
Proof.
  revert st. induction lines as [|l lines IH]; simpl; intros st H; auto.
  apply IH. now apply pnpmLine_keeps.
Qed.

(** *** pnpm-lock.yaml: the first block offered under a name is stored *)

Lemma pnpmFlush_pending st :
  pnpmFlush st
  = match pnpmPending st with
    | Some e => if has (pnpm_packages st) (entry_name e)
                then pnpm_packages st
                else set (pnpm_packages st) (entry_name e) e
    | None => pnpm_packages st
    end.
Proof.
  unfold pnpmFlush, pnpmPending.
  destruct (currentName st) as [n|]; auto.
  destruct (currentVersion st) as [v|]; auto.
  destruct (Str.truthy n && Str.truthy v); simpl; auto.
  destruct (has (pnpm_packages st) n); reflexivity.
Qed.

Lemma pnpmLine_table st line :
  pnpm_packages (pnpmLine st line)
  = if pnpmFlushes st line then pnpmFlush st else pnpm_packages st.
Proof.
  unfold pnpmLine, pnpmFlushes.
  destruct (test re_pnpm_packages _); auto.
  destruct (inPackagesSection st && _ && _ && _); auto.
  destruct (negb (inPackagesSection st)); auto.
  unfold pnpmInSection.
  destruct (pnpmKey _); auto.
  destruct (Str.truthy_opt _); auto.
  destruct (exec re_pnpm_integrity _); auto.
Qed.

(** The guarded [packages.set], looked up. *)
Lemma pnpmFlush_get st n :
  get (pnpmFlush st) n
  = match get (pnpm_packages st) n with
    | Some e => Some e
    | None => match pnpmPending st with
              | Some e => if pnpmNamed n e then Some e else None
              | None => None
              end
    end.
Proof.
  rewrite pnpmFlush_pending. unfold pnpmNamed.
  destruct (pnpmPending st) as [e|]; [|destruct (get _ n); reflexivity].
  unfold has. destruct (get (pnpm_packages st) (entry_name e)) as [e'|] eqn:H.
  - destruct (get (pnpm_packages st) n) eqn:G; auto.
    destruct (String.eqb (entry_name e) n) eqn:E; auto.
    apply String.eqb_eq in E. congruence.
  - rewrite get_set.
    destruct (String.eqb (entry_name e) n) eqn:E.
    + apply String.eqb_eq in E. subst n. now rewrite H.
    + destruct (get (pnpm_packages st) n); reflexivity.
Qed.

Lemma find_app_first {A} (p : A -> bool) (l1 l2 : list A) :
  find p (l1 ++ l2)
  = match find p l1 with Some x => Some x | None => find p l2 end.
Proof.
  induction l1 as [|x l1 IH]; simpl; auto. destruct (p x); auto.
Qed.

Lemma find_first {A} (p : A -> bool) (before : list A) b later :
  Forall (fun x => p x = false) before -> p b = true ->
  find p (before ++ b :: later) = Some b.
Proof.
  induction 1 as [|x before Hx _ IH]; simpl; intros Hb.
  - now rewrite Hb.
  - rewrite Hx. now apply IH.
Qed.

(** The table below the loop, from any state of the loop: what the table
    holds for a name stays, and a name it does not hold gets the first
    block offered under it. *)
Lemma pnpmLines_first lines st n :
  get (pnpmFlush (fold_left pnpmLine lines st)) n
  = match get (pnpm_packages st) n with
    | Some e => Some e
    | None => find (pnpmNamed n) (pnpmBlocksFrom st lines)
    end.
Proof.
  revert st. induction lines as [|line lines IH]; intros st.
  - cbn [fold_left pnpmBlocksFrom]. rewrite pnpmFlush_get.
    destruct (get (pnpm_packages st) n); auto.
    destruct (pnpmPending st) as [e|]; reflexivity.
  - cbn [fold_left pnpmBlocksFrom]. rewrite IH, pnpmLine_table, find_app_first.
    destruct (pnpmFlushes st line).
    + rewrite pnpmFlush_get.
      destruct (get (pnpm_packages st) n); auto.
      destruct (pnpmPending st) as [e|]; reflexivity.
    + destruct (get (pnpm_packages st) n); auto.
      destruct (pnpmPending st); reflexivity.
Qed.

Lemma parsePnpmLockfile_first content n :
  get (packages (parsePnpmLockfile content)) n
  = find (pnpmNamed n) (pnpmBlocks content).
Proof.
  unfold parsePnpmLockfile, pnpmBlocks. simpl.
  now rewrite pnpmLines_first.
Qed.

(** *** yarn.lock and package-lock.json: the last one stored stays *)

Lemma yarnBlocks_last blocks pk n :
  get (fold_left yarnBlock blocks pk) n
  = match lastWith (yarnNamed n) blocks with
    | Some b => Some (yarnBlockEntry n b)
    | None => get pk n
    end.
Proof.
  revert pk. induction blocks as [|b blocks IH]; simpl; intros pk; auto.
  rewrite IH. destruct (lastWith (yarnNamed n) blocks); auto.
  unfold yarnBlock, yarnNamed.
  destruct (yarnBlockName b) as [n'|]; auto.
  rewrite get_set. destruct (String.eqb n' n) eqn:E; auto.
  apply String.eqb_eq in E. now subst.
Qed.

Lemma npmSteps_thrown
      (step : option (JsMap.t LockfileEntry) -> string * json
              -> option (JsMap.t LockfileEntry)) l :
  (forall kv, step None kv = None) ->
  fold_left step l None = None.
Proof.
  intros H. induction l as [|kv l IH]; simpl; auto. now rewrite H.
Qed.

Lemma npmDependencies_thrown l : fold_left npmDependenciesStep l None = None.
Proof. now apply npmSteps_thrown. Qed.

Lemma npmPackages_thrown l : fold_left npmPackagesStep l None = None.
Proof. now apply npmSteps_thrown. Qed.

(** The loop over [packages] is the loop over [dependencies] run on the
    members it does not skip, under their stripped names. *)
Lemma npmPackages_visited l pk :
  fold_left npmPackagesStep l (Some pk)
  = fold_left npmDependenciesStep
      (map (fun kv => (Regex.remove_first re_node_modules (fst kv), snd kv))
           (filter (fun kv => Str.truthy (fst kv)) l))
      (Some pk).
Proof.
  revert pk. induction l as [|[key value] l IH]; intros pk; auto.
  cbn [fold_left filter fst]. unfold npmPackagesStep at 2.
  destruct (Str.truthy key); cbn [negb map fold_left fst snd]; auto.
  unfold npmDependenciesStep at 2.
  destruct (npmEntry _ value); auto.
  now rewrite npmPackages_thrown, npmDependencies_thrown.
Qed.

Lemma npmDependencies_last l pk pk' n :
  fold_left npmDependenciesStep l (Some pk) = Some pk' ->
  get pk' n
  = match lastWith (fun kv => String.eqb (fst kv) n) l with
    | Some kv => npmEntry n (snd kv)
    | None => get pk n
    end.
Proof.
  revert pk. induction l as [|[name value] l IH]; simpl; intros pk H.
  - now inversion H.
  - destruct (npmEntry name value) as [e|] eqn:E.
    + rewrite (IH _ H).
      destruct (lastWith _ l); auto.
      rewrite get_set. destruct (String.eqb name n) eqn:En; auto.
      apply String.eqb_eq in En. now subst.
    + rewrite npmDependencies_thrown in H. discriminate.
Qed.

Lemma npmDependencies_size l pk pk' :
  fold_left npmDependenciesStep l (Some pk) = Some pk' ->
  l <> [] \/ 0 < size pk -> 0 < size pk'.
Proof.
  revert pk. induction l as [|[name value] l IH]; simpl; intros pk H Hl.
  - inversion H; subst. destruct Hl; [contradiction | assumption].
  - destruct (npmEntry name value) as [e|].
    + apply (IH _ H). right. apply set_not_empty.
    + rewrite npmDependencies_thrown in H. discriminate.
Qed.

Lemma parseNpmLockfile_last raw lf n :
  parseNpmLockfile raw = Some lf ->
  get (packages lf) n
  = match lastWith (fun kv => String.eqb (fst kv) n) (npmVisited raw) with
    | Some kv => npmEntry n (snd kv)
    | None => None
    end.
Proof.
  unfold parseNpmLockfile, npmVisited, npmPackagesVisited.
  set (pkgs := Js.entries (Js.or_empty_object (Js.prop raw "packages"))).
  set (deps := Js.entries (Js.or_empty_object (Js.prop raw "dependencies"))).
  intros H.
  assert (H' :
    match fold_left npmPackagesStep pkgs (Some empty) with
    | Some pk =>
        if size pk =? 0
        then match fold_left npmDependenciesStep deps (Some pk) with
             | Some pk' => Some {| lock_type := npm; packages := pk' |}
             | None => None
             end
        else Some {| lock_type := npm; packages := pk |}
    | None => None
    end = Some lf) by (destruct raw; try exact H; discriminate).
  clear H. rewrite npmPackages_visited in H'.
  remember (map (fun kv => (Regex.remove_first re_node_modules (fst kv), snd kv))
                (filter (fun kv => Str.truthy (fst kv)) pkgs))
    as visited eqn:V0.
  clear V0.
  destruct (fold_left npmDependenciesStep visited (Some empty)) as [pk|] eqn:F;
    [|discriminate].
  destruct visited as [|v others].
  - simpl in F. inversion F; subst pk. simpl in H'.
    destruct (fold_left npmDependenciesStep deps (Some empty)) as [pk'|] eqn:G;
      [|discriminate].
    inversion H'; subst lf. simpl.
    now rewrite (npmDependencies_last _ _ n G).
  - assert (Hs : 0 < size pk).
    { apply (npmDependencies_size _ F). left. discriminate. }
    destruct (size pk =? 0) eqn:Z; [apply Nat.eqb_eq in Z; lia|].
    inversion H'; subst lf. simpl.
    rewrite (npmDependencies_last _ _ n F).
    change (get empty n) with (@None LockfileEntry).
    reflexivity.
Qed.

(** C1, as the code has it.  In a pnpm-lock.yaml the first occurrence wins:
    the table of [parsePnpmLockfile] holds, for a name, the first of the
    blocks of the file that is offered under that name, and nothing for a
    name no block is offered under; so a block that follows another block of
    its name leaves the entry as it is.  In the loop, a pending entry is
    stored when it is flushed and its name is new, it is dropped when its
    name is in the table already, and an entry that is in the table after
    some of the lines is the entry of the final table.  In a yarn.lock and in
    a package-lock.json the last occurrence wins: the table holds, for a
    name, the entry of the last block, or of the last member, stored under
    that name. *)
Theorem lockfile_duplicate_names :
  (forall content n,
      get (packages (parsePnpmLockfile content)) n
      = find (pnpmNamed n) (pnpmBlocks content))
  /\ pnpmFirstOccurrenceWins
  /\ (forall st n v,
      currentName st = Some n -> currentVersion st = Some v ->
      Str.truthy n = true -> Str.truthy v = true ->
      has (pnpm_packages st) n = false ->
      get (pnpmFlush st) n
      = Some {| entry_name := n; entry_version := v; resolved := None;
                entry_integrity := currentIntegrity st;
                entry_hasInstallScripts := None |})
  /\ (forall content before later n e,
      Str.split content Str.newline = before ++ later ->
      get (pnpm_packages (fold_left pnpmLine before pnpmInit)) n = Some e ->
      get (packages (parsePnpmLockfile content)) n = Some e)
  /\ (forall st n,
         currentName st = Some n -> has (pnpm_packages st) n = true ->
         pnpmFlush st = pnpm_packages st)
  /\ (forall content n,
         get (packages (parseYarnLockfile content)) n
         = option_map (yarnBlockEntry n)
                      (lastWith (yarnNamed n) (yarnBlocks content)))
  /\ (forall raw lf n,
         parseNpmLockfile raw = Some lf ->
         get (packages lf) n
         = match lastWith (fun kv => String.eqb (fst kv) n) (npmVisited raw) with
           | Some kv => npmEntry n (snd kv)
           | None => None
           end).
Proof.
  split; [apply parsePnpmLockfile_first|].
  split.
  { intros content before b later n Hblocks Hbefore Hname.
    rewrite parsePnpmLockfile_first, Hblocks.
    apply find_first; auto.
    unfold pnpmNamed. now apply String.eqb_eq. }
  split; [apply pnpmFlush_stores|].
  split; [|split; [|split]].
  - intros content before later n e Hsplit H.
    unfold parsePnpmLockfile. simpl. rewrite Hsplit, fold_left_app.
    apply pnpmFlush_keeps. now apply pnpmLines_keep.
  - apply pnpmFlush_duplicate.
  - intros content n. unfold parseYarnLockfile. simpl.
    rewrite yarnBlocks_last.
    destruct (lastWith _ _); reflexivity.
  - apply parseNpmLockfile_last.
Qed.

Lemma lockfile_duplicate_names_witness :
  map (fun e => (entry_name e, entry_version e)) (pnpmBlocks pnpm_second_b)
  = [("a", "1.0.0"); ("b", "1.0.0"); ("c", "1.0.0"); ("b", "2.0.0")]
  /\ option_map (fun e => (entry_version e, entry_integrity e))
                (get (packages (parsePnpmLockfile pnpm_second_b)) "b")
     = Some ("1.0.0", Some "sha512-b1")
  /\ get (packages (parsePnpmLockfile pnpm_second_b)) "d" = None
  /\ option_map entry_version
                (get (packages (parsePnpmLockfile pnpm_two_versions)) "@acme/lib")
     = Some "1.4.0"
  /\ option_map entry_version
                (get (packages (parseYarnLockfile yarn_two_versions)) "@acme/lib")
     = Some "2.1.0"
  /\ option_map (fun lf => option_map resolved (get (packages lf) "lib"))
                (parseNpmLockfile npm_workspace_lock)
     = Some (Some (Some "lib")).
Proof.
  destruct lockfile_duplicate_names
    as (Hfirst & Hwins & _ & Hpnpm & _ & Hyarn & Hnpm).
  split; [vm_compute; reflexivity|].
  split; [|split; [|split; [|split]]].
  - rewrite (Hwins pnpm_second_b
                   (firstn 1 (pnpmBlocks pnpm_second_b))
                   (nth 1 (pnpmBlocks pnpm_second_b) (yarnBlockEntry "b" "b"))
                   (skipn 2 (pnpmBlocks pnpm_second_b))
                   "b").
    + vm_compute. reflexivity.
    + vm_compute. reflexivity.
    + vm_compute. repeat constructor.
    + vm_compute. reflexivity.
  - rewrite Hfirst. vm_compute. reflexivity.
  - set (lines := Str.split pnpm_two_versions Str.newline).
    rewrite (Hpnpm pnpm_two_versions (firstn 8 lines) (skipn 8 lines)
                   "@acme/lib"
                   {| entry_name := "@acme/lib"; entry_version := "1.4.0";
                      resolved := None;
                      entry_integrity := Some "sha512-first";
                      entry_hasInstallScripts := None |}).
    + reflexivity.
    + symmetry. apply firstn_skipn.
    + vm_compute. reflexivity.
  - rewrite Hyarn. vm_compute. reflexivity.
  - destruct (parseNpmLockfile npm_workspace_lock) as [lf|] eqn:E;
      [|vm_compute in E; discriminate].
    simpl. rewrite (Hnpm _ _ "lib" E). vm_compute. reflexivity.
Defined.

(** C1, as it is stated, fails for yarn.lock: of two blocks for [@acme/lib]
    the table holds the entry of the second. *)
Lemma yarn_first_occurrence_overwritten : ~ yarnFirstOccurrenceWins.
Proof.
  intros H.
  specialize (H yarn_two_versions []
                (nth 0 (yarnBlocks yarn_two_versions) EmptyString)
                [nth 1 (yarnBlocks yarn_two_versions) EmptyString]
                "@acme/lib").
  assert (E : option_map entry_version
                (get (packages (parseYarnLockfile yarn_two_versions)) "@acme/lib")
              = Some "1.4.0").
  { rewrite H.
    - vm_compute. reflexivity.
    - vm_compute. reflexivity.
    - constructor.
    - vm_compute. reflexivity. }
  vm_compute in E. discriminate.
Qed.

End LockfileFacts.

(** ** The online check *)

Section OnlineFacts.
Variable net : Network.

Lemma settledResults_app i l1 l2 :
  settledResults net i (l1 ++ l2)
  = settledResults net i l1 ++ settledResults net (i + List.length l1) l2.
Proof.
  revert i. induction l1 as [|d l1 IH]; simpl; intros i.
  - now rewrite Nat.add_0_r.
  - rewrite IH. do 3 f_equal. lia.
Qed.

Lemma probeBatch_settled batch acc sent :
  fold_left (fun acc dep =>
               let (checkResult, sent') :=
                 packageExistsOnPublicNpm net (dep_name dep) (snd acc) in
               (fst acc ++ [(dep, checkResult)], sent'))
            batch (acc, sent)
  = (acc ++ settledResults net (List.length sent) batch,
     sent ++ map (fun dep => probeUrl (dep_name dep)) batch).
Proof.
  revert acc sent. induction batch as [|d batch IH]; simpl; intros acc sent.
  - now rewrite !app_nil_r.
  - rewrite IH. rewrite length_app, <- !app_assoc. simpl.
    now rewrite Nat.add_1_r.
Qed.

(** With enough turns, the batches together probe every scoped dependency
    once, in order. *)
Lemma checkBatches_fuel scoped concurrency fuel i found sent :
  0 < concurrency ->
  List.length scoped <= i + fuel ->
  (i < List.length scoped -> List.length sent = i) ->
  checkBatches net fuel scoped concurrency i found sent
  = (found ++ flat_map onlineFinding (settledResults net i (skipn i scoped)),
     sent ++ map (fun dep => probeUrl (dep_name dep)) (skipn i scoped)).
Proof.
  intros Hc. revert i found sent.
  induction fuel as [|fuel IH]; intros i found sent Hfuel Hsent; simpl.
  - rewrite skipn_all2 by lia. simpl. now rewrite !app_nil_r.
  - destruct (i <? List.length scoped) eqn:E.
    + apply Nat.ltb_lt in E.
      unfold probeBatch. rewrite probeBatch_settled. simpl.
      rewrite (Hsent E).
      set (tail := skipn i scoped).
      assert (Htail : List.length tail = List.length scoped - i)
        by apply length_skipn.
      rewrite IH.
      * replace (skipn (i + concurrency) scoped) with (skipn concurrency tail)
          by (unfold tail; rewrite skipn_skipn; f_equal; lia).
        assert (A1 : settledResults net i tail
                     = settledResults net i (firstn concurrency tail)
                       ++ settledResults net (i + concurrency)
                                         (skipn concurrency tail)).
        { rewrite <- (firstn_skipn concurrency tail) at 1.
          rewrite settledResults_app.
          destruct (skipn concurrency tail) eqn:S; [reflexivity|].
          assert (concurrency < List.length tail).
          { destruct (le_lt_dec (List.length tail) concurrency) as [Hle|]; auto.
            rewrite skipn_all2 in S by exact Hle. discriminate. }
          rewrite length_firstn, Nat.min_l by lia. reflexivity. }
        assert (A2 : map (fun dep => probeUrl (dep_name dep)) tail
                     = map (fun dep => probeUrl (dep_name dep))
                           (firstn concurrency tail)
                       ++ map (fun dep => probeUrl (dep_name dep))
                              (skipn concurrency tail)).
        { rewrite <- map_app. now rewrite firstn_skipn. }
        rewrite A1, A2, flat_map_app, <- !app_assoc. reflexivity.
      * lia.
      * intros Hlt. rewrite length_app, length_map, length_firstn.
        rewrite (Hsent E), Htail. lia.
    + apply Nat.ltb_ge in E.
      rewrite skipn_all2 by lia. simpl. now rewrite !app_nil_r.
Qed.

Lemma checkPublicRegistry_settled deps concurrency :
  0 < concurrency ->
  checkPublicRegistry net deps concurrency
  = (flat_map onlineFinding (settledResults net 0 (filter dep_isScoped deps)),
     map (fun dep => probeUrl (dep_name dep)) (filter dep_isScoped deps)).
Proof.
  intros Hc. unfold checkPublicRegistry.
  rewrite checkBatches_fuel; auto.
Qed.

End OnlineFacts.

(** No rule reports under the identifier of the online check. *)
Lemma Forall_flat_map A B (P : B -> Prop) (g : A -> list B) l :
  (forall x, Forall P (g x)) -> Forall P (flat_map g l).
Proof.
  intros H. induction l as [|x l IH]; simpl; [constructor|].
  apply Forall_app. auto.
Qed.

Ltac static_rule :=
  repeat match goal with
         | |- Forall _ [] => constructor
         | |- Forall _ (_ ++ _) => apply Forall_app; split
         | |- Forall _ (flat_map _ _) => apply Forall_flat_map; intros
         | |- Forall _ [_] => constructor; [unfold staticRule; simpl; discriminate|]
         | |- Forall _ (if ?b then _ else _) => destruct b
         | |- Forall _ (match ?x with _ => _ end) => destruct x
         end.

Lemma ruleFindings_static host context :
  Forall staticRule (ruleFindings host context).
Proof.
  unfold ruleFindings, ALL_RULES. simpl. rewrite app_nil_r.
  static_rule.
  - unfold noRegistryConfig_run. static_rule.
  - unfold scopeWithoutRegistry_run, scopeWithoutRegistry_dep. static_rule.
  - unfold lockfilePublicResolution_run, lockfilePublicResolution_dep.
    static_rule.
  - unfold missingLockfile_run. static_rule.
  - unfold noIntegrityHash_run, noIntegrityHash_dep. static_rule.
  - unfold installScriptsRisk_run, installScriptsRisk_project,
      installScriptsRisk_dep. static_rule.
  - unfold unpinnedScopedVersion_run, unpinnedScopedVersion_dep. static_rule.
  - unfold mixedScopeRegistries_run, mixedScopeRegistries_scope. static_rule.
  - unfold privateRegistryConfigured_run, privateRegistryConfigured_default,
      privateRegistryConfigured_scope. static_rule.
Qed.

Lemma Forall_filter A (P : A -> Prop) (p : A -> bool) l :
  Forall P l -> Forall P (filter p l).
Proof.
  intros H. rewrite Forall_forall in *. intros x Hx.
  apply filter_In in Hx. now apply H.
Qed.

Lemma filterByScope_Forall (P : Finding -> Prop) sc l :
  Forall P l -> Forall P (filterByScope sc l).
Proof.
  intros H. unfold filterByScope. destruct sc as [sc|]; auto.
  destruct (0 <? List.length sc); auto. now apply Forall_filter.
Qed.

Lemma filterByIgnored_Forall (P : Finding -> Prop) ig l :
  Forall P l -> Forall P (filterByIgnored ig l).
Proof.
  intros H. unfold filterByIgnored. destruct ig as [ig|]; auto.
  destruct (0 <? List.length ig); auto. now apply Forall_filter.
Qed.

(** C9. A probe that ends with status 200 gives one high DC-008 finding for
    its dependency, one that ends with 404 gives none, and one that ends with
    another status or is rejected gives one low DC-008 finding.  Online, the
    findings of the check are those of the probes of the scoped dependencies,
    in order, and the requests sent are the probes of the scoped dependencies
    and no others.  Offline, no request is sent and no returned finding is a
    DC-008 one. *)
Theorem online_check_outcomes host net context options :
  let scoped := filter dep_isScoped (ctx_dependencies context) in
  (forall dep o,
      (o = Response 200 ->
       exists f, onlineFinding (dep, classifyOutcome o) = [f]
                 /\ ruleId f = "DC-008" /\ severity f = high
                 /\ packageName f = Some (dep_name dep))
      /\ (o = Response 404 -> onlineFinding (dep, classifyOutcome o) = [])
      /\ (o <> Response 200 -> o <> Response 404 ->
          exists f, onlineFinding (dep, classifyOutcome o) = [f]
                    /\ ruleId f = "DC-008" /\ severity f = low
                    /\ packageName f = Some (dep_name dep)))
  /\ (offline options = false ->
      collectedFindings host net context options
      = ruleFindings host context
        ++ flat_map onlineFinding (settledResults net 0 scoped)
      /\ snd (analyze host net context options)
         = map (fun dep => probeUrl (dep_name dep)) scoped)
  /\ (offline options = true ->
      snd (analyze host net context options) = []
      /\ Forall staticRule (findings (fst (analyze host net context options)))).
Proof.
  cbv zeta. split; [|split].
  - intros dep o. split; [|split].
    + intros ->. simpl. eexists. repeat split.
    + intros ->. reflexivity.
    + intros H200 H404.
      assert (E : classifyOutcome o = pkg_error).
      { destruct o as [status|]; simpl; auto.
        destruct (status =? 200) eqn:E1;
          [apply Nat.eqb_eq in E1; subst; contradiction|].
        destruct (status =? 404) eqn:E2;
          [apply Nat.eqb_eq in E2; subst; contradiction|].
        reflexivity. }
      rewrite E. simpl. eexists. repeat split.
  - intros Hoff. rewrite analyze_requests.
    unfold collectedFindings, onlineFindings. rewrite Hoff. simpl.
    rewrite checkPublicRegistry_settled by lia. split; reflexivity.
  - intros Hoff. rewrite analyze_requests, analyze_findings.
    unfold unsortedFindings, keptFindings, collectedFindings, onlineFindings.
    rewrite Hoff. simpl. split; [reflexivity|].
    apply sort_Forall. apply Forall_filter.
    apply filterByIgnored_Forall, filterByScope_Forall.
    rewrite app_nil_r. apply ruleFindings_static.
Qed.

Lemma online_check_outcomes_witness :
  map (fun f => (ruleId f, severity f, packageName f))
      (flat_map onlineFinding
                (settledResults net_mixed 0
                   (filter dep_isScoped (ctx_dependencies ctx_online))))
  = [("DC-008", high, Some "@acme/lib"); ("DC-008", low, Some "@corp/core")]
  /\ snd (analyze noHost net_mixed ctx_online options_online)
     = ["https://registry.npmjs.org/@acme%2Flib";
        "https://registry.npmjs.org/@acme%2Fui";
        "https://registry.npmjs.org/@corp%2Fcore"]
  /\ snd (analyze noHost net_mixed ctx_online options_offline) = []
  /\ Forall staticRule
            (findings (fst (analyze noHost net_mixed ctx_online options_offline))).
Proof.
  destruct (online_check_outcomes noHost net_mixed ctx_online options_online)
    as (_ & Hon & _).
  destruct (online_check_outcomes noHost net_mixed ctx_online options_offline)
    as (_ & _ & Hoff).
  destruct (Hon eq_refl) as (_ & Hsent).
  destruct (Hoff eq_refl) as (Hnone & Hstatic).
  split; [vm_compute; reflexivity|].
  split; [rewrite Hsent; vm_compute; reflexivity|].
  split; assumption.
Defined.

(** ** The filters of the assembler *)

Lemma setHas_In l x : setHas l x = true <-> In x l.
Proof.
  unfold setHas. rewrite existsb_exists. split.
  - intros (y & Hy & E). apply String.eqb_eq in E. now subst.
  - intros H. exists x. split; auto. apply String.eqb_refl.
Qed.

Lemma extractScope_truthy n scope :
  extractScope n = Some scope -> Str.truthy n = true /\ Str.truthy scope = true.
Proof.
  unfold extractScope.
  destruct n as [|c n]; [discriminate|].
  destruct (Str.startsWith _ _); [|discriminate].
  destruct (Str.indexOf _ _) as [i|]; [|discriminate].
  destruct i as [|i]; [discriminate|].
  simpl. intros H. inversion H. auto.
Qed.

(** The scope filter keeps the findings of packages without a scope. *)
Lemma scopeKeeps_unscoped allow f n :
  packageName f = Some n -> extractScope n = None -> scopeKeeps allow f = true.
Proof.
  intros Hn Hs. unfold scopeKeeps. rewrite Hn.
  cbn [Str.truthy_opt Str.show_opt]. rewrite Hs.
  now destruct (negb (Str.truthy n)).
Qed.

(** C7. The findings returned are the sorted threshold filter of what the
    scope filter and then the ignore filter keep.  With a non-empty scope
    list, these two keep no finding whose package has a scope outside the
    list; they keep every finding without a package name; and they keep no
    finding whose package name is in the ignore list. *)
Theorem scope_and_ignore_filters host net context options :
  let raw := collectedFindings host net context options in
  let kept := keptFindings host net context options in
  let result := findings (fst (analyze host net context options)) in
  kept = filterByIgnored (ignorePackages options)
                         (filterByScope (scopes options) raw)
  /\ result
     = sort bySeverity (filterBySeverity (severityThreshold options) kept)
  /\ (forall allow f n scope,
         scopes options = Some allow -> allow <> [] ->
         packageName f = Some n -> extractScope n = Some scope ->
         ~ In scope allow ->
         ~ In f kept /\ ~ In f result)
  /\ (forall f,
         In f raw -> Str.truthy_opt (packageName f) = false ->
         In f kept
         /\ (SEVERITY_ORDER (severity f)
             <= SEVERITY_ORDER (severityThreshold options) -> In f result))
  /\ (forall ignored f n,
         ignorePackages options = Some ignored ->
         packageName f = Some n -> n <> EmptyString -> In n ignored ->
         ~ In f kept /\ ~ In f result).
Proof.
  cbv zeta.
  assert (Hres : forall f,
             In f (findings (fst (analyze host net context options)))
             <-> In f (keptFindings host net context options)
                 /\ SEVERITY_ORDER (severity f)
                    <= SEVERITY_ORDER (severityThreshold options)).
  { intros f. rewrite analyze_findings, sort_In.
    unfold unsortedFindings, filterBySeverity.
    rewrite filter_In, Nat.leb_le. reflexivity. }
  split; [reflexivity|]. split; [apply analyze_findings|].
  split; [|split].
  - intros allow f n scope Hallow Hne Hn Hscope Hout.
    assert (Hk : ~ In f (keptFindings host net context options)).
    { unfold keptFindings. rewrite Hallow.
      intros Hin.
      assert (Hin' : In f (filterByScope (Some allow)
                              (collectedFindings host net context options))).
      { unfold filterByIgnored in Hin.
        destruct (ignorePackages options) as [ig|]; auto.
        destruct (0 <? List.length ig); auto.
        apply filter_In in Hin. tauto. }
      unfold filterByScope in Hin'.
      destruct allow as [|a allow]; [contradiction|]. simpl in Hin'.
      apply filter_In in Hin'. destruct Hin' as [_ Hkeep].
      unfold scopeKeeps in Hkeep. rewrite Hn in Hkeep.
      cbn [Str.truthy_opt Str.show_opt] in Hkeep.
      destruct (extractScope_truthy _ Hscope) as [Htn Hts].
      rewrite Htn, Hscope, Hts in Hkeep. cbn [negb] in Hkeep.
      apply setHas_In in Hkeep. contradiction. }
    split; auto. rewrite Hres. tauto.
  - intros f Hin Hno.
    assert (Hk : In f (keptFindings host net context options)).
    { unfold keptFindings, filterByIgnored, filterByScope.
      assert (Hs : forall sc, scopeKeeps sc f = true)
        by (intros; unfold scopeKeeps; now rewrite Hno).
      assert (Hi : forall ig, ignoreKeeps ig f = true)
        by (intros; unfold ignoreKeeps; now rewrite Hno).
      destruct (ignorePackages options) as [ig|];
        [destruct (0 <? List.length ig)|];
        (destruct (scopes options) as [sc|];
         [destruct (0 <? List.length sc)|]);
        repeat (apply filter_In; split); auto. }
    split; auto. intros Hsev. rewrite Hres. tauto.
  - intros ignored f n Hig Hn Hne Hin.
    assert (Hk : ~ In f (keptFindings host net context options)).
    { unfold keptFindings. rewrite Hig. unfold filterByIgnored.
      destruct ignored as [|i0 ignored]; [contradiction|]. simpl.
      intros Hf. apply filter_In in Hf. destruct Hf as [_ Hkeep].
      unfold ignoreKeeps in Hkeep. rewrite Hn in Hkeep.
      cbn [Str.truthy_opt Str.show_opt] in Hkeep.
      destruct n as [|c n]; [congruence|].
      assert (Hhas : setHas (i0 :: ignored) (String c n) = true)
        by now apply setHas_In.
      rewrite Hhas in Hkeep. discriminate. }
    split; auto. rewrite Hres. tauto.
Qed.

Lemma scope_and_ignore_filters_witness :
  let raw := collectedFindings noHost net_mixed ctx_filters options_filters in
  let kept := keptFindings noHost net_mixed ctx_filters options_filters in
  Forall (fun f => In f kept) (firstn 2 raw)
  /\ Forall (fun f => ~ In f kept) (firstn 1 (skipn 3 raw))
  /\ Forall (fun f => ~ In f kept) (skipn 4 raw).
Proof.
  cbv zeta.
  destruct (scope_and_ignore_filters noHost net_mixed ctx_filters options_filters)
    as (_ & _ & Hscope & Hproject & Hignore).
  split; [|split]; apply Forall_forall; intros f Hf.
  - assert (Hraw : In f (collectedFindings noHost net_mixed ctx_filters
                                            options_filters)).
    { rewrite <- (firstn_skipn 2). apply in_or_app. left. exact Hf. }
    assert (Hno : Str.truthy_opt (packageName f) = false).
    { vm_compute in Hf. destruct Hf as [<-|[<-|[]]]; reflexivity. }
    exact (proj1 (Hproject f Hraw Hno)).
  - vm_compute in Hf. destruct Hf as [<-|[]].
    match goal with
    | |- ~ In ?f _ =>
        destruct (Hscope ["@acme"] f "@corp/ui" "@corp") as [H _];
        [ reflexivity | discriminate | reflexivity | reflexivity
        | simpl; intros [E|[]]; discriminate | exact H ]
    end.
  - vm_compute in Hf. destruct Hf as [<-|[]].
    match goal with
    | |- ~ In ?f _ =>
        destruct (Hignore ["@acme/legacy"] f "@acme/legacy") as [H _];
        [ reflexivity | reflexivity | discriminate | simpl; auto | exact H ]
    end.
Defined.

(* ================================================================= *)
(** * Further properties of the rules *)

(** DC-001 reports one project-level high finding when no config file exists
    and some dependency is scoped, and nothing otherwise; DC-001 and DC-002
    never report together. *)
Theorem noRegistryConfig_spec context :
  let rc := registryConfig context in
  let scoped := getScopedDependencies context in
  (hasConfig rc = false -> scoped <> [] ->
   exists f, run noRegistryConfig context = [f]
             /\ ruleId f = "DC-001" /\ severity f = high
             /\ packageName f = None)
  /\ (hasConfig rc = true \/ scoped = [] -> run noRegistryConfig context = [])
  /\ (run noRegistryConfig context = []
      \/ run scopeWithoutRegistry context = []).
Proof.
  cbv zeta. simpl. unfold noRegistryConfig_run, scopeWithoutRegistry_run.
  split; [|split].
  - intros -> Hne. destruct (getScopedDependencies context); [contradiction|].
    simpl. eexists. repeat split.
  - intros [E | E]; rewrite E; [reflexivity|]. now rewrite andb_false_r.
  - destruct (hasConfig (registryConfig context)); simpl; auto.
Qed.

Lemma noRegistryConfig_spec_witness :
  map ruleId (run noRegistryConfig ctx_no_config) = ["DC-001"]
  /\ run noRegistryConfig ctx_unmapped_scope = [].
Proof.
  destruct (noRegistryConfig_spec ctx_no_config) as (H1 & _ & _).
  destruct (noRegistryConfig_spec ctx_unmapped_scope) as (_ & H2 & _).
  split.
  - destruct H1 as (f & E & Hid & _); [reflexivity | discriminate |].
    rewrite E. simpl. now rewrite Hid.
  - apply H2. left. reflexivity.
Defined.

(** Without a lockfile DC-004 reports one project-level high finding and the
    three rules that read the lockfile (DC-003, DC-005, DC-009) report
    nothing; with a lockfile DC-004 reports nothing. *)
Theorem lockfile_rules host context :
  (lockfile context = None ->
   run lockfilePublicResolution context = []
   /\ run noIntegrityHash context = []
   /\ run (mixedScopeRegistries host) context = []
   /\ exists f, run missingLockfile context = [f]
                /\ ruleId f = "DC-004" /\ severity f = high
                /\ packageName f = None)
  /\ (forall lf, lockfile context = Some lf -> run missingLockfile context = []).
Proof.
  simpl. unfold lockfilePublicResolution_run, noIntegrityHash_run,
    mixedScopeRegistries_run, missingLockfile_run.
  split.
  - intros ->. repeat split. eexists. repeat split.
  - intros lf ->. reflexivity.
Qed.

Lemma lockfile_rules_witness :
  map ruleId (run missingLockfile ctx_no_config) = ["DC-004"]
  /\ run noIntegrityHash ctx_no_config = []
  /\ run missingLockfile ctx_public_mapping = [].
Proof.
  destruct (lockfile_rules noHost ctx_no_config) as (H1 & _).
  destruct (lockfile_rules noHost ctx_public_mapping) as (_ & H2).
  destruct (H1 eq_refl) as (_ & H5 & _ & (f & E & Hid & _)).
  split; [|split].
  - rewrite E. simpl. now rewrite Hid.
  - exact H5.
  - eapply H2. reflexivity.
Defined.

(** No dependency is reported by both DC-002 and DC-003: the first needs its
    scope to be absent from the scope-registry table, the second needs it to
    be present. *)
Theorem scope_rules_disjoint rc lf dep :
  scopeWithoutRegistry_dep "DC-002" critical
     "Scoped package without registry mapping" rc dep = []
  \/ lockfilePublicResolution_dep "DC-003" critical
       "Scoped package resolved from public registry" rc lf dep = [].
Proof.
  unfold scopeWithoutRegistry_dep, lockfilePublicResolution_dep.
  destruct (JsMap.has_opt (scopeRegistries rc) (dep_scope dep)); simpl; auto.
Qed.

(** DC-010 reports only project-level info findings: one for a private
    default registry and one for each scope mapped to a private registry. *)
Theorem privateRegistryConfigured_spec context :
  let rc := registryConfig context in
  let out := run privateRegistryConfigured context in
  Forall (fun f => ruleId f = "DC-010" /\ severity f = info
                   /\ packageName f = None) out
  /\ List.length out
     = (if defaultIsPrivate rc then 1 else 0)
       + List.length (filter privateMapping (scopeRegistries rc)).
Proof.
  cbv zeta. simpl. unfold privateRegistryConfigured_run.
  split.
  - apply Forall_app. split.
    + unfold privateRegistryConfigured_default.
      destruct (defaultIsPrivate _); repeat constructor.
    + apply Forall_flat_map. intros [scope registry].
      unfold privateRegistryConfigured_scope.
      destruct (negb _); repeat constructor.
  - rewrite length_app. f_equal.
    + unfold privateRegistryConfigured_default.
      now destruct (defaultIsPrivate _).
    + induction (scopeRegistries (registryConfig context)) as [|[s r] l IH];
        [reflexivity|].
      cbn [flat_map filter]. rewrite length_app, IH.
      unfold privateMapping at 2, privateRegistryConfigured_scope.
      cbn [snd].
      destruct (negb (isPublicRegistry (Some r))); reflexivity.
Qed.



(* ================================================================= *)
(** * Further properties of the online check *)

(** The concurrency limit changes neither the findings of the online check
    nor the requests it sends: every scoped dependency is probed once, in
    order, whatever the size of the batches. *)
Theorem checkPublicRegistry_any_concurrency net deps c1 c2 :
  0 < c1 -> 0 < c2 ->
  checkPublicRegistry net deps c1 = checkPublicRegistry net deps c2
  /\ List.length (snd (checkPublicRegistry net deps c1))
     = List.length (filter dep_isScoped deps)
  /\ List.length (fst (checkPublicRegistry net deps c1))
     <= List.length (filter dep_isScoped deps).
Proof.
  intros H1 H2. rewrite !checkPublicRegistry_settled by assumption.
  split; [reflexivity|]. simpl. split; [apply length_map|].
  generalize 0. induction (filter dep_isScoped deps) as [|d l IH]; intros i.
  - simpl. lia.
  - cbn [settledResults flat_map]. rewrite length_app.
    specialize (IH (S i)).
    assert (List.length (onlineFinding
              (d, classifyOutcome (net i (probeUrl (dep_name d))))) <= 1).
    { unfold onlineFinding. destruct (classifyOutcome _); simpl; lia. }
    cbn [List.length]. lia.
Qed.

Lemma checkPublicRegistry_any_concurrency_witness :
  checkPublicRegistry net_mixed (ctx_dependencies ctx_online) 1
  = checkPublicRegistry net_mixed (ctx_dependencies ctx_online) 5.
Proof.
  apply (checkPublicRegistry_any_concurrency net_mixed
           (ctx_dependencies ctx_online) (c1 := 1) (c2 := 5)); lia.
Defined.

Lemma hex_digit_not_slash m : m < 16 -> hex_digit m <> "/"%char.
Proof.
  intros H.
  do 16 (destruct m as [|m]; [vm_compute; discriminate|]). lia.
Qed.

Lemma index_of_char_absent c l :
  Forall (fun x => x <> c) l -> Str.index_of_char c l = None.
Proof.
  induction 1 as [|x l Hx _ IH]; simpl; auto.
  destruct (Ascii.eqb x c) eqn:E.
  - apply Ascii.eqb_eq in E. contradiction.
  - now rewrite IH.
Qed.

Lemma strip_prefix_Forall (P : ascii -> Prop) p l rest :
  Str.strip_prefix p l = Some rest -> Forall P l -> Forall P rest.
Proof.
  revert l. induction p as [|a p IH]; simpl; intros l H Hl.
  - now inversion H; subst.
  - destruct l as [|b l]; [discriminate|].
    destruct (Ascii.eqb a b); [|discriminate].
    inversion Hl; subst. eauto.
Qed.

Lemma replace_first_Forall (P : ascii -> Prop) p r l :
  Forall P r -> Forall P l -> Forall P (Str.replace_first_chars p r l).
Proof.
  intros Hr. induction l as [|c l IH]; intros Hl.
  - simpl. destruct (Str.strip_prefix p []) eqn:E; [|constructor].
    apply Forall_app. split; auto. eapply strip_prefix_Forall; eauto.
  - cbn [Str.replace_first_chars].
    destruct (Str.strip_prefix p (c :: l)) eqn:E.
    + apply Forall_app. split; auto. eapply strip_prefix_Forall; eauto.
    + inversion Hl; subst. constructor; auto.
Qed.

(** The probe URL is the registry, a slash, and the encoded package name,
    and the encoded name holds no slash: whatever the name of the package,
    the request goes to one path segment under the registry root. *)
Theorem probeUrl_one_segment packageName :
  probeUrl packageName
  = (NPM_REGISTRY ++ "/" ++ encodedName packageName)%string
  /\ Str.indexOf (encodedName packageName) "/" = None.
Proof.
  split; [reflexivity|].
  unfold Str.indexOf, encodedName, Str.replace_first, Str.chars, Str.of_chars.
  rewrite list_ascii_of_string_of_list_ascii.
  apply index_of_char_absent. apply replace_first_Forall.
  - repeat constructor. discriminate.
  - unfold encodeURIComponent, Str.of_chars, Str.chars.
    rewrite list_ascii_of_string_of_list_ascii.
    apply Forall_flat_map. intros c.
    destruct (uri_unreserved c) eqn:U.
    + repeat constructor. intros ->. vm_compute in U. discriminate.
    + pose proof (nat_ascii_bounded c) as Hc.
      repeat constructor.
      * discriminate.
      * apply hex_digit_not_slash. apply Nat.Div0.div_lt_upper_bound. lia.
      * apply hex_digit_not_slash. apply Nat.mod_upper_bound. lia.
Qed.

(* ================================================================= *)
(** * Further properties of the assembler *)

Lemma filter_comm A (p q : A -> bool) l :
  filter p (filter q l) = filter q (filter p l).
Proof.
  induction l as [|x l IH]; simpl; auto.
  destruct (p x) eqn:P, (q x) eqn:Q; simpl; rewrite ?P, ?Q, IH; reflexivity.
Qed.

Lemma filter_buckets p l :
  filter p (bucketsBySeverity l) = bucketsBySeverity (filter p l).
Proof.
  unfold bucketsBySeverity. rewrite !filter_app.
  now rewrite !(filter_comm p).
Qed.

Lemma filterBySeverity_twice T1 T2 l :
  SEVERITY_ORDER T1 <= SEVERITY_ORDER T2 ->
  filterBySeverity T1 (filterBySeverity T2 l) = filterBySeverity T1 l.
Proof.
  intros H. unfold filterBySeverity.
  induction l as [|f l IH]; simpl; auto.
  destruct (SEVERITY_ORDER (severity f) <=? SEVERITY_ORDER T2) eqn:E2; simpl.
  - now rewrite IH.
  - destruct (SEVERITY_ORDER (severity f) <=? SEVERITY_ORDER T1) eqn:E1; auto.
    apply Nat.leb_le in E1. apply Nat.leb_gt in E2. lia.
Qed.

Lemma filterBySeverity_info l : filterBySeverity info l = l.
Proof.
  unfold filterBySeverity. induction l as [|f l IH]; simpl in *; auto.
  destruct (severity f); simpl; now rewrite IH.
Qed.

(** Lowering the threshold only removes findings: the findings returned
    under a stricter threshold are those returned under a laxer one that
    pass the stricter one, in the same order.  Under the threshold [info]
    nothing is removed by severity. *)
Theorem threshold_monotone host net context off T1 T2 sc ig :
  SEVERITY_ORDER T1 <= SEVERITY_ORDER T2 ->
  findings (fst (analyze host net context (optionsOf off T1 sc ig)))
  = filterBySeverity T1
      (findings (fst (analyze host net context (optionsOf off T2 sc ig))))
  /\ findings (fst (analyze host net context (optionsOf off info sc ig)))
     = sort bySeverity
            (keptFindings host net context (optionsOf off info sc ig)).
Proof.
  intros H. rewrite !analyze_findings. unfold unsortedFindings. split.
  - rewrite !sort_buckets. unfold filterBySeverity at 2.
    rewrite filter_buckets.
    change (filter _ ?l) with (filterBySeverity T1 l) at 1.
    simpl severityThreshold.
    now rewrite filterBySeverity_twice.
  - simpl severityThreshold. now rewrite filterBySeverity_info.
Qed.

Lemma threshold_monotone_witness :
  findings (fst (analyze noHost net_mixed ctx_online
                         (optionsOf false high None None)))
  = filterBySeverity high
      (findings (fst (analyze noHost net_mixed ctx_online
                              (optionsOf false info None None)))).
Proof.
  apply (@threshold_monotone noHost net_mixed ctx_online false
                             high info None None).
  simpl. lia.
Defined.

(* ================================================================= *)
(** * Further properties of the lockfile tables *)

Section TableFacts.
Import JsMap JsMapFacts.

Lemma get_set_inv V (m : JsMap.t V) k v k' e :
  get (set m k v) k' = Some e -> (k = k' /\ e = v) \/ get m k' = Some e.
Proof.
  rewrite get_set. destruct (String.eqb k k') eqn:E; auto.
  apply String.eqb_eq in E. intros H. inversion H. auto.
Qed.

(** What holds of every entry of a pnpm table. *)
Lemma pnpmFlush_entries (P : string -> LockfileEntry -> Prop) st :
  (forall n v i, P n {| entry_name := n; entry_version := v; resolved := None;
                        entry_integrity := i;
                        entry_hasInstallScripts := None |}) ->
  (forall n e, get (pnpm_packages st) n = Some e -> P n e) ->
  forall n e, get (pnpmFlush st) n = Some e -> P n e.
Proof.
  intros Hnew Hold n e. unfold pnpmFlush.
  destruct (currentName st) as [cn|]; auto.
  destruct (currentVersion st) as [cv|]; auto.
  destruct (_ && _ && _); auto.
  intros H. apply get_set_inv in H. destruct H as [[<- ->]|H]; auto.
Qed.

Lemma pnpmLine_entries (P : string -> LockfileEntry -> Prop) st line :
  (forall n v i, P n {| entry_name := n; entry_version := v; resolved := None;
                        entry_integrity := i;
                        entry_hasInstallScripts := None |}) ->
  (forall n e, get (pnpm_packages st) n = Some e -> P n e) ->
  forall n e, get (pnpm_packages (pnpmLine st line)) n = Some e -> P n e.
Proof.
  intros Hnew Hold. unfold pnpmLine.
  destruct (test re_pnpm_packages _); simpl; auto.
  destruct (inPackagesSection st && _ && _ && _); simpl.
  { now apply pnpmFlush_entries. }
  destruct (negb (inPackagesSection st)); auto.
  unfold pnpmInSection.
  destruct (pnpmKey _); simpl.
  { now apply pnpmFlush_entries. }
  destruct (Str.truthy_opt _); auto.
  destruct (exec re_pnpm_integrity _); auto.
Qed.

Lemma parsePnpmLockfile_entries (P : string -> LockfileEntry -> Prop) content :
  (forall n v i, P n {| entry_name := n; entry_version := v; resolved := None;
                        entry_integrity := i;
                        entry_hasInstallScripts := None |}) ->
  forall n e, get (packages (parsePnpmLockfile content)) n = Some e -> P n e.
Proof.
  intros Hnew. unfold parsePnpmLockfile. simpl.
  apply pnpmFlush_entries; auto.
  assert (G : forall lines st,
             (forall n e, get (pnpm_packages st) n = Some e -> P n e) ->
             forall n e, get (pnpm_packages (fold_left pnpmLine lines st)) n
                         = Some e -> P n e).
  { induction lines as [|l lines IH]; simpl; intros st H; auto.
    apply IH. now apply pnpmLine_entries. }
  apply G. simpl. discriminate.
Qed.

Lemma parseYarnLockfile_entries content n e :
  get (packages (parseYarnLockfile content)) n = Some e ->
  exists block, e = yarnBlockEntry n block.
Proof.
  unfold parseYarnLockfile. simpl. rewrite yarnBlocks_last.
  destruct (lastWith _ _) as [b|]; [|discriminate].
  intros H. inversion H. eauto.
Qed.

(** In the table of each of the three parsers, an entry is stored under its
    own name. *)
Theorem lockfile_entries_named :
  (forall raw lf n e,
      parseNpmLockfile raw = Some lf ->
      get (packages lf) n = Some e -> entry_name e = n)
  /\ (forall content n e,
         get (packages (parseYarnLockfile content)) n = Some e ->
         entry_name e = n)
  /\ (forall content n e,
         get (packages (parsePnpmLockfile content)) n = Some e ->
         entry_name e = n).
Proof.
  split; [|split].
  - intros raw lf n e Hp. rewrite (parseNpmLockfile_last _ n Hp).
    destruct (lastWith _ _) as [[k v]|]; [|discriminate].
    unfold npmEntry. simpl. destruct v; try discriminate;
      intros H; inversion H; reflexivity.
  - intros content n e H.
    destruct (parseYarnLockfile_entries _ _ H) as [b ->]. reflexivity.
  - intros content.
    apply (parsePnpmLockfile_entries (fun n e => entry_name e = n)).
    reflexivity.
Qed.

Lemma lockfile_entries_named_witness :
  option_map entry_name
             (get (packages (parseYarnLockfile yarn_two_versions)) "@acme/lib")
  = Some "@acme/lib".
Proof.
  destruct lockfile_entries_named as (_ & Hyarn & _).
  destruct (get (packages (parseYarnLockfile yarn_two_versions)) "@acme/lib")
    as [e|] eqn:E; [|vm_compute in E; discriminate].
  simpl. f_equal. exact (Hyarn _ _ _ E).
Defined.

(** A pnpm-lock.yaml without a [packages:] line gives an empty table. *)
Theorem parsePnpmLockfile_no_section content :
  Forall (fun line => test re_pnpm_packages (Str.trim line) = false)
         (Str.split content Str.newline) ->
  packages (parsePnpmLockfile content) = [].
Proof.
  intros H. unfold parsePnpmLockfile. simpl.
  assert (G : fold_left pnpmLine (Str.split content Str.newline) pnpmInit
              = pnpmInit).
  { induction H as [|line lines Hl _ IH]; simpl; auto.
    unfold pnpmLine at 2. rewrite Hl. simpl. exact IH. }
  rewrite G. reflexivity.
Qed.

Lemma parsePnpmLockfile_no_section_witness :
  packages (parsePnpmLockfile pnpm_no_section) = [].
Proof.
  apply parsePnpmLockfile_no_section. vm_compute. repeat constructor.
Defined.

(** *** What a pnpm or yarn lockfile cannot trigger *)

Lemma addDep_fields lf isDev name version :
  dep_resolvedUrl (addDep (Some lf) isDev (name, version))
  = match get (packages lf) name with Some e => resolved e | None => None end
  /\ dep_hasInstallScripts (addDep (Some lf) isDev (name, version))
     = match get (packages lf) name with
       | Some e => match entry_hasInstallScripts e with
                   | Some b => b
                   | None => false
                   end
       | None => false
       end.
Proof. split; reflexivity. Qed.

Lemma addDep_pnpm content isDev nv :
  dep_resolvedUrl (addDep (Some (parsePnpmLockfile content)) isDev nv) = None
  /\ dep_hasInstallScripts
       (addDep (Some (parsePnpmLockfile content)) isDev nv) = false.
Proof.
  destruct nv as [name version].
  destruct (addDep_fields (parsePnpmLockfile content) isDev name version)
    as [-> ->].
  destruct (get (packages (parsePnpmLockfile content)) name) as [e|] eqn:E;
    auto.
  pose proof (parsePnpmLockfile_entries
                (fun _ e => resolved e = None
                            /\ entry_hasInstallScripts e = None)
                content (fun _ _ _ => conj eq_refl eq_refl) _ E) as [H1 H2].
  now rewrite H1, H2.
Qed.

Lemma addDep_yarn content isDev nv :
  dep_hasInstallScripts
    (addDep (Some (parseYarnLockfile content)) isDev nv) = false.
Proof.
  destruct nv as [name version].
  destruct (addDep_fields (parseYarnLockfile content) isDev name version)
    as [_ ->].
  destruct (get (packages (parseYarnLockfile content)) name) as [e|] eqn:E;
    auto.
  destruct (parseYarnLockfile_entries _ _ E) as [b ->]. reflexivity.
Qed.

(** The pnpm parser records no resolved URL, so with a pnpm-lock.yaml the two
    rules that compare resolved URLs, DC-003 and DC-009, report nothing,
    whatever the lockfile and the configuration say. *)
Theorem pnpm_lockfile_unresolved host context content :
  lockfile context = Some (parsePnpmLockfile content) ->
  (forall n e, get (packages (parsePnpmLockfile content)) n = Some e ->
               resolved e = None)
  /\ run lockfilePublicResolution context = []
  /\ run (mixedScopeRegistries host) context = [].
Proof.
  intros Hlf.
  assert (Hres : forall n e,
             get (packages (parsePnpmLockfile content)) n = Some e ->
             resolved e = None).
  { apply (parsePnpmLockfile_entries (fun _ e => resolved e = None)).
    reflexivity. }
  split; [exact Hres|]. simpl.
  unfold lockfilePublicResolution_run, mixedScopeRegistries_run.
  rewrite Hlf. split.
  - apply flat_map_nil. intros dep _. unfold lockfilePublicResolution_dep.
    destruct (negb _); auto.
    unfold lockEntryOf.
    destruct (get _ (dep_name dep)) as [e|] eqn:E; auto.
    now rewrite (Hres _ _ E).
  - assert (G : forall deps groups,
               fold_left (mixedScopeRegistries_dep host
                            (parsePnpmLockfile content)) deps groups = groups).
    { induction deps as [|dep deps IH]; simpl; intros groups; auto.
      rewrite <- (IH groups) at 2. f_equal.
      unfold mixedScopeRegistries_dep.
      destruct (dep_scope dep) as [sc|]; auto.
      destruct (_ || _); auto.
      unfold lockEntryOf.
      destruct (get _ (dep_name dep)) as [e|] eqn:E; auto.
      now rewrite (Hres _ _ E). }
    rewrite G. reflexivity.
Qed.

Lemma pnpm_lockfile_unresolved_witness :
  run lockfilePublicResolution ctx_pnpm = []
  /\ run (mixedScopeRegistries noHost) ctx_pnpm = [].
Proof.
  destruct (@pnpm_lockfile_unresolved noHost ctx_pnpm pnpm_two_versions eq_refl)
    as (_ & H1 & H2).
  split; assumption.
Defined.

(** Only the npm parser records install scripts, so for a project whose
    dependencies are built against a yarn.lock or a pnpm-lock.yaml DC-006
    reports at most the finding about the project's own scripts. *)
Theorem install_scripts_need_npm_lockfile context content :
  builtFrom context (parseYarnLockfile content)
  \/ builtFrom context (parsePnpmLockfile content) ->
  run installScriptsRisk context
  = installScriptsRisk_project "DC-006" medium "Install scripts detected"
                               (packageJson context).
Proof.
  intros H. simpl. unfold installScriptsRisk_run.
  rewrite <- app_nil_r. f_equal.
  apply flat_map_nil. intros dep Hin. unfold installScriptsRisk_dep.
  assert (E : dep_hasInstallScripts dep = false); [|now rewrite E].
  destruct H as [[_ Hd]|[_ Hd]]; rewrite Hd in Hin;
    unfold buildDependencies in Hin; apply in_app_or in Hin;
    destruct Hin as [Hin|Hin]; apply in_map_iff in Hin;
    destruct Hin as (nv & <- & _);
    solve [apply addDep_yarn | apply addDep_pnpm].
Qed.

Lemma install_scripts_need_npm_lockfile_witness :
  run installScriptsRisk ctx_public_mapping = [].
Proof.
  rewrite (install_scripts_need_npm_lockfile (context := ctx_public_mapping)
             (content := yarn_public_lock)).
  - reflexivity.
  - left. split; reflexivity.
Defined.

End TableFacts.

(* ================================================================= *)
(** * Scopes: the dependency list and the scope filter *)

Lemma chars_app a b : Str.chars (a ++ b) = Str.chars a ++ Str.chars b.
Proof.
  unfold Str.chars. induction a as [|c a IH]; simpl; auto. now rewrite IH.
Qed.

Lemma of_chars_chars s : Str.of_chars (Str.chars s) = s.
Proof. apply string_of_list_ascii_of_string. Qed.

Lemma chars_of_chars l : Str.chars (Str.of_chars l) = l.
Proof. apply list_ascii_of_string_of_list_ascii. Qed.

Lemma split_chars_hd sep cur l :
  hd [] (Str.split_chars sep cur l)
  = rev cur ++ match Str.index_of_char sep l with
               | Some i => firstn i l
               | None => l
               end.
Proof.
  revert cur. induction l as [|c l IH]; simpl; intros cur.
  - now rewrite app_nil_r.
  - destruct (Ascii.eqb c sep); simpl.
    + now rewrite app_nil_r.
    + rewrite IH. simpl. rewrite <- app_assoc. simpl.
      destruct (Str.index_of_char sep l); reflexivity.
Qed.

Lemma split_hd s sep :
  hd EmptyString (Str.split s sep)
  = Str.of_chars match Str.index_of_char sep (Str.chars s) with
                 | Some i => firstn i (Str.chars s)
                 | None => Str.chars s
                 end.
Proof.
  unfold Str.split.
  pose proof (split_chars_hd sep [] (Str.chars s)) as H. simpl in H.
  rewrite <- H.
  destruct (Str.split_chars sep [] (Str.chars s)); reflexivity.
Qed.

Lemma index_of_char_firstn c l i :
  Str.index_of_char c l = Some i -> Str.index_of_char c (firstn i l) = None.
Proof.
  revert i. induction l as [|a l IH]; simpl; intros i H; [discriminate|].
  destruct (Ascii.eqb a c) eqn:E.
  - inversion H. reflexivity.
  - destruct (Str.index_of_char c l) as [j|]; [|discriminate].
    inversion H. simpl. rewrite E. now rewrite (IH j).
Qed.

Lemma prefix_firstn s i :
  String.prefix (Str.of_chars (firstn i (Str.chars s))) s = true.
Proof.
  revert i. induction s as [|c s IH]; intros i.
  - now destruct i.
  - destruct i as [|i]; [reflexivity|].
    simpl. destruct (ascii_dec c c); [apply IH | contradiction].
Qed.

Lemma prefix_refl s : String.prefix s s = true.
Proof.
  induction s as [|c s IH]; simpl; auto.
  destruct (ascii_dec c c); [assumption | contradiction].
Qed.

Lemma extractScope_scopeOfName n s :
  extractScope n = Some s -> scopeOfName n = s.
Proof.
  unfold extractScope, scopeOfName, Str.indexOf, Str.slice0.
  rewrite split_hd.
  destruct (Str.startsWith n "@"); [|discriminate].
  destruct (Str.index_of_char "/" (Str.chars n)) as [i|]; [|discriminate].
  destruct (0 <? i); [|discriminate].
  intros H. now inversion H.
Qed.

Lemma addDep_scope_fields lf isDev name version :
  dep_name (addDep lf isDev (name, version)) = name
  /\ dep_isScoped (addDep lf isDev (name, version)) = Str.startsWith name "@"
  /\ dep_scope (addDep lf isDev (name, version))
     = if Str.startsWith name "@" then Some (scopeOfName name) else None.
Proof. repeat split. Qed.

Lemma prefix_cons a s1 b s2 :
  String.prefix (String a s1) (String b s2)
  = if ascii_dec a b then String.prefix s1 s2 else false.
Proof. reflexivity. Qed.

Lemma startsWith_at name :
  Str.startsWith name "@" = true -> exists rest, name = String "@" rest.
Proof.
  unfold Str.startsWith. destruct name as [|c rest];
    [simpl; intros H; discriminate|].
  rewrite prefix_cons.
  destruct (ascii_dec "@" c) as [<-|]; [eauto | intros H; discriminate].
Qed.

Lemma startsWith_at_cons x : Str.startsWith (String "@" x) "@" = true.
Proof.
  unfold Str.startsWith. rewrite prefix_cons.
  destruct (ascii_dec "@" "@"); [now destruct x | contradiction].
Qed.

Lemma scopeOfName_scoped name :
  Str.startsWith name "@" = true ->
  Str.startsWith (scopeOfName name) "@" = true
  /\ Str.startsWith name (scopeOfName name) = true
  /\ Str.indexOf (scopeOfName name) "/" = None.
Proof.
  intros Hs. destruct (startsWith_at _ Hs) as [rest ->]. clear Hs.
  unfold scopeOfName. rewrite split_hd. unfold Str.startsWith, Str.indexOf.
  change (Str.chars (String "@" rest)) with ("@"%char :: Str.chars rest).
  cbn [Str.index_of_char]. change (Ascii.eqb "@" "/") with false.
  destruct (Str.index_of_char "/" (Str.chars rest)) as [i|] eqn:E;
    cbn [option_map].
  - split; [apply (startsWith_at_cons (Str.of_chars (firstn i (Str.chars rest))))|].
    split.
    + apply (prefix_firstn (String "@" rest) (S i)).
    + rewrite chars_of_chars. cbn [firstn Str.index_of_char].
      change (Ascii.eqb "@" "/") with false.
      now rewrite (index_of_char_firstn _ _ E).
  - split; [apply (startsWith_at_cons (Str.of_chars (Str.chars rest)))|].
    split.
    + change ("@"%char :: Str.chars rest) with (Str.chars (String "@" rest)).
      rewrite of_chars_chars. apply prefix_refl.
    + rewrite chars_of_chars. cbn [Str.index_of_char].
      change (Ascii.eqb "@" "/") with false. now rewrite E.
Qed.

(** For every dependency that [buildDependencies] builds: it is scoped
    exactly when its name starts with [@]; an unscoped one has no scope; a
    scoped one has a scope that starts with [@], holds no slash and is a
    prefix of its name; and the scope that the scope filter of the assembler
    extracts from the name, when it extracts one, is that scope. *)
Theorem built_dependency_scope pj lf dep :
  In dep (buildDependencies pj lf) ->
  dep_isScoped dep = Str.startsWith (dep_name dep) "@"
  /\ (dep_isScoped dep = false -> dep_scope dep = None)
  /\ (dep_isScoped dep = true ->
      exists s, dep_scope dep = Some s
                /\ Str.startsWith s "@" = true
                /\ Str.startsWith (dep_name dep) s = true
                /\ Str.indexOf s "/" = None)
  /\ (forall s, extractScope (dep_name dep) = Some s -> dep_scope dep = Some s).
Proof.
  intros Hin.
  assert (Hd : exists isDev name version, dep = addDep lf isDev (name, version)).
  { unfold buildDependencies in Hin. apply in_app_or in Hin.
    destruct Hin as [Hin|Hin]; apply in_map_iff in Hin;
      destruct Hin as ([name version] & <- & _); eauto. }
  destruct Hd as (isDev & name & version & ->).
  destruct (addDep_scope_fields lf isDev name version) as (-> & -> & ->).
  split; [reflexivity|]. split; [now intros ->|]. split.
  - intros Hs. rewrite Hs. eexists. split; [reflexivity|].
    now apply scopeOfName_scoped.
  - intros s Hs. rewrite (extractScope_scopeOfName _ Hs).
    unfold extractScope in Hs.
    destruct (Str.startsWith name "@"); [reflexivity | discriminate].
Qed.

Lemma built_dependency_scope_witness :
  dep_scope (addDep None false ("@acme/lib", "1.0.0")) = Some "@acme".
Proof.
  refine (proj2 (proj2 (proj2
            (@built_dependency_scope
               (manifestOf [("@acme/lib", "1.0.0"); ("lodash", "4.17.21")])
               None (addDep None false ("@acme/lib", "1.0.0")) _))) "@acme" _).
  - simpl. left. reflexivity.
  - reflexivity.
Defined.

(** Scope extraction undoes the naming of a scoped package: from the scope,
    a slash and anything after it, [extractScope] gives back the scope. *)
Theorem extractScope_of_scoped_name scope rest :
  Str.startsWith scope "@" = true ->
  Str.indexOf scope "/" = None ->
  extractScope (scope ++ "/" ++ rest) = Some scope.
Proof.
  intros Hat Hno. destruct (startsWith_at _ Hat) as [tail ->]. clear Hat.
  unfold extractScope, Str.indexOf, Str.slice0 in *.
  assert (Hsw : Str.startsWith (String "@" tail ++ "/" ++ rest) "@" = true).
  { unfold Str.startsWith.
    change (String "@" tail ++ "/" ++ rest)%string
      with (String "@" (tail ++ "/" ++ rest)).
    apply startsWith_at_cons. }
  rewrite Hsw. rewrite chars_app.
  assert (G : forall l1 l2,
             Str.index_of_char "/" l1 = None ->
             Str.index_of_char "/" (l1 ++ "/"%char :: l2)
             = Some (List.length l1)
             /\ firstn (List.length l1) (l1 ++ "/"%char :: l2) = l1).
  { induction l1 as [|a l1 IH]; simpl; intros l2 H; [auto|].
    destruct (Ascii.eqb a "/"); [discriminate|].
    destruct (Str.index_of_char "/" l1) eqn:E; [discriminate|].
    destruct (IH l2 eq_refl) as [-> ->]. auto. }
  destruct (G (Str.chars (String "@" tail)) (Str.chars rest) Hno) as [Hi Hf].
  change (Str.chars ("/" ++ rest)) with ("/"%char :: Str.chars rest).
  rewrite Hi.
  change (List.length (Str.chars (String "@" tail)))
    with (S (List.length (Str.chars tail))) in *.
  cbn [Nat.ltb Nat.leb].
  rewrite Hf. now rewrite of_chars_chars.
Qed.

Lemma extractScope_of_scoped_name_witness :
  extractScope ("@acme" ++ "/" ++ "lib") = Some "@acme".
Proof.
  apply extractScope_of_scoped_name; reflexivity.
Defined.

(* ================================================================= *)
(** * The exit code and the terminal grouping *)

Lemma countSeverity_cons s f l :
  countSeverity s (f :: l)
  = (if Severity_eqb (severity f) s then 1 else 0) + countSeverity s l.
Proof.
  unfold countSeverity. simpl. now destruct (Severity_eqb (severity f) s).
Qed.

Lemma countSeverity_none x l s :
  Forall (le_severity x) l ->
  SEVERITY_ORDER s < SEVERITY_ORDER (severity x) ->
  countSeverity s l = 0.
Proof.
  intros Hall Hlt. unfold countSeverity.
  change (fun f => Severity_eqb (severity f) s) with (hasSeverity s).
  now rewrite (filter_more_severe s Hall Hlt).
Qed.

Lemma exitCode_sorted l :
  StronglySorted le_severity l ->
  exitCode (buildSummary l)
  = match l with
    | [] => 0
    | f :: _ => 3 - SEVERITY_ORDER (severity f)
    end.
Proof.
  intros Hs. destruct l as [|f l]; [reflexivity|].
  inversion Hs as [|? ? _ Hall]; subst.
  unfold exitCode, buildSummary.
  cbn [sum_critical sum_high sum_medium].
  rewrite !countSeverity_cons.
  destruct (severity f) eqn:E; cbn [Severity_eqb SEVERITY_ORDER];
    rewrite ?(countSeverity_none critical Hall),
            ?(countSeverity_none high Hall),
            ?(countSeverity_none medium Hall) by (rewrite E; simpl; lia);
    reflexivity.
Qed.

Lemma exitCode_zero s :
  exitCode s = 0 <-> sum_critical s = 0 /\ sum_high s = 0 /\ sum_medium s = 0.
Proof.
  unfold exitCode.
  destruct (0 <? sum_critical s) eqn:C; [apply Nat.ltb_lt in C|apply Nat.ltb_ge in C];
    [split; [discriminate | lia]|].
  destruct (0 <? sum_high s) eqn:H; [apply Nat.ltb_lt in H|apply Nat.ltb_ge in H];
    [split; [discriminate | lia]|].
  destruct (0 <? sum_medium s) eqn:M; [apply Nat.ltb_lt in M|apply Nat.ltb_ge in M];
    [split; [discriminate | lia]|].
  split; lia.
Qed.

Lemma countSeverity_zero s l :
  countSeverity s l = 0 <-> Forall (fun f => severity f <> s) l.
Proof.
  induction l as [|f l IH]; [split; [constructor | reflexivity]|].
  rewrite countSeverity_cons, Forall_cons_iff, <- IH.
  destruct (Severity_eqb (severity f) s) eqn:E.
  - apply Severity_eqb_eq in E. split; [discriminate | tauto].
  - assert (severity f <> s)
      by (intros H; apply Severity_eqb_eq in H; congruence).
    simpl. tauto.
Qed.

Lemma exitCode_minor l :
  exitCode (buildSummary l) = 0 <-> Forall minorFinding l.
Proof.
  rewrite exitCode_zero. unfold buildSummary.
  cbn [sum_critical sum_high sum_medium].
  rewrite !countSeverity_zero, !Forall_forall. unfold minorFinding.
  split.
  - intros (Hc & Hh & Hm) f Hf.
    specialize (Hc f Hf). specialize (Hh f Hf). specialize (Hm f Hf).
    destruct (severity f); auto; contradiction.
  - intros H. repeat split; intros f Hf; destruct (H f Hf) as [E|E];
      rewrite E; discriminate.
Qed.

(** The exit code of the command line is decided by the first finding of
    the scan result, the most severe one: 3 for critical, 2 for high, 1 for
    medium, 0 for low, for info and for no finding at all.  It is 0 exactly
    when every finding is low or info. *)
Theorem exitCode_first_finding host net context options :
  let r := fst (analyze host net context options) in
  exitCode (summary r)
  = match findings r with
    | [] => 0
    | f :: _ => 3 - SEVERITY_ORDER (severity f)
    end
  /\ (exitCode (summary r) = 0 <-> Forall minorFinding (findings r)).
Proof.
  cbv zeta. rewrite analyze_summary. split.
  - apply exitCode_sorted. rewrite analyze_findings. apply sort_sorted.
  - apply exitCode_minor.
Qed.

Lemma groupGet_groupAdd groups f s :
  groupGet (groupAdd groups f) s
  = if Severity_eqb (severity f) s
    then Some (match groupGet groups s with Some fs => fs | None => [] end
               ++ [f])
    else groupGet groups s.
Proof.
  induction groups as [|[s' fs] groups IH]; simpl.
  - destruct (Severity_eqb (severity f) s); reflexivity.
  - destruct (Severity_eqb s' (severity f)) eqn:E1; simpl.
    + apply Severity_eqb_eq in E1. subst s'.
      destruct (Severity_eqb (severity f) s); reflexivity.
    + destruct (Severity_eqb s' s) eqn:E2; [|exact IH].
      apply Severity_eqb_eq in E2. subst s'.
      destruct (Severity_eqb (severity f) s) eqn:E3; [|reflexivity].
      apply Severity_eqb_eq in E3. subst s.
      destruct (severity f); discriminate.
Qed.

Lemma groupGet_fold l groups s :
  groupGet (fold_left groupAdd l groups) s
  = match filter (hasSeverity s) l with
    | [] => groupGet groups s
    | fs => Some (match groupGet groups s with Some g => g | None => [] end
                  ++ fs)
    end.
Proof.
  revert groups. induction l as [|f l IH]; intros groups; [reflexivity|].
  cbn [fold_left filter]. rewrite IH, groupGet_groupAdd.
  destruct (hasSeverity s f) eqn:Hf; unfold hasSeverity in Hf; rewrite Hf.
  - destruct (filter (hasSeverity s) l); [reflexivity|].
    now rewrite <- app_assoc.
  - reflexivity.
Qed.

(** [groupBySeverity] gives, for a severity, the findings of that severity
    in their order, and no group for a severity without findings; listing
    the groups of a scan result in the order of the terminal report gives
    the findings in the order of the result. *)
Theorem groupBySeverity_spec host net context options :
  (forall l s,
      groupGet (groupBySeverity l) s
      = match filter (hasSeverity s) l with
        | [] => None
        | fs => Some fs
        end)
  /\ flat_map (fun s =>
                 match groupGet (groupBySeverity
                                   (findings (fst (analyze host net context
                                                           options)))) s with
                 | Some fs => fs
                 | None => []
                 end) reportOrder
     = findings (fst (analyze host net context options)).
Proof.
  assert (G : forall l s,
             groupGet (groupBySeverity l) s
             = match filter (hasSeverity s) l with
               | [] => None
               | fs => Some fs
               end).
  { intros l s. unfold groupBySeverity. rewrite groupGet_fold. reflexivity. }
  split; [exact G|].
  set (l := findings (fst (analyze host net context options))).
  assert (Hs : StronglySorted le_severity l).
  { unfold l. rewrite analyze_findings. apply sort_sorted. }
  transitivity (bucketsBySeverity l); [|now apply sorted_buckets].
  unfold reportOrder, bucketsBySeverity. cbn [flat_map].
  rewrite !G, app_nil_r.
  repeat match goal with
         | |- context [filter (hasSeverity ?s) l] =>
             destruct (filter (hasSeverity s) l)
         end; reflexivity.
Qed.

Lemma exitCode_first_finding_witness :
  exitCode (summary (fst (analyze noHost (offlineNet 0) ctx_unmapped_scope
                                  (optionsOf true info None None)))) = 3
  /\ exitCode (summary (fst (analyze noHost (offlineNet 0) ctx_unmapped_scope
                                     (optionsOf true low None None)))) <> 0.
Proof.
  destruct (exitCode_first_finding noHost (offlineNet 0) ctx_unmapped_scope
              (optionsOf true info None None)) as [Hfirst _].
  destruct (exitCode_first_finding noHost (offlineNet 0) ctx_unmapped_scope
              (optionsOf true low None None)) as [_ Hzero].
  split.
  - rewrite Hfirst. vm_compute. reflexivity.
  - intros Z. apply Hzero in Z. vm_compute in Z. inversion Z as [|f l Hf _].
    destruct Hf; discriminate.
Defined.

(* ================================================================= *)
(** * The scans *)

Section ScanFacts.
Variable JSON_parse : JsonParser.
Variable fs : FileSystem.
Variable host : string -> option string.
Variable proc : Process.

(** The dialect of the table that [parseLockfile] returns follows the files
    present, package-lock.json before yarn.lock before pnpm-lock.yaml; it
    returns no table exactly when none of the three exists; and it throws
    only when package-lock.json exists. *)
Theorem parseLockfile_dialect rootDir :
  let npmLock := fs (resolve rootDir "package-lock.json") in
  let yarnLock := fs (resolve rootDir "yarn.lock") in
  let pnpmLock := fs (resolve rootDir "pnpm-lock.yaml") in
  (forall lf, parseLockfile JSON_parse fs rootDir = Returns (Some lf) ->
              lock_type lf
              = match npmLock, yarnLock with
                | Some _, _ => npm
                | None, Some _ => yarn
                | None, None => pnpm
                end)
  /\ (parseLockfile JSON_parse fs rootDir = Returns None
      <-> npmLock = None /\ yarnLock = None /\ pnpmLock = None)
  /\ (npmLock = None -> parseLockfile JSON_parse fs rootDir <> Throws)
  /\ parseLockfile JSON_parse fs rootDir <> Untyped.
Proof.
  cbv zeta. unfold parseLockfile.
  destruct (fs (resolve rootDir "package-lock.json")) as [c|].
  - destruct (JSON_parse c) as [raw|].
    + destruct (parseNpmLockfile raw) as [lf|] eqn:E.
      * repeat split; try discriminate.
        -- intros lf' H. inversion H; subst.
           unfold parseNpmLockfile in E.
           destruct raw; try discriminate;
             repeat match type of E with
                    | match ?x with _ => _ end = _ =>
                        destruct x; try discriminate
                    end; inversion E; reflexivity.
        -- intros (H & _). discriminate.
      * repeat split; try discriminate. intros (H & _). discriminate.
    + repeat split; try discriminate. intros (H & _). discriminate.
  - destruct (fs (resolve rootDir "yarn.lock")) as [c|].
    + repeat split; try discriminate.
      * intros lf H. inversion H. reflexivity.
      * intros (_ & H & _). discriminate.
    + destruct (fs (resolve rootDir "pnpm-lock.yaml")) as [c|].
      * repeat split; try discriminate.
        -- intros lf H. inversion H. reflexivity.
        -- intros (_ & _ & H). discriminate.
      * repeat split; discriminate.
Qed.


Lemma scanForConfusion_analyze net overrides r :
  scanForConfusion JSON_parse fs host proc net overrides = Returns r ->
  exists context options, r = analyze host net context options.
Proof.
  unfold scanForConfusion.
  destruct (parsePackageJson JSON_parse fs
              (cfg_rootDir (buildConfig proc overrides))) as [pj| |];
    destruct (parseLockfile JSON_parse fs
                (cfg_rootDir (buildConfig proc overrides))) as [lf| |];
    try discriminate.
  intros H. inversion H. eauto.
Qed.

End ScanFacts.

Lemma parseLockfile_dialect_witness :
  lock_type (parseYarnLockfile yarn_two_versions) = yarn
  /\ parseLockfile sampleJson fs_app "/repo" <> Throws
  /\ parseLockfile sampleJson (fun _ => None) "/repo" = Returns None.
Proof.
  destruct (parseLockfile_dialect sampleJson fs_app "/repo")
    as (Hdialect & _ & Hthrows & _).
  destruct (parseLockfile_dialect sampleJson (fun _ => None) "/repo")
    as (_ & Hnone & _ & _).
  split; [|split].
  - apply (Hdialect (parseYarnLockfile yarn_two_versions)). reflexivity.
  - apply Hthrows. reflexivity.
  - apply Hnone. repeat split.
Defined.


(* ================================================================= *)
(** * The scan of a workspace *)

Lemma buildSummary_app l1 l2 :
  buildSummary (l1 ++ l2) = addSummary (buildSummary l1) (buildSummary l2).
Proof.
  unfold buildSummary, addSummary, countSeverity. simpl.
  now rewrite !filter_app, !length_app.
Qed.

Lemma addSummary_empty a : addSummary a emptySummary = a.
Proof.
  destruct a. unfold addSummary. simpl. now rewrite !Nat.add_0_r.
Qed.

Lemma summaries_add results :
  Forall summarised results ->
  fold_right addSummary emptySummary
             (map (fun pr => summary (wpr_result pr)) results)
  = buildSummary (flat_map (fun pr => findings (wpr_result pr)) results).
Proof.
  induction 1 as [|pr results Hpr _ IH]; [reflexivity|].
  cbn [map fold_right flat_map]. rewrite IH, buildSummary_app.
  now rewrite Hpr.
Qed.

Lemma Subsequence_refl A (l : list A) : Subsequence l l.
Proof.
  induction l; [apply Subsequence_nil | now apply Subsequence_keep].
Qed.

Lemma Subsequence_snoc A (l1 l2 : list A) x :
  Subsequence l1 l2 ->
  Subsequence l1 (l2 ++ [x]) /\ Subsequence (l1 ++ [x]) (l2 ++ [x]).
Proof.
  induction 1 as [|y l1 l2 _ [IH1 IH2]|y l1 l2 _ [IH1 IH2]]; simpl.
  - split.
    + apply Subsequence_skip, Subsequence_nil.
    + apply Subsequence_keep, Subsequence_nil.
  - split; apply Subsequence_skip; assumption.
  - split; apply Subsequence_keep; assumption.
Qed.

Section WorkspaceFacts.
Variable JSON_parse : JsonParser.
Variable fs : FileSystem.
Variable host : string -> option string.
Variable proc : Process.
Variable resolveWorkspacePatterns : PatternResolver.
Variable nets : nat -> Network.

Lemma scanPackage_within overrides k name path acc results' keys :
  (forall results, acc = Returns results -> resultsWithin keys results) ->
  scanPackage JSON_parse fs host proc nets overrides k name path acc
  = Returns results' ->
  resultsWithin (keys ++ [(name, path)]) results'.
Proof.
  intros Hacc. unfold scanPackage.
  destruct acc as [results| |]; try discriminate.
  destruct (Hacc results eq_refl) as [Hsum Hsub].
  destruct (scanForConfusion JSON_parse fs host proc (nets k)
              (withRootDir overrides path)) as [r| |] eqn:E;
    try discriminate; intros H; inversion H; subst results'; clear H.
  - destruct (scanForConfusion_analyze _ _ _ _ _ _ E) as (ctx & opts & ->).
    split.
    + apply Forall_app. split; [assumption|].
      constructor; [|constructor]. unfold summarised. simpl.
      apply analyze_summary.
    + rewrite map_app. simpl.
      apply (Subsequence_snoc (name, path) Hsub).
  - split; [assumption|]. apply (Subsequence_snoc (name, path) Hsub).
Qed.

Lemma scanPackages_within overrides pkgs k acc results' keys :
  (forall results, acc = Returns results -> resultsWithin keys results) ->
  scanPackages JSON_parse fs host proc nets overrides k pkgs acc
  = Returns results' ->
  resultsWithin (keys ++ map packageKey pkgs) results'.
Proof.
  revert k acc keys. induction pkgs as [|pkg pkgs IH]; intros k acc keys Hacc.
  - simpl. rewrite app_nil_r. intros H. now apply Hacc.
  - cbn [scanPackages map]. intros H.
    replace (keys ++ packageKey pkg :: map packageKey pkgs)
      with ((keys ++ [packageKey pkg]) ++ map packageKey pkgs)
      by now rewrite <- app_assoc.
    eapply IH; [|exact H].
    intros results Hr. eapply scanPackage_within; eassumption.
Qed.

(** The combined summary of a workspace scan counts the findings of all
    package results, and it is the sum, count by count, of the summaries of
    the package results. *)
Theorem scanWorkspace_summary overrides wsr :
  scanWorkspace JSON_parse fs host proc resolveWorkspacePatterns nets overrides
  = Returns wsr ->
  combinedSummary wsr
  = buildSummary (flat_map (fun pr => findings (wpr_result pr))
                           (packageResults wsr))
  /\ combinedSummary wsr
     = fold_right addSummary emptySummary
                  (map (fun pr => summary (wpr_result pr)) (packageResults wsr)).
Proof.
  unfold scanWorkspace.
  destruct (detectWorkspace JSON_parse fs resolveWorkspacePatterns _)
    as [[ws|]| |]; try discriminate.
  - destruct (scanPackages _ _ _ _ _ _ _ _ _) as [results| |] eqn:E;
      try discriminate.
    intros H. inversion H; subst wsr; clear H. simpl.
    split; [reflexivity|].
    apply scanPackages_within with (keys := [("root", cfg_rootDir
                                               (buildConfig proc overrides))])
      in E.
    + destruct E as [Hsum _]. now rewrite summaries_add.
    + intros results0 Hr.
      replace [("root", cfg_rootDir (buildConfig proc overrides))]
        with ([] ++ [("root", cfg_rootDir (buildConfig proc overrides))])
        by reflexivity.
      eapply scanPackage_within; [|exact Hr].
      intros r0 Hr0. inversion Hr0. split; constructor.
  - destruct (scanForConfusion _ _ _ _ _ _) as [r| |] eqn:E; try discriminate.
    intros H. inversion H; subst wsr; clear H. simpl.
    destruct (scanForConfusion_analyze _ _ _ _ _ _ E) as (ctx & opts & ->).
    rewrite app_nil_r, addSummary_empty. split; [apply analyze_summary|].
    reflexivity.
Qed.


End WorkspaceFacts.

Lemma scanWorkspace_summary_witness :
  exists wsr,
    scanWorkspace sampleJson fs_workspace noHost (processAt "/ws")
                  resolver_workspace offlineNet noOverrides = Returns wsr
    /\ map wpr_packageName (packageResults wsr) = ["root"; "@acme/ui"]
    /\ combinedSummary wsr
       = fold_right addSummary emptySummary
                    (map (fun pr => summary (wpr_result pr))
                         (packageResults wsr)).
Proof.
  destruct (scanWorkspace sampleJson fs_workspace noHost (processAt "/ws")
                          resolver_workspace offlineNet noOverrides)
    as [wsr| |] eqn:E; [|vm_compute in E; discriminate ..].
  exists wsr. split; [reflexivity|]. split.
  - vm_compute in E. inversion E. reflexivity.
  - exact (proj2 (scanWorkspace_summary _ _ _ _ _ _ _ E)).
Defined.


(* ================================================================= *)
(** * Workspace detection *)

(** Without a package.json no workspace is detected, whatever else the
    directory holds.  A detected workspace is rooted at the directory asked
    for and comes from at least one pattern; its type is [yarn] or [npm] as
    yarn.lock exists or not when the patterns come from the manifest, and
    [pnpm] only when pnpm-workspace.yaml exists and lists a pattern. *)
Theorem detectWorkspace_spec JSON_parse fs resolveWorkspacePatterns rootDir :
  (fs (resolve rootDir "package.json") = None ->
   detectWorkspace JSON_parse fs resolveWorkspacePatterns rootDir
   = Returns None)
  /\ (forall ws,
         detectWorkspace JSON_parse fs resolveWorkspacePatterns rootDir
         = Returns (Some ws) ->
         ws_rootDir ws = rootDir
         /\ (exists patterns,
                patterns <> []
                /\ ws_packages ws = resolveWorkspacePatterns rootDir patterns)
         /\ (ws_type ws = yarn -> fs (resolve rootDir "yarn.lock") <> None)
         /\ (ws_type ws = npm -> fs (resolve rootDir "yarn.lock") = None)
         /\ (ws_type ws = pnpm ->
             exists content,
               fs (resolve rootDir "pnpm-workspace.yaml") = Some content
               /\ parsePnpmWorkspaceYaml content <> [])).
Proof.
  unfold detectWorkspace. split.
  - intros ->. reflexivity.
  - intros ws.
    destruct (fs (resolve rootDir "package.json")) as [manifest|];
      [|discriminate].
    destruct (JSON_parse manifest) as [raw|]; [|discriminate].
    set (fromManifest :=
           match Js.prop raw "workspaces" with
           | Some workspaces =>
               if jsonTruthy workspaces
               then extractWorkspacePatterns workspaces else []
           | None => []
           end).
    assert (G :
      (if 0 <? List.length fromManifest
       then Returns (Some {| ws_type :=
                               match fs (resolve rootDir "yarn.lock") with
                               | Some _ => yarn
                               | None => npm
                               end;
                             ws_rootDir := rootDir;
                             ws_packages :=
                               resolveWorkspacePatterns rootDir fromManifest |})
       else match fs (resolve rootDir "pnpm-workspace.yaml") with
            | Some content =>
                if 0 <? List.length (parsePnpmWorkspaceYaml content)
                then Returns (Some {| ws_type := pnpm;
                                      ws_rootDir := rootDir;
                                      ws_packages :=
                                        resolveWorkspacePatterns rootDir
                                          (parsePnpmWorkspaceYaml content) |})
                else Returns None
            | None => Returns None
            end) = Returns (Some ws) ->
      ws_rootDir ws = rootDir
      /\ (exists patterns,
             patterns <> []
             /\ ws_packages ws = resolveWorkspacePatterns rootDir patterns)
      /\ (ws_type ws = yarn -> fs (resolve rootDir "yarn.lock") <> None)
      /\ (ws_type ws = npm -> fs (resolve rootDir "yarn.lock") = None)
      /\ (ws_type ws = pnpm ->
          exists content,
            fs (resolve rootDir "pnpm-workspace.yaml") = Some content
            /\ parsePnpmWorkspaceYaml content <> [])).
    { destruct (0 <? List.length fromManifest) eqn:L.
      - intros H. inversion H; subst ws; clear H. simpl.
        split; [reflexivity|]. split.
        + exists fromManifest. split; [|reflexivity].
          destruct fromManifest; [discriminate L | discriminate].
        + destruct (fs (resolve rootDir "yarn.lock"));
            repeat split; congruence.
      - destruct (fs (resolve rootDir "pnpm-workspace.yaml")) as [content|];
          [|discriminate].
        destruct (0 <? List.length (parsePnpmWorkspaceYaml content)) eqn:P;
          [|discriminate].
        assert (Hne : parsePnpmWorkspaceYaml content <> [])
          by (destruct (parsePnpmWorkspaceYaml content);
              [discriminate P | discriminate]).
        intros H. inversion H; subst ws; clear H. simpl.
        split; [reflexivity|]. split; [eauto|].
        repeat split; try discriminate. eauto. }
    destruct raw; try exact G. discriminate.
Qed.

Lemma detectWorkspace_spec_witness :
  detectWorkspace sampleJson (fun _ => None) resolver_workspace "/ws"
  = Returns None.
Proof.
  apply (detectWorkspace_spec sampleJson (fun _ => None) resolver_workspace
                              "/ws").
  reflexivity.
Defined.

(** A pnpm-workspace.yaml without a [packages:] line lists no pattern. *)
Theorem parsePnpmWorkspaceYaml_no_packages content :
  Forall (fun line => Str.trim line <> "packages:")
         (Str.split content Str.newline) ->
  parsePnpmWorkspaceYaml content = [].
Proof.
  unfold parsePnpmWorkspaceYaml.
  induction 1 as [|line lines Hl _ IH]; [reflexivity|].
  cbn [workspaceYamlLines].
  destruct (String.eqb (Str.trim line) "packages:") eqn:E.
  - apply String.eqb_eq in E. contradiction.
  - exact IH.
Qed.

Lemma parsePnpmWorkspaceYaml_no_packages_witness :
  parsePnpmWorkspaceYaml workspace_yaml_no_packages = [].
Proof.
  apply parsePnpmWorkspaceYaml_no_packages.
  vm_compute. repeat constructor; discriminate.
Defined.

(* ================================================================= *)
(** * What the regular expressions of the parsers accept *)

Section MatcherFacts.
Import Regex.

Lemma Matches_steps r s w s' :
  Matches r s w s' -> rest s = w ++ rest s' /\ pre s' = rev w ++ pre s.
Proof.
  induction 1 as [ s | p s c t Hr Hp
                 | r1 r2 s w1 s1 w2 s2 _ [IH1 IH1'] _ [IH2 IH2']
                 | r1 r2 s w s' _ IH | r1 r2 s w s' _ IH
                 | g r s
                 | g r s w1 s1 w2 s2 _ [IH1 IH1'] _ [IH2 IH2']
                 | n r s w s' _ IH | m s Hb | m s He | r s w s' _ IH ];
    simpl; auto.
  - rewrite IH1, IH2, IH2', IH1', rev_app_distr, <- !app_assoc. auto.
  - rewrite IH1, IH2, IH2', IH1', rev_app_distr, <- !app_assoc. auto.
Qed.

Lemma between_steps s w s' :
  pre s' = rev w ++ pre s -> between s s' = w.
Proof.
  intros H. unfold between. rewrite H, length_app, Nat.add_sub.
  rewrite firstn_app, Nat.sub_diag, firstn_all. simpl.
  now rewrite app_nil_r, rev_involutive.
Qed.

(** Whatever the matcher finds, the expression accepts. *)
Lemma run_sound r :
  forall k s sf,
    run r k s = Some sf ->
    exists w s', Matches r s w s' /\ k s' = Some sf.
Proof.
  induction r as [ | p | r1 IH1 r2 IH2 | r1 IH1 r2 IH2 | g r1 IH1
                 | n r1 IH1 | m | m | r1 IH1 ]; intros k s sf; simpl.
  - intros H. exists [], s. split; [constructor | assumption].
  - destruct s as [p0 [|c t] c0]; simpl; [discriminate|].
    destruct (p c) eqn:Hp; [|discriminate].
    intros H. eexists [c], _. split; [|exact H].
    now apply (M_Cls p (MState p0 (c :: t) c0) (c := c) (t := t)).
  - intros H. apply IH1 in H. destruct H as (w1 & s1 & M1 & H).
    apply IH2 in H. destruct H as (w2 & s2 & M2 & H).
    exists (w1 ++ w2), s2. split; [econstructor; eassumption | assumption].
  - unfold or_else. destruct (run r1 k s) as [x|] eqn:E.
    + intros H. inversion H; subst x. apply IH1 in E.
      destruct E as (w & s' & M & H'). exists w, s'.
      split; [now apply M_AltL | assumption].
    + intros H. apply IH2 in H. destruct H as (w & s' & M & H').
      exists w, s'. split; [now apply M_AltR | assumption].
  - generalize (List.length (rest s)). intros fuel. revert s.
    induction fuel as [|fuel IHf]; intros s.
    + intros H. exists [], s. split; [constructor | assumption].
    + set (again := run r1 _ s).
      assert (Hagain : again = Some sf ->
                       exists w s', Matches (Star g r1) s w s'
                                    /\ k s' = Some sf).
      { unfold again. intros H. apply IH1 in H.
        destruct H as (w1 & s1 & M1 & H).
        destruct (List.length (rest s1) <? List.length (rest s));
          [|discriminate].
        apply IHf in H. destruct H as (w2 & s2 & M2 & H).
        exists (w1 ++ w2), s2. split; [econstructor; eassumption | assumption]. }
      assert (Hstop : k s = Some sf ->
                      exists w s', Matches (Star g r1) s w s'
                                   /\ k s' = Some sf).
      { intros H. exists [], s. split; [constructor | assumption]. }
      unfold or_else. destruct g.
      * destruct again; [intros H; apply Hagain; assumption | assumption].
      * destruct (k s); [intros H; apply Hstop; assumption | assumption].
  - intros H. apply IH1 in H. destruct H as (w & s' & M & H).
    pose proof (Matches_steps M) as [_ Hpre].
    rewrite (@between_steps _ _ _ Hpre) in H.
    eexists w, _. split; [apply M_Grp; eassumption | exact H].
  - destruct (at_bol m s) eqn:E; [|discriminate].
    intros H. exists [], s. split; [now constructor | assumption].
  - destruct (at_eol m s) eqn:E; [|discriminate].
    intros H. exists [], s. split; [now constructor | assumption].
  - destruct (run r1 Some s) as [x|] eqn:E; [|discriminate].
    apply IH1 in E. destruct E as (w & s' & M & _).
    intros H. exists [], s. split; [econstructor; eassumption | assumption].
Qed.

(** One turn of a repetition of a character class. *)
Lemma run_star_step g p k s c t :
  rest s = c :: t -> p c = true ->
  run (Star g (Cls p)) k s
  = let again := run (Star g (Cls p)) k (MState (c :: pre s) t (caps s)) in
    if g then or_else again (fun _ => k s)
    else or_else (k s) (fun _ => again).
Proof.
  destruct s as [p0 r0 c0]. simpl. intros Hr Hp. subst r0.
  cbn -[Nat.ltb]. rewrite Hp.
  assert (L : (List.length t <? S (List.length t)) = true)
    by (apply Nat.ltb_lt; lia).
  rewrite L. reflexivity.
Qed.

(** Whatever an expression accepts, the matcher finds a match, when every
    repetition of the expression is of a character class. *)
Lemma run_complete r s w s' :
  Matches r s w s' ->
  starsOverClasses r = true ->
  forall k x, k s' = Some x -> exists y, run r k s = Some y.
Proof.
  induction 1 as [ s | p s c t Hr Hp
                 | r1 r2 s w1 s1 w2 s2 _ IH1 _ IH2
                 | r1 r2 s w s' _ IH | r1 r2 s w s' _ IH
                 | g r s
                 | g r s w1 s1 w2 s2 M1 _ _ IH2
                 | n r s w s' M IH | m s Hb | m s He | r s w s' _ IH ];
    intros Hs k x Hk.
  - exists x. exact Hk.
  - exists x. simpl. rewrite Hr. cbn iota beta. now rewrite Hp.
  - simpl in Hs. apply andb_true_iff in Hs. destruct Hs as [Hs1 Hs2].
    destruct (IH2 Hs2 k x Hk) as [y Hy].
    simpl. now apply (IH1 Hs1 _ y).
  - simpl in Hs. apply andb_true_iff in Hs. destruct Hs as [Hs1 _].
    destruct (IH Hs1 k x Hk) as [y Hy]. exists y. simpl. now rewrite Hy.
  - simpl in Hs. apply andb_true_iff in Hs. destruct Hs as [_ Hs2].
    destruct (IH Hs2 k x Hk) as [y Hy]. simpl. unfold or_else.
    destruct (run r1 k s) as [z|]; [now exists z | now exists y].
  - simpl. destruct (List.length (rest s)); [now exists x|].
    unfold or_else. destruct g.
    + match goal with |- context [match ?a with Some _ => _ | None => _ end] =>
        destruct a as [z|] end; [now exists z | now exists x].
    + rewrite Hk. now exists x.
  - destruct r as [ | p | | | | | | | ]; try discriminate Hs.
    inversion M1 as [ | p' s0 c t Hr Hp | | | | | | | | | ]; subst.
    destruct (IH2 Hs k x Hk) as [y Hy].
    rewrite (run_star_step g p k s Hr Hp), Hy. unfold or_else.
    destruct g; [now exists y|].
    destruct (k s) as [z|]; [now exists z | now exists y].
  - simpl in Hs. simpl.
    pose proof (Matches_steps M) as [_ Hpre].
    apply (IH Hs) with (x := x).
    now rewrite (@between_steps _ _ _ Hpre).
  - exists x. simpl. now rewrite Hb.
  - exists x. simpl. now rewrite He.
  - simpl in Hs. destruct (IH Hs Some s' eq_refl) as [y Hy].
    exists x. simpl. now rewrite Hy.
Qed.

End MatcherFacts.

Section MatchShapes.
Import Regex.

Lemma Matches_groupFree r s w s' :
  Matches r s w s' -> groupFree r = true -> caps s' = caps s.
Proof.
  induction 1 as [ s | p s c t Hr Hp
                 | r1 r2 s w1 s1 w2 s2 _ IH1 _ IH2
                 | r1 r2 s w s' _ IH | r1 r2 s w s' _ IH
                 | g r s
                 | g r s w1 s1 w2 s2 _ IH1 _ IH2
                 | n r s w s' _ IH | m s Hb | m s He | r s w s' _ IH ];
    simpl; intros G; auto; try discriminate.
  - apply andb_true_iff in G. destruct G as [G1 G2].
    now rewrite (IH2 G2), (IH1 G1).
  - apply andb_true_iff in G. destruct G as [G1 G2]. auto.
  - apply andb_true_iff in G. destruct G as [G1 G2]. auto.
  - now rewrite (IH2 G), (IH1 G).
Qed.

Lemma Matches_seq_inv r1 r2 s w s' :
  Matches (Seq r1 r2) s w s' ->
  exists w1 s1 w2,
    w = w1 ++ w2 /\ Matches r1 s w1 s1 /\ Matches r2 s1 w2 s'.
Proof.
  inversion 1; subst. eauto 6.
Qed.

Lemma Matches_cls_inv p s w s' :
  Matches (Cls p) s w s' ->
  exists c, w = [c] /\ p c = true /\ caps s' = caps s.
Proof.
  inversion 1; subst. eauto.
Qed.

Lemma Matches_chr_inv c s w s' :
  Matches (chr c) s w s' -> w = [c] /\ caps s' = caps s.
Proof.
  intros M. apply Matches_cls_inv in M. destruct M as (c' & Hw & Hc & Hcaps).
  apply Ascii.eqb_eq in Hc. subst. auto.
Qed.

Lemma Matches_star_cls_inv g p s w s' :
  Matches (Star g (Cls p)) s w s' ->
  Forall (fun c => p c = true) w /\ caps s' = caps s.
Proof.
  intros M. remember (Star g (Cls p)) as r eqn:E.
  induction M as [ | | | | | g' r' s
                 | g' r' s w1 s1 w2 s2 M1 _ _ IH2 | | | | ];
    try discriminate E.
  - auto.
  - inversion E; subst g' r'.
    destruct (IH2 eq_refl) as [F C].
    apply Matches_cls_inv in M1. destruct M1 as (c & Hw & Hc & Hcaps).
    subst w1. split; [constructor; assumption | congruence].
Qed.

Lemma Matches_plus_cls_inv p s w s' :
  Matches (plus (Cls p)) s w s' ->
  w <> [] /\ Forall (fun c => p c = true) w /\ caps s' = caps s.
Proof.
  intros M. apply Matches_seq_inv in M.
  destruct M as (w1 & s1 & w2 & Hw & M1 & M2).
  apply Matches_cls_inv in M1. destruct M1 as (c & Hw1 & Hc & C1).
  apply Matches_star_cls_inv in M2. destruct M2 as [F C2].
  subst. split; [discriminate|]. split; [constructor; assumption | congruence].
Qed.

Lemma Matches_grp_inv n r s w s' :
  Matches (Grp n r) s w s' ->
  exists s1, Matches r s w s1 /\ caps s' = (n, w) :: caps s1.
Proof.
  inversion 1; subst. eauto.
Qed.

Lemma Matches_bol_inv r s w s' :
  Matches (Seq (Bol false) r) s w s' -> pre s = [] /\ Matches r s w s'.
Proof.
  intros M. apply Matches_seq_inv in M.
  destruct M as (w1 & s1 & w2 & Hw & M1 & M2).
  inversion M1 as [ | | | | | | | | m s0 Hb | | ]; subst.
  unfold at_bol in Hb. destruct (pre s1); [auto | discriminate].
Qed.

Lemma Matches_opt_cls_inv p s w s' :
  Matches (opt (Cls p)) s w s' ->
  (w = [] \/ exists c, w = [c] /\ p c = true) /\ caps s' = caps s.
Proof.
  inversion 1 as [ | | | r1 r2 s0 w0 s0' M | r1 r2 s0 w0 s0' M | | | | | | ];
    subst.
  - apply Matches_cls_inv in M. destruct M as (c & Hw & Hc & C). eauto.
  - inversion M; subst. auto.
Qed.

(** How to match a run of characters of a class. *)
Lemma Matches_star_cls g p w :
  Forall (fun c => p c = true) w ->
  forall before t c,
    Matches (Star g (Cls p)) (MState before (w ++ t) c) w
            (MState (rev w ++ before) t c).
Proof.
  induction 1 as [|a w Ha _ IH]; intros before t c.
  - apply M_StarNil.
  - change (a :: w) with ([a] ++ w) at 2.
    replace (rev (a :: w) ++ before) with (rev w ++ a :: before)
      by (simpl; now rewrite <- app_assoc).
    eapply M_StarCons; [|apply IH].
    now apply (M_Cls p (MState before ((a :: w) ++ t) c) (c := a) (t := w ++ t)).
Qed.

Lemma Matches_plus_cls p w :
  w <> [] -> Forall (fun c => p c = true) w ->
  forall before t c,
    Matches (plus (Cls p)) (MState before (w ++ t) c) w
            (MState (rev w ++ before) t c).
Proof.
  intros Hw F before t c. destruct w as [|a w]; [contradiction|].
  inversion F as [|a' w' Ha F']; subst.
  change (a :: w) with ([a] ++ w) at 2.
  replace (rev (a :: w) ++ before) with (rev w ++ a :: before)
    by (simpl; now rewrite <- app_assoc).
  eapply M_Seq; [|now apply Matches_star_cls].
  now apply (M_Cls p (MState before ((a :: w) ++ t) c) (c := a) (t := w ++ t)).
Qed.

Lemma Matches_chr a before t c :
  Matches (chr a) (MState before (a :: t) c) [a] (MState (a :: before) t c).
Proof.
  apply (M_Cls (Ascii.eqb a) (MState before (a :: t) c) (c := a) (t := t)).
  - reflexivity.
  - apply Ascii.eqb_refl.
Qed.

(** What [exec] finds, the expression accepts somewhere in the subject. *)
Lemma search_sound r after before f :
  search r before after = Some f ->
  exists skipped a w s',
    after = skipped ++ a
    /\ Matches r (MState (rev skipped ++ before) a []) w s'
    /\ groups f = caps s'
    /\ whole f = Str.of_chars w.
Proof.
  revert before. induction after as [|c t IH]; intros before; simpl.
  - unfold match_here. destruct (run r Some _) as [s'|] eqn:E; [|discriminate].
    intros H. inversion H; subst f. clear H.
    apply run_sound in E. destruct E as (w & s1 & M & E). inversion E; subst s1.
    exists [], [], w, s'. simpl. repeat split; auto.
    pose proof (Matches_steps M) as [_ Hpre].
    now rewrite (@between_steps _ _ _ Hpre).
  - unfold match_here at 1.
    destruct (run r Some (MState before (c :: t) [])) as [s'|] eqn:E.
    + intros H. inversion H; subst f. clear H.
      apply run_sound in E. destruct E as (w & s1 & M & E).
      inversion E; subst s1.
      exists [], (c :: t), w, s'. simpl. repeat split; auto.
      pose proof (Matches_steps M) as [_ Hpre].
      now rewrite (@between_steps _ _ _ Hpre).
    + intros H. apply IH in H.
      destruct H as (skipped & a & w & s' & Ht & M & G & W).
      exists (c :: skipped), a, w, s'. simpl.
      rewrite <- app_assoc. simpl. subst t. auto.
Qed.

Lemma exec_sound r s f :
  exec r s = Some f ->
  exists skipped a w s',
    Str.chars s = skipped ++ a
    /\ Matches r (MState (rev skipped) a []) w s'
    /\ groups f = caps s'
    /\ whole f = Str.of_chars w.
Proof.
  unfold exec. intros H. apply search_sound in H.
  destruct H as (skipped & a & w & s' & Ht & M & G & W).
  rewrite app_nil_r in M. eauto 10.
Qed.

(** An expression anchored at the start is matched at the start. *)
Lemma exec_anchored_sound r s f :
  exec (Seq (Bol false) r) s = Some f ->
  exists w s',
    Matches r (start (Str.chars s)) w s'
    /\ Str.chars s = w ++ rest s'
    /\ groups f = caps s'.
Proof.
  intros H. apply exec_sound in H.
  destruct H as (skipped & a & w & s' & Ht & M & G & W).
  apply Matches_bol_inv in M. destruct M as [Hpre M]. simpl in Hpre.
  assert (skipped = []) by (destruct skipped; [reflexivity|];
                            simpl in Hpre; now destruct (rev skipped)).
  subst skipped. simpl in *. subst a.
  exists w, s'. split; [exact M|]. split; [|exact G].
  now destruct (Matches_steps M).
Qed.

Lemma test_anchored_complete r s w s' :
  Matches r (start (Str.chars s)) w s' ->
  starsOverClasses r = true ->
  test (Seq (Bol false) r) s = true.
Proof.
  intros M Hs. unfold test, exec.
  assert (M' : Matches (Seq (Bol false) r) (start (Str.chars s)) ([] ++ w) s').
  { eapply M_Seq; [|exact M]. now constructor. }
  destruct (@run_complete _ _ _ _ M' Hs Some s' eq_refl) as [y Hy].
  destruct (Str.chars s) as [|c t]; simpl; unfold match_here;
    unfold start in Hy; now rewrite Hy.
Qed.

End MatchShapes.

Section PinnedFacts.

Lemma strip_prefix_head a p l :
  Str.strip_prefix (a :: p) l <> None -> Str.strip_prefix [a] l <> None.
Proof.
  destruct l as [|b l]; simpl; auto.
  destruct (Ascii.eqb a b); [discriminate | auto].
Qed.

Lemma includes_chars_head a p l :
  Str.includes_chars [a] l = false -> Str.includes_chars (a :: p) l = false.
Proof.
  induction l as [|b l IH].
  - reflexivity.
  - cbn [Str.includes_chars]. intros H.
    destruct (Str.strip_prefix [a] (b :: l)) eqn:E1; [discriminate|].
    destruct (Str.strip_prefix (a :: p) (b :: l)) eqn:E2.
    + exfalso. apply (@strip_prefix_head a p (b :: l)); congruence.
    + auto.
Qed.

Lemma includes_chars_one a l :
  Str.includes_chars [a] l = false <-> ~ In a l.
Proof.
  induction l as [|b l IH]; simpl.
  - tauto.
  - destruct (Ascii.eqb a b) eqn:E.
    + apply Ascii.eqb_eq in E. subst. split; [discriminate | intros H; exfalso; auto].
    + apply Ascii.eqb_neq in E. rewrite IH. split.
      * intros H [H'|H']; [congruence | auto].
      * intros H H'. auto.
Qed.

Lemma test_exact_version v :
  test re_exact_version v = true <-> startsWithVersion v.
Proof.
  change re_exact_version
    with (Seq (Bol false)
              (Seq (plus digit)
                   (Seq (chr ".")
                        (Seq (plus digit) (Seq (chr ".") (plus digit)))))).
  split.
  - unfold test. destruct (exec _ v) as [f|] eqn:E; [|discriminate].
    intros _. apply exec_anchored_sound in E.
    destruct E as (w & s' & M & Hv & _).
    apply Matches_seq_inv in M. destruct M as (major & s1 & w1 & Hw & M1 & M).
    apply Matches_seq_inv in M. destruct M as (d1 & s2 & w2 & Hw1 & D1 & M).
    apply Matches_seq_inv in M. destruct M as (minor & s3 & w3 & Hw2 & M2 & M).
    apply Matches_seq_inv in M. destruct M as (d2 & s4 & patch & Hw3 & D2 & M3).
    apply Matches_plus_cls_inv in M1. destruct M1 as (N1 & F1 & _).
    apply Matches_plus_cls_inv in M2. destruct M2 as (N2 & F2 & _).
    apply Matches_plus_cls_inv in M3. destruct M3 as (N3 & F3 & _).
    apply Matches_chr_inv in D1. destruct D1 as [D1 _].
    apply Matches_chr_inv in D2. destruct D2 as [D2 _].
    subst. exists major, minor, patch, (rest s').
    split; [|repeat split; assumption].
    rewrite Hv. now rewrite <- !app_assoc.
  - intros (major & minor & patch & tail & Hv & [N1 F1] & [N2 F2] & [N3 F3]).
    assert (M : Matches
                  (Seq (plus digit)
                       (Seq (chr ".")
                            (Seq (plus digit) (Seq (chr ".") (plus digit)))))
                  (start (Str.chars v))
                  (major ++ ["."%char] ++ minor ++ ["."%char] ++ patch)
                  (MState (rev patch ++ "."%char :: rev minor
                                 ++ "."%char :: rev major ++ [])
                          tail [])).
    { unfold start. rewrite Hv.
      eapply M_Seq; [now apply Matches_plus_cls|].
      eapply M_Seq; [apply Matches_chr|].
      eapply M_Seq; [now apply Matches_plus_cls|].
      eapply M_Seq; [apply Matches_chr|].
      now apply Matches_plus_cls. }
    apply (test_anchored_complete _ M). reflexivity.
Qed.

Lemma digit_first v :
  startsWithVersion v ->
  exists c rest, v = String c rest /\ Str.is_digit c = true.
Proof.
  intros (major & minor & patch & tail & Hv & [N1 F1] & _).
  destruct major as [|c major]; [contradiction|].
  inversion F1; subst.
  destruct v as [|c' v]; [discriminate|].
  simpl in Hv. inversion Hv; subst. eauto.
Qed.

End PinnedFacts.

(** A version is pinned exactly when it begins with three runs of digits
    separated by dots and holds no [<], no [>] and no [||]: what follows the
    third number is not examined any further, and a version that begins with
    an operator, a letter or [=] is never pinned. *)
Theorem isVersionPinned_spec v :
  isVersionPinned v = true
  <-> startsWithVersion v
      /\ ~ In ">"%char (Str.chars v) /\ ~ In "<"%char (Str.chars v)
      /\ Str.includes v "||" = false.
Proof.
  unfold isVersionPinned. rewrite !andb_true_iff, !negb_true_iff.
  rewrite test_exact_version.
  unfold Str.includes at 3 4.
  change (Str.chars ">") with [">"%char]. change (Str.chars "<") with ["<"%char].
  rewrite !includes_chars_one.
  split.
  - tauto.
  - intros (V & G & L & O).
    destruct (digit_first V) as (c & rest & -> & D).
    assert (Hc : forall a, Str.is_digit a = false ->
                           Ascii.eqb c a = false).
    { intros a Ha. apply Ascii.eqb_neq. intros ->. congruence. }
    repeat split; auto.
    + unfold Str.startsWith. rewrite prefix_cons.
      destruct (ascii_dec "^" c) as [<-|]; [discriminate D | reflexivity].
    + unfold Str.startsWith. rewrite prefix_cons.
      destruct (ascii_dec "~" c) as [<-|]; [discriminate D | reflexivity].
    + apply includes_chars_head. now apply includes_chars_one.
    + apply includes_chars_head. now apply includes_chars_one.
    + simpl. now rewrite (Hc "*"%char eq_refl).
Qed.

Lemma isVersionPinned_spec_witness :
  isVersionPinned "1.2.3" = true
  /\ startsWithVersion "1.2.3-beta.1"
  /\ isVersionPinned "1.2.3 - 2.0.0" = true.
Proof.
  split; [|split].
  - apply (proj2 (isVersionPinned_spec "1.2.3")).
    split; [|split; [|split]].
    + exists ["1"%char], ["2"%char], ["3"%char], [].
      split; [reflexivity|].
      repeat split; try discriminate; repeat constructor.
    + simpl. intuition discriminate.
    + simpl. intuition discriminate.
    + reflexivity.
  - apply (proj1 (isVersionPinned_spec "1.2.3-beta.1")). reflexivity.
  - apply (proj2 (isVersionPinned_spec "1.2.3 - 2.0.0")).
    split; [|split; [|split]].
    + exists ["1"%char], ["2"%char], ["3"%char], (Str.chars " - 2.0.0").
      split; [reflexivity|].
      repeat split; try discriminate; repeat constructor.
    + simpl. intuition discriminate.
    + simpl. intuition discriminate.
    + reflexivity.
Defined.

Section ParsedNames.
Import JsMap JsMapFacts.

Lemma of_chars_nonempty l : l <> [] -> Str.of_chars l <> EmptyString.
Proof. destruct l; [contradiction | discriminate]. Qed.

Lemma none_of_not_In set w c :
  Forall (fun a => negb (Str.one_of set a) = true) w ->
  In c (Str.chars set) -> ~ In c w.
Proof.
  intros F Hc Hw. rewrite Forall_forall in F. specialize (F c Hw).
  apply negb_true_iff in F. unfold Str.one_of in F.
  assert (E : existsb (Ascii.eqb c) (Str.chars set) = true).
  { apply existsb_exists. exists c. split; auto. apply Ascii.eqb_refl. }
  congruence.
Qed.

Lemma group_1_last f w :
  groups f = [(1, w)] -> group_ 1 f = Str.of_chars w.
Proof. intros H. unfold group_, group. now rewrite H. Qed.

Lemma group_1_second f w2 w :
  groups f = [(2, w2); (1, w)] -> group_ 1 f = Str.of_chars w.
Proof. intros H. unfold group_, group. now rewrite H. Qed.

(** The scope of a [@scope:registry=...] line of .npmrc. *)
Lemma npmrc_scope_key trimmed f :
  exec re_npmrc_scope trimmed = Some f -> scopeKey (group_ 1 f).
Proof.
  intros E. unfold re_npmrc_scope in E. cbn [seqs] in E.
  apply exec_anchored_sound in E. destruct E as (w & s' & M & _ & G).
  apply Matches_seq_inv in M. destruct M as (w1 & s1 & w0 & _ & M1 & M).
  apply Matches_grp_inv in M1. destruct M1 as (s0 & M1 & C1).
  apply Matches_seq_inv in M1. destruct M1 as (a & sa & x & Hw1 & Ma & Mx).
  apply Matches_chr_inv in Ma. destruct Ma as [-> Ca].
  apply Matches_plus_cls_inv in Mx. destruct Mx as (Nx & Fx & Cx).
  apply Matches_seq_inv in M. destruct M as (? & s2 & ? & _ & M2 & M).
  apply Matches_groupFree in M2; [|reflexivity].
  apply Matches_seq_inv in M. destruct M as (? & s3 & ? & _ & M3 & M).
  apply Matches_groupFree in M3; [|reflexivity].
  apply Matches_seq_inv in M. destruct M as (? & s4 & ? & _ & M4 & M).
  apply Matches_groupFree in M4; [|reflexivity].
  apply Matches_seq_inv in M. destruct M as (? & s5 & w2 & _ & M5 & M).
  apply Matches_groupFree in M5; [|reflexivity].
  apply Matches_grp_inv in M. destruct M as (s6 & M6 & C6).
  apply Matches_groupFree in M6; [|reflexivity].
  assert (Hg : groups f = [(2, w2); (1, w1)]).
  { rewrite G, C6, M6, M5, M4, M3, M2, C1, Cx, Ca. reflexivity. }
  rewrite (group_1_second _ Hg). subst w1.
  exists (Str.of_chars x). split; [reflexivity|].
  split; [now apply of_chars_nonempty|].
  rewrite chars_of_chars. apply (@none_of_not_In ":" x ":"%char Fx). now left.
Qed.

(** The scope of a scope header of .yarnrc.yml. *)
Lemma yarnrc_scope_key line f :
  exec re_yarnrc_scope line = Some f -> scopeKey (group_ 1 f).
Proof.
  intros E. unfold re_yarnrc_scope in E. cbn [seqs] in E.
  apply exec_anchored_sound in E. destruct E as (w & s' & M & _ & G).
  apply Matches_seq_inv in M. destruct M as (? & s1 & ? & _ & M1 & M).
  apply Matches_groupFree in M1; [|reflexivity].
  apply Matches_seq_inv in M. destruct M as (? & s2 & ? & _ & M2 & M).
  apply Matches_groupFree in M2; [|reflexivity].
  apply Matches_seq_inv in M. destruct M as (? & s3 & ? & _ & M3 & M).
  apply Matches_groupFree in M3; [|reflexivity].
  apply Matches_seq_inv in M. destruct M as (w1 & s4 & ? & _ & M4 & M).
  apply Matches_grp_inv in M4. destruct M4 as (s0 & M4 & C4).
  apply Matches_seq_inv in M4. destruct M4 as (a & sa & body & Hw1 & Ma & Mx).
  apply Matches_chr_inv in Ma. destruct Ma as [-> Ca].
  apply Matches_plus_cls_inv in Mx. destruct Mx as (Nx & Fx & Cx).
  apply Matches_groupFree in M; [|reflexivity].
  assert (Hg : groups f = [(1, w1)]).
  { rewrite G, M, C4, Cx, Ca, M3, M2, M1. reflexivity. }
  rewrite (group_1_last _ Hg). subst w1.
  exists (Str.of_chars body). split; [reflexivity|].
  split; [now apply of_chars_nonempty|].
  rewrite chars_of_chars. intros Hin.
  rewrite Forall_forall in Fx. specialize (Fx _ Hin).
  apply negb_true_iff in Fx. apply orb_false_iff in Fx. destruct Fx as [Fx _].
  vm_compute in Fx. discriminate.
Qed.

(** The name of a block of yarn.lock. *)
Lemma yarn_header_name header f :
  exec re_yarn_header header = Some f -> yarnName (group_ 1 f).
Proof.
  intros E. unfold re_yarn_header in E. cbn [seqs] in E.
  apply exec_anchored_sound in E. destruct E as (w & s' & M & _ & G).
  apply Matches_seq_inv in M. destruct M as (? & s1 & ? & _ & M1 & M).
  apply Matches_groupFree in M1; [|reflexivity].
  apply Matches_seq_inv in M. destruct M as (w1 & s2 & ? & _ & M2 & M).
  apply Matches_grp_inv in M2. destruct M2 as (s0 & M2 & C2).
  apply Matches_seq_inv in M2. destruct M2 as (o & so & body & Hw1 & Mo & Mx).
  apply Matches_opt_cls_inv in Mo. destruct Mo as [Ho Co].
  apply Matches_plus_cls_inv in Mx. destruct Mx as (Nx & Fx & Cx).
  apply Matches_groupFree in M; [|reflexivity].
  assert (Hg : groups f = [(1, w1)]).
  { rewrite G, M, C2, Cx, Co, M1. reflexivity. }
  rewrite (group_1_last _ Hg). subst w1.
  exists (Str.of_chars body). split.
  - destruct Ho as [->|(c & -> & Hc)]; [now left | right].
    apply Ascii.eqb_eq in Hc. now subst c.
  - split; [now apply of_chars_nonempty|].
    rewrite chars_of_chars.
    split; [apply (@none_of_not_In ("@" ++ Str.q) body "@"%char Fx)
           | apply (@none_of_not_In ("@" ++ Str.q) body Str.dquote Fx)];
      simpl; auto.
Qed.

Lemma set_keys_all (P : string -> Prop) (m : JsMap.t string) k v :
  (forall k', has m k' = true -> P k') -> P k ->
  forall k', has (set m k v) k' = true -> P k'.
Proof.
  intros Hm Hk k'. unfold has. rewrite get_set.
  destruct (String.eqb k k') eqn:E.
  - apply String.eqb_eq in E. now subst.
  - apply Hm.
Qed.

Lemma empty_keys_all (P : string -> Prop) :
  forall k', has (@empty string) k' = true -> P k'.
Proof. intros k' H. discriminate. Qed.

Lemma npmrc_keys content k :
  has (scopeRegistries (parseNpmrcContent content)) k = true -> scopeKey k.
Proof.
  unfold parseNpmrcContent. cbn [scopeRegistries].
  assert (H : forall lines st,
             (forall k', has (snd st) k' = true -> scopeKey k') ->
             forall k', has (snd (fold_left npmrcLine lines st)) k' = true ->
                        scopeKey k').
  { induction lines as [|line lines IH]; intros st Hst; [exact Hst|].
    cbn [fold_left]. apply IH. unfold npmrcLine.
    destruct (negb _ || _ || _); [exact Hst|].
    destruct (exec re_npmrc_registry _); [exact Hst|].
    destruct (exec re_npmrc_scope _) as [f|] eqn:E; [|exact Hst].
    cbn [snd]. apply set_keys_all; [exact Hst|].
    now apply (npmrc_scope_key _ E). }
  apply H. apply empty_keys_all.
Qed.

Lemma yarnrcScopes_keys lines :
  forall cur m,
    (forall sc, cur = Some sc -> Str.truthy sc = true -> scopeKey sc) ->
    (forall k', has m k' = true -> scopeKey k') ->
    forall k', has (yarnrcScopes lines cur m) k' = true -> scopeKey k'.
Proof.
  induction lines as [|line lines IH]; intros cur m Hc Hm; [exact Hm|].
  cbn [yarnrcScopes].
  destruct (test re_unindented line && _); [exact Hm|].
  destruct (exec re_yarnrc_scope line) as [f|] eqn:E.
  - apply IH; [|exact Hm]. intros sc Hsc _. inversion Hsc; subst sc.
    now apply (yarnrc_scope_key _ E).
  - destruct cur as [sc|]; [|now apply IH].
    destruct (Str.truthy sc) eqn:T; [|now apply IH].
    destruct (exec re_yarnrc_scoped_server line); [|now apply IH].
    apply IH; [exact Hc|]. apply set_keys_all; [exact Hm|]. now apply Hc.
Qed.

Lemma yarnrc_keys content k :
  has (scopeRegistries (parseYarnrcContent content)) k = true -> scopeKey k.
Proof.
  unfold parseYarnrcContent. cbn [scopeRegistries].
  destruct (exec re_yarnrc_scopes content); [|apply empty_keys_all].
  apply yarnrcScopes_keys; [discriminate | apply empty_keys_all].
Qed.

Lemma setAll_keys (P : string -> Prop) from :
  forall into,
    (forall k', has into k' = true -> P k') ->
    (forall k', has from k' = true -> P k') ->
    forall k', has (setAll into from) k' = true -> P k'.
Proof.
  unfold setAll. induction from as [|[k v] from IH]; intros into Hi Hf;
    [exact Hi|].
  cbn [fold_left fst snd].
  assert (Hk : P k).
  { apply Hf. unfold has. simpl. now rewrite String.eqb_refl. }
  destruct (has from k) eqn:Dup.
  - (* a key that comes again further on *)
    apply IH.
    + now apply set_keys_all.
    + intros k' H'. apply Hf. unfold has in *. simpl.
      destruct (String.eqb k k'); [reflexivity | exact H'].
  - apply IH.
    + now apply set_keys_all.
    + intros k' H'. apply Hf. unfold has in *. simpl.
      destruct (String.eqb k k'); [reflexivity | exact H'].
Qed.

End ParsedNames.

(** Every key of the merged scope-registry table is a scope: it starts
    with [@], goes on with at least one character, and holds no colon,
    whatever the two config files contain.  A line that maps anything else
    to a registry is not stored. *)
Theorem registry_scopes_are_scopes fs rootDir k :
  JsMap.has (scopeRegistries (parseRegistryConfig fs rootDir)) k = true ->
  scopeKey k.
Proof.
  unfold parseRegistryConfig. cbn [scopeRegistries].
  apply setAll_keys.
  - apply setAll_keys; [apply empty_keys_all|].
    unfold parseYarnrc. destruct (fs _); [apply yarnrc_keys | apply empty_keys_all].
  - unfold parseNpmrc. destruct (fs _); [apply npmrc_keys | apply empty_keys_all].
Qed.

Lemma registry_scopes_are_scopes_witness :
  scopeKey "@acme".
Proof.
  apply (@registry_scopes_are_scopes both_configs "/repo" "@acme").
  vm_compute. reflexivity.
Defined.

(** Every name in the table of a yarn.lock is a name that a header gives:
    not empty, without a double quote, and with [@] at most as its first
    character, so the version range behind the name is no part of it. *)
Theorem yarn_table_names content n :
  JsMap.has (packages (parseYarnLockfile content)) n = true -> yarnName n.
Proof.
  unfold JsMap.has, parseYarnLockfile. cbn [packages].
  rewrite yarnBlocks_last.
  destruct (lastWith (yarnNamed n) (yarnBlocks content)) as [b|] eqn:L;
    [|discriminate].
  intros _.
  assert (Hb : yarnNamed n b = true).
  { clear -L. induction (yarnBlocks content) as [|b' l IH]; [discriminate|].
    simpl in L. destruct (lastWith (yarnNamed n) l) as [b''|].
    - apply IH. exact L.
    - destruct (yarnNamed n b') eqn:E; [|discriminate].
      inversion L; subst. exact E. }
  unfold yarnNamed in Hb. destruct (yarnBlockName b) as [n'|] eqn:N;
    [|discriminate].
  apply String.eqb_eq in Hb. subst n'.
  unfold yarnBlockName in N.
  destruct (negb _ || _); [discriminate|].
  destruct (exec re_yarn_header _) as [f|] eqn:E; [|discriminate].
  inversion N; subst n. now apply (yarn_header_name _ E).
Qed.

Lemma yarn_table_names_witness :
  yarnName "@acme/lib".
Proof.
  apply (@yarn_table_names yarn_two_versions "@acme/lib").
  vm_compute. reflexivity.
Defined.

Section WorkspacePatterns.

Lemma workspace_item_pattern trimmed f :
  exec re_workspace_item trimmed = Some f ->
  group_ 1 f <> EmptyString
  /\ ~ In Str.squote (Str.chars (group_ 1 f))
  /\ ~ In Str.dquote (Str.chars (group_ 1 f)).
Proof.
  intros E. unfold re_workspace_item in E. cbn [seqs] in E.
  apply exec_anchored_sound in E. destruct E as (w & s' & M & _ & G).
  apply Matches_seq_inv in M. destruct M as (? & s1 & ? & _ & M1 & M).
  apply Matches_groupFree in M1; [|reflexivity].
  apply Matches_seq_inv in M. destruct M as (? & s2 & ? & _ & M2 & M).
  apply Matches_groupFree in M2; [|reflexivity].
  apply Matches_seq_inv in M. destruct M as (? & s3 & ? & _ & M3 & M).
  apply Matches_groupFree in M3; [|reflexivity].
  apply Matches_seq_inv in M. destruct M as (body & s4 & ? & _ & M4 & M).
  apply Matches_grp_inv in M4. destruct M4 as (s0 & M4 & C4).
  apply Matches_plus_cls_inv in M4. destruct M4 as (Nb & Fb & Cb).
  apply Matches_groupFree in M; [|reflexivity].
  assert (Hg : groups f = [(1, body)]).
  { rewrite G, M, C4, Cb, M3, M2, M1. reflexivity. }
  rewrite (group_1_last _ Hg), chars_of_chars.
  split; [now apply of_chars_nonempty|].
  split; [apply (@none_of_not_In (Str.sq ++ Str.q) body Str.squote Fb)
         | apply (@none_of_not_In (Str.sq ++ Str.q) body Str.dquote Fb)];
    simpl; auto.
Qed.

Lemma workspaceYamlLines_patterns (P : string -> Prop) lines :
  (forall trimmed f, exec re_workspace_item trimmed = Some f -> P (group_ 1 f)) ->
  forall inPackages patterns,
    Forall P patterns ->
    Forall P (workspaceYamlLines lines inPackages patterns).
Proof.
  intros HP. induction lines as [|line lines IH]; intros inPackages patterns F;
    [exact F|].
  cbn [workspaceYamlLines].
  destruct (String.eqb _ "packages:"); [now apply IH|].
  destruct inPackages; [|now apply IH].
  destruct (test re_unindented line && _); [exact F|].
  destruct (exec re_workspace_item _) as [f|] eqn:E; [|now apply IH].
  apply IH. apply Forall_app. split; [exact F|].
  constructor; [|constructor]. now apply (HP _ _ E).
Qed.

End WorkspacePatterns.

(** Every pattern read from a pnpm-workspace.yaml is not empty and holds
    no quote of either kind: the quotes around a list item are taken off,
    and an item with a quote inside is not a pattern. *)
Theorem workspace_patterns_unquoted content p :
  In p (parsePnpmWorkspaceYaml content) ->
  p <> EmptyString
  /\ ~ In Str.squote (Str.chars p) /\ ~ In Str.dquote (Str.chars p).
Proof.
  intros H.
  assert (F : Forall (fun p => p <> EmptyString
                               /\ ~ In Str.squote (Str.chars p)
                               /\ ~ In Str.dquote (Str.chars p))
                     (parsePnpmWorkspaceYaml content)).
  { unfold parsePnpmWorkspaceYaml. apply workspaceYamlLines_patterns.
    - apply workspace_item_pattern.
    - constructor. }
  rewrite Forall_forall in F. now apply F.
Qed.

Lemma workspace_patterns_unquoted_witness :
  "packages/*" <> EmptyString
  /\ ~ In Str.squote (Str.chars "packages/*")
  /\ ~ In Str.dquote (Str.chars "packages/*").
Proof.
  apply (@workspace_patterns_unquoted workspace_yaml_packages "packages/*").
  vm_compute. auto.
Defined.
